(** * Stealth and enemy-behaviour engine: a shallow embedding

    The development follows [StealthSystem.js], [EnemyAI.js] and the parts of
    [PlayerController.js], [LevelBuilder.js] and [main.js] they call, and
    then the callers that rely on them: [WeaponSystem.js],
    [GameStateManager.js] and the game loop of [main.js].

    JavaScript numbers are idealised as exact rationals ([Q]): no rounding,
    and a division by zero gives 0 as it does in [Q].  A NaN is modelled
    in one place, the score of a heard sound of radius 0 ([Sound.Score]),
    where it decides which sound a listener gets back.  Timestamps
    returned by [Date.now()] are integers ([Z], milliseconds).  The
    transcendental functions of the host ([Math.sqrt], [Math.sin], ...) are
    an interface ([MathLib]): every general statement below holds for any
    implementation of it, and the closed examples run on the rational
    implementation [rationalMath].  Rendering objects (meshes, vision
    cones, timers that only animate) and audio are not part of the
    model. *)

From Stdlib Require Import QArith Qabs Qround ZArith List Bool String Lia Lqa.
Import ListNotations.

Local Open Scope Q_scope.

(** ** Numbers *)

Definition Qltb (a b : Q) : bool := negb (Qle_bool b a).
Definition Qgtb (a b : Q) : bool := Qltb b a.
Definition Qgeb (a b : Q) : bool := Qle_bool b a.
Definition Qleb (a b : Q) : bool := Qle_bool a b.

(** ** The host's [Math] object *)

Module Math.

(** [Math.PI] is the double nearest to pi; this is its exact value. *)
Definition PI : Q := 884279719003555 # 281474976710656.

Definition max (a b : Q) : Q := if Qle_bool a b then b else a.
Definition min (a b : Q) : Q := if Qle_bool a b then a else b.
Definition abs (a : Q) : Q := Qabs a.

End Math.

(** The functions of [Math] that have no rational definition. *)
Class MathLib : Type := {
  sqrt  : Q -> Q;
  sin   : Q -> Q;
  cos   : Q -> Q;
  acos  : Q -> Q;
  atan2 : Q -> Q -> Q
}.

(** ** three.js vectors and boxes *)

Module THREE.

Record Vector3 : Type := vec3 { x : Q; y : Q; z : Q }.

Definition zero : Vector3 := vec3 0 0 0.
Definition setY (v : Vector3) (h : Q) : Vector3 := vec3 (x v) h (z v).
Definition subVectors (a b : Vector3) : Vector3 :=
  vec3 (x a - x b) (y a - y b) (z a - z b).
Definition add (a b : Vector3) : Vector3 :=
  vec3 (x a + x b) (y a + y b) (z a + z b).
Definition multiplyScalar (v : Vector3) (s : Q) : Vector3 :=
  vec3 (x v * s) (y v * s) (z v * s).
Definition dot (a b : Vector3) : Q := x a * x b + y a * y b + z a * z b.
Definition distanceToSquared (a b : Vector3) : Q :=
  let dx := x a - x b in
  let dy := y a - y b in
  let dz := z a - z b in
  dx * dx + dy * dy + dz * dz.

Record Box3 : Type := box3 { bmin : Vector3; bmax : Vector3 }.

Definition intersectsBox (a b : Box3) : bool :=
  negb (Qltb (x (bmax b)) (x (bmin a)) || Qgtb (x (bmin b)) (x (bmax a))
     || Qltb (y (bmax b)) (y (bmin a)) || Qgtb (y (bmin b)) (y (bmax a))
     || Qltb (z (bmax b)) (z (bmin a)) || Qgtb (z (bmin b)) (z (bmax a))).

Section WithMath.
Context {M : MathLib}.

Definition length (v : Vector3) : Q := sqrt (dot v v).
Definition distanceTo (a b : Vector3) : Q := sqrt (distanceToSquared a b).

(** [normalize] divides by [length() || 1]: the zero vector stays zero. *)
Definition normalize (v : Vector3) : Vector3 :=
  let l := length v in
  let d := if Qeq_bool l 0 then 1 else l in
  vec3 (x v / d) (y v / d) (z v / d).
End WithMath.

End THREE.

Inductive AlertState : Type := IDLE | SUSPICIOUS | ALERTED | COMBAT.

Definition AlertState_eqb (a b : AlertState) : bool :=
  match a, b with
  | IDLE, IDLE | SUSPICIOUS, SUSPICIOUS => true
  | ALERTED, ALERTED | COMBAT, COMBAT => true
  | _, _ => false
  end.

Abbreviation Vector3 := THREE.Vector3.
Abbreviation vec3 := THREE.vec3.

(** ** The player, as far as the engine reads and writes it
    ([PlayerController.js]) *)

Module Player.

Record t : Type := mk {
  position : Vector3;
  isAlive : bool;
  isCrouching : bool;
  isRunning : bool;
  isMoving : bool;
  health : Q
}.

Definition getVisibilityMultiplier (p : t) : Q :=
  let multiplier := 1 in
  let multiplier := if isCrouching p then multiplier * 0.5 else multiplier in
  let multiplier := if isRunning p then multiplier * 1.5 else multiplier in
  let multiplier :=
    if negb (isMoving p) then multiplier * 0.7 else multiplier in
  multiplier.

Definition die (p : t) : t :=
  mk (position p) false (isCrouching p) (isRunning p) (isMoving p) (health p).

Definition takeDamage (amount : Q) (p : t) : t :=
  if negb (isAlive p) then p
  else
    let h := health p - amount in
    if Qleb h 0
    then die (mk (position p) (isAlive p) (isCrouching p) (isRunning p)
                 (isMoving p) 0)
    else mk (position p) (isAlive p) (isCrouching p) (isRunning p)
            (isMoving p) h.

End Player.

(** ** Static obstacles of the level ([levelData.colliders]) *)

Inductive Collider : Type :=
| Cylinder (position : Vector3) (radius : Q)
| Box (bounds : THREE.Box3)
| Shapeless.

(** ** Agents ([EnemyAI.js]) *)

Module EnemyAI.

Record t : Type := mk {
  id : nat;
  isTarget : bool;
  position : Vector3;
  rotation : Q;
  patrolRoute : list Vector3;
  currentPatrolIndex : nat;
  patrolWaitTime : Q;
  patrolWaitDuration : Q;
  detectionRange : Q;
  detectionAngle : Q;
  alertLevel : Q;
  alertState : AlertState;
  alertDecayRate : Q;
  health : Q;
  maxHealth : Q;
  isAlive : bool;
  shootCooldown : Q;
  shootInterval : Q;
  shootRange : Q;
  damage : Q;
  accuracy : Q;
  lastKnownPlayerPos : option Vector3;
  investigateTime : Q;
  investigateDuration : Q;
  lostPlayerTime : Q;
  searchTime : Q;
  walkSpeed : Q;
  runSpeed : Q;
  turnSpeed : Q;
  inCover : bool;
  coverPosition : option Vector3;
  coverTime : Q
}.

Definition set_position (v : Vector3) (e : t) : t :=
  mk (id e) (isTarget e) v (rotation e) (patrolRoute e)
    (currentPatrolIndex e) (patrolWaitTime e) (patrolWaitDuration e)
    (detectionRange e) (detectionAngle e) (alertLevel e) (alertState e)
    (alertDecayRate e) (health e) (maxHealth e) (isAlive e)
    (shootCooldown e) (shootInterval e) (shootRange e) (damage e)
    (accuracy e) (lastKnownPlayerPos e) (investigateTime e)
    (investigateDuration e) (lostPlayerTime e) (searchTime e) (walkSpeed e)
    (runSpeed e) (turnSpeed e) (inCover e) (coverPosition e) (coverTime e).

Definition set_rotation (v : Q) (e : t) : t :=
  mk (id e) (isTarget e) (position e) v (patrolRoute e)
    (currentPatrolIndex e) (patrolWaitTime e) (patrolWaitDuration e)
    (detectionRange e) (detectionAngle e) (alertLevel e) (alertState e)
    (alertDecayRate e) (health e) (maxHealth e) (isAlive e)
    (shootCooldown e) (shootInterval e) (shootRange e) (damage e)
    (accuracy e) (lastKnownPlayerPos e) (investigateTime e)
    (investigateDuration e) (lostPlayerTime e) (searchTime e) (walkSpeed e)
    (runSpeed e) (turnSpeed e) (inCover e) (coverPosition e) (coverTime e).

Definition set_currentPatrolIndex (v : nat) (e : t) : t :=
  mk (id e) (isTarget e) (position e) (rotation e) (patrolRoute e) v
    (patrolWaitTime e) (patrolWaitDuration e) (detectionRange e)
    (detectionAngle e) (alertLevel e) (alertState e) (alertDecayRate e)
    (health e) (maxHealth e) (isAlive e) (shootCooldown e) (shootInterval e)
    (shootRange e) (damage e) (accuracy e) (lastKnownPlayerPos e)
    (investigateTime e) (investigateDuration e) (lostPlayerTime e)
    (searchTime e) (walkSpeed e) (runSpeed e) (turnSpeed e) (inCover e)
    (coverPosition e) (coverTime e).

Definition set_patrolWaitTime (v : Q) (e : t) : t :=
  mk (id e) (isTarget e) (position e) (rotation e) (patrolRoute e)
    (currentPatrolIndex e) v (patrolWaitDuration e) (detectionRange e)
    (detectionAngle e) (alertLevel e) (alertState e) (alertDecayRate e)
    (health e) (maxHealth e) (isAlive e) (shootCooldown e) (shootInterval e)
    (shootRange e) (damage e) (accuracy e) (lastKnownPlayerPos e)
    (investigateTime e) (investigateDuration e) (lostPlayerTime e)
    (searchTime e) (walkSpeed e) (runSpeed e) (turnSpeed e) (inCover e)
    (coverPosition e) (coverTime e).

Definition set_alertLevel (v : Q) (e : t) : t :=
  mk (id e) (isTarget e) (position e) (rotation e) (patrolRoute e)
    (currentPatrolIndex e) (patrolWaitTime e) (patrolWaitDuration e)
    (detectionRange e) (detectionAngle e) v (alertState e)
    (alertDecayRate e) (health e) (maxHealth e) (isAlive e)
    (shootCooldown e) (shootInterval e) (shootRange e) (damage e)
    (accuracy e) (lastKnownPlayerPos e) (investigateTime e)
    (investigateDuration e) (lostPlayerTime e) (searchTime e) (walkSpeed e)
    (runSpeed e) (turnSpeed e) (inCover e) (coverPosition e) (coverTime e).

Definition set_alertState (v : AlertState) (e : t) : t :=
  mk (id e) (isTarget e) (position e) (rotation e) (patrolRoute e)
    (currentPatrolIndex e) (patrolWaitTime e) (patrolWaitDuration e)
    (detectionRange e) (detectionAngle e) (alertLevel e) v
    (alertDecayRate e) (health e) (maxHealth e) (isAlive e)
    (shootCooldown e) (shootInterval e) (shootRange e) (damage e)
    (accuracy e) (lastKnownPlayerPos e) (investigateTime e)
    (investigateDuration e) (lostPlayerTime e) (searchTime e) (walkSpeed e)
    (runSpeed e) (turnSpeed e) (inCover e) (coverPosition e) (coverTime e).

Definition set_health (v : Q) (e : t) : t :=
  mk (id e) (isTarget e) (position e) (rotation e) (patrolRoute e)
    (currentPatrolIndex e) (patrolWaitTime e) (patrolWaitDuration e)
    (detectionRange e) (detectionAngle e) (alertLevel e) (alertState e)
    (alertDecayRate e) v (maxHealth e) (isAlive e) (shootCooldown e)
    (shootInterval e) (shootRange e) (damage e) (accuracy e)
    (lastKnownPlayerPos e) (investigateTime e) (investigateDuration e)
    (lostPlayerTime e) (searchTime e) (walkSpeed e) (runSpeed e)
    (turnSpeed e) (inCover e) (coverPosition e) (coverTime e).

Definition set_isAlive (v : bool) (e : t) : t :=
  mk (id e) (isTarget e) (position e) (rotation e) (patrolRoute e)
    (currentPatrolIndex e) (patrolWaitTime e) (patrolWaitDuration e)
    (detectionRange e) (detectionAngle e) (alertLevel e) (alertState e)
    (alertDecayRate e) (health e) (maxHealth e) v (shootCooldown e)
    (shootInterval e) (shootRange e) (damage e) (accuracy e)
    (lastKnownPlayerPos e) (investigateTime e) (investigateDuration e)
    (lostPlayerTime e) (searchTime e) (walkSpeed e) (runSpeed e)
    (turnSpeed e) (inCover e) (coverPosition e) (coverTime e).

Definition set_shootCooldown (v : Q) (e : t) : t :=
  mk (id e) (isTarget e) (position e) (rotation e) (patrolRoute e)
    (currentPatrolIndex e) (patrolWaitTime e) (patrolWaitDuration e)
    (detectionRange e) (detectionAngle e) (alertLevel e) (alertState e)
    (alertDecayRate e) (health e) (maxHealth e) (isAlive e) v
    (shootInterval e) (shootRange e) (damage e) (accuracy e)
    (lastKnownPlayerPos e) (investigateTime e) (investigateDuration e)
    (lostPlayerTime e) (searchTime e) (walkSpeed e) (runSpeed e)
    (turnSpeed e) (inCover e) (coverPosition e) (coverTime e).

Definition set_lastKnownPlayerPos (v : option Vector3) (e : t) : t :=
  mk (id e) (isTarget e) (position e) (rotation e) (patrolRoute e)
    (currentPatrolIndex e) (patrolWaitTime e) (patrolWaitDuration e)
    (detectionRange e) (detectionAngle e) (alertLevel e) (alertState e)
    (alertDecayRate e) (health e) (maxHealth e) (isAlive e)
    (shootCooldown e) (shootInterval e) (shootRange e) (damage e)
    (accuracy e) v (investigateTime e) (investigateDuration e)
    (lostPlayerTime e) (searchTime e) (walkSpeed e) (runSpeed e)
    (turnSpeed e) (inCover e) (coverPosition e) (coverTime e).

Definition set_investigateTime (v : Q) (e : t) : t :=
  mk (id e) (isTarget e) (position e) (rotation e) (patrolRoute e)
    (currentPatrolIndex e) (patrolWaitTime e) (patrolWaitDuration e)
    (detectionRange e) (detectionAngle e) (alertLevel e) (alertState e)
    (alertDecayRate e) (health e) (maxHealth e) (isAlive e)
    (shootCooldown e) (shootInterval e) (shootRange e) (damage e)
    (accuracy e) (lastKnownPlayerPos e) v (investigateDuration e)
    (lostPlayerTime e) (searchTime e) (walkSpeed e) (runSpeed e)
    (turnSpeed e) (inCover e) (coverPosition e) (coverTime e).

Definition set_searchTime (v : Q) (e : t) : t :=
  mk (id e) (isTarget e) (position e) (rotation e) (patrolRoute e)
    (currentPatrolIndex e) (patrolWaitTime e) (patrolWaitDuration e)
    (detectionRange e) (detectionAngle e) (alertLevel e) (alertState e)
    (alertDecayRate e) (health e) (maxHealth e) (isAlive e)
    (shootCooldown e) (shootInterval e) (shootRange e) (damage e)
    (accuracy e) (lastKnownPlayerPos e) (investigateTime e)
    (investigateDuration e) (lostPlayerTime e) v (walkSpeed e) (runSpeed e)
    (turnSpeed e) (inCover e) (coverPosition e) (coverTime e).

Definition set_coverTime (v : Q) (e : t) : t :=
  mk (id e) (isTarget e) (position e) (rotation e) (patrolRoute e)
    (currentPatrolIndex e) (patrolWaitTime e) (patrolWaitDuration e)
    (detectionRange e) (detectionAngle e) (alertLevel e) (alertState e)
    (alertDecayRate e) (health e) (maxHealth e) (isAlive e)
    (shootCooldown e) (shootInterval e) (shootRange e) (damage e)
    (accuracy e) (lastKnownPlayerPos e) (investigateTime e)
    (investigateDuration e) (lostPlayerTime e) (searchTime e) (walkSpeed e)
    (runSpeed e) (turnSpeed e) (inCover e) (coverPosition e) v.


(** The constructor; [id] is the value of the global counter after its
    increment. *)
Definition new (id : nat) (position : Vector3) (patrol : list Vector3)
    (isTarget : bool) : t :=
  {| id := id; isTarget := isTarget;
     position := position; rotation := 0;
     patrolRoute := patrol; currentPatrolIndex := 0%nat;
     patrolWaitTime := 0; patrolWaitDuration := 2;
     detectionRange := if isTarget then 8 else 12;
     detectionAngle := Math.PI / 3;
     alertLevel := 0; alertState := IDLE; alertDecayRate := 0.15;
     health := if isTarget then 50 else 100;
     maxHealth := if isTarget then 50 else 100;
     isAlive := true;
     shootCooldown := 0; shootInterval := 0.8; shootRange := 20;
     damage := 10; accuracy := 0.7;
     lastKnownPlayerPos := None;
     investigateTime := 0; investigateDuration := 5;
     lostPlayerTime := 0; searchTime := 0;
     walkSpeed := 2; runSpeed := 5; turnSpeed := 3;
     inCover := false; coverPosition := None; coverTime := 0 |}.

Definition die (e : t) : t := set_isAlive false e.

(** [takeDamage] returns the agent after the call and the call's result.
    The hit reaction and the red flash touch the mesh only. *)
Definition takeDamage (amount : Q) (isHeadshot : bool) (e : t) : t * bool :=
  if negb (isAlive e) then (e, false)
  else
    let amount := if isHeadshot then amount * 2 else amount in
    let e := set_health (health e - amount) e in
    if Qleb (health e) 0 then (die e, true)
    else (set_alertState COMBAT (set_alertLevel 1 e), false).

Section WithMath.
Context {M : MathLib}.

(** The two [while] loops of [facePosition] bring [diff] back into
    [[-PI, PI]] one turn at a time.  [turns] bounds their iteration count,
    see [wrapDown_exit] and [wrapUp_exit]. *)
Fixpoint wrapDown (fuel : nat) (diff : Q) : Q :=
  match fuel with
  | O => diff
  | S fuel' =>
      if Qgtb diff Math.PI then wrapDown fuel' (diff - Math.PI * 2) else diff
  end.

Fixpoint wrapUp (fuel : nat) (diff : Q) : Q :=
  match fuel with
  | O => diff
  | S fuel' =>
      if Qltb diff (- Math.PI) then wrapUp fuel' (diff + Math.PI * 2) else diff
  end.

Definition turns (diff : Q) : nat :=
  Z.to_nat (Qceiling (Qabs diff / (Math.PI * 2))).

Definition facePosition (target : Vector3) (deltaTime : Q) (e : t) : t :=
  let direction := THREE.subVectors target (position e) in
  let targetRotation := atan2 (- THREE.x direction) (- THREE.z direction) in
  let diff := targetRotation - rotation e in
  let diff := wrapDown (turns diff) diff in
  let diff := wrapUp (turns diff) diff in
  set_rotation (rotation e + diff * turnSpeed e * deltaTime) e.

Definition hitsCollider (position : Vector3) (c : Collider) : bool :=
  let radius := 0.3 in
  match c with
  | Cylinder cpos cradius =>
      let dx := THREE.x position - THREE.x cpos in
      let dz := THREE.z position - THREE.z cpos in
      let dist := sqrt (dx * dx + dz * dz) in
      Qltb dist (radius + cradius)
  | Box bounds =>
      let testBounds :=
        THREE.box3
          (vec3 (THREE.x position - radius) 0 (THREE.z position - radius))
          (vec3 (THREE.x position + radius) 2 (THREE.z position + radius)) in
      THREE.intersectsBox testBounds bounds
  | Shapeless => false
  end.

Definition checkCollision (position : Vector3) (colliders : list Collider)
    : bool :=
  if existsb (hitsCollider position) colliders then true
  else if Qgtb (Math.abs (THREE.x position)) 24
          || Qgtb (Math.abs (THREE.z position)) 29 then true
  else false.

(** [direction.multiplyScalar] scales [direction] in place, so the slide
    direction is built from the already scaled vector. *)
Definition moveTowards (target : Vector3) (speed deltaTime : Q)
    (colliders : list Collider) (e : t) : t :=
  let e := facePosition target deltaTime e in
  let direction := THREE.normalize (THREE.subVectors target (position e)) in
  let direction := THREE.multiplyScalar direction (speed * deltaTime) in
  let newPosition := THREE.add (position e) direction in
  if negb (checkCollision newPosition colliders) then set_position newPosition e
  else
    let slideDir := vec3 (THREE.z direction) 0 (- THREE.x direction) in
    let slidePos :=
      THREE.add (position e)
                (THREE.multiplyScalar slideDir (speed * deltaTime * 0.5)) in
    if negb (checkCollision slidePos colliders) then set_position slidePos e
    else e.

(** [patrol] reads [patrolRoute[currentPatrolIndex]]; outside the route the
    read is [undefined] and [distanceTo] throws, which is [None] here. *)
Definition patrol (deltaTime : Q) (colliders : list Collider) (now : Z)
    (e : t) : option t :=
  if Nat.eqb (List.length (patrolRoute e)) 0 then
    Some (set_rotation (rotation e + sin (inject_Z now * 0.001) * 0.01) e)
  else if Qgtb (patrolWaitTime e) 0 then
    let e := set_patrolWaitTime (patrolWaitTime e - deltaTime) e in
    Some (set_rotation (rotation e + sin (inject_Z now * 0.002) * 0.02) e)
  else
    match nth_error (patrolRoute e) (currentPatrolIndex e) with
    | None => None
    | Some target =>
        let distance := THREE.distanceTo (position e) target in
        if Qltb distance 0.5 then
          let e :=
            set_currentPatrolIndex
              ((currentPatrolIndex e + 1) mod List.length (patrolRoute e))%nat
              e in
          Some (set_patrolWaitTime (patrolWaitDuration e) e)
        else Some (moveTowards target (walkSpeed e) deltaTime colliders e)
    end.

Definition investigate (deltaTime : Q) (colliders : list Collider) (now : Z)
    (e : t) : option t :=
  match lastKnownPlayerPos e with
  | None => patrol deltaTime colliders now e
  | Some lastKnown =>
      let e := set_investigateTime (investigateTime e + deltaTime) e in
      let distance := THREE.distanceTo (position e) lastKnown in
      let e :=
        if Qgtb distance 1
        then moveTowards lastKnown (walkSpeed e * 1.5) deltaTime colliders e
        else set_rotation (rotation e + sin (inject_Z now * 0.003) * 0.05) e in
      if Qgtb (investigateTime e) (investigateDuration e) then
        Some (set_alertLevel 0
               (set_lastKnownPlayerPos None (set_investigateTime 0 e)))
      else Some e
  end.

Definition search (deltaTime : Q) (player : Player.t)
    (colliders : list Collider) (e : t) : t :=
  let e := set_searchTime (searchTime e + deltaTime) e in
  let e :=
    match lastKnownPlayerPos e with
    | Some lastKnown =>
        let distance := THREE.distanceTo (position e) lastKnown in
        if Qgtb distance 1
        then moveTowards lastKnown (runSpeed e * 0.8) deltaTime colliders e
        else set_rotation (rotation e + deltaTime * 2) e
    | None => e
    end in
  if Qgtb (searchTime e) 10
  then set_alertLevel (alertLevel e - 0.3) (set_searchTime 0 e)
  else e.

(** [rnd] is the value drawn by [Math.random()]. *)
Definition shoot (player : Player.t) (rnd : Q) (e : t) : t * Player.t :=
  let e := set_shootCooldown (shootInterval e) e in
  let distance := THREE.distanceTo (position e) (Player.position player) in
  let hitChance := accuracy e * (1 - distance / shootRange e * 0.5) in
  let hitChance :=
    if Player.isMoving player then hitChance * 0.7 else hitChance in
  let hitChance :=
    if Player.isCrouching player then hitChance * 0.6 else hitChance in
  if Qltb rnd hitChance then (e, Player.takeDamage (damage e) player)
  else (e, player).

Definition combat (deltaTime : Q) (player : Player.t)
    (colliders : list Collider) (rnd : Q) (e : t) : t * Player.t :=
  if negb (Player.isAlive player) then (set_alertLevel 0.5 e, player)
  else
    let e := set_lastKnownPlayerPos (Some (Player.position player)) e in
    let distance := THREE.distanceTo (position e) (Player.position player) in
    let e := facePosition (Player.position player) deltaTime e in
    if Qgtb distance (shootRange e) then
      (moveTowards (Player.position player) (runSpeed e) deltaTime colliders e,
       player)
    else if Qltb distance 8 then
      let e := set_coverTime (coverTime e + deltaTime) e in
      let e :=
        if Qgtb (coverTime e) 2 then
          let strafeDir :=
            THREE.multiplyScalar
              (vec3 (cos (rotation e + Math.PI / 2)) 0
                    (- sin (rotation e + Math.PI / 2)))
              (walkSpeed e * deltaTime) in
          let newPos := THREE.add (position e) strafeDir in
          let e :=
            if negb (checkCollision newPos colliders)
            then set_position (THREE.add (position e) strafeDir) e
            else e in
          if Qgtb (coverTime e) 4 then set_coverTime 0 e else e
        else e in
      if Qleb (shootCooldown e) 0 && negb (isTarget e)
      then shoot player rnd e
      else (e, player)
    else
      if Qleb (shootCooldown e) 0 && negb (isTarget e)
      then shoot player rnd e
      else (e, player).

End WithMath.

End EnemyAI.

(** ** Light and dark zones ([LevelBuilder.js]) *)

Module LevelBuilder.

Record Zone : Type := mkZone { center : Vector3; radius : Q }.

Record t : Type := mk { lightZones : list Zone; darkZones : list Zone }.

Section WithMath.
Context {M : MathLib}.

Definition inZone (position : Vector3) (zone : Zone) : bool :=
  let dist := THREE.distanceTo position (center zone) in
  Qltb dist (radius zone).

Definition isInLightZone (lb : t) (position : Vector3) : bool :=
  existsb (inZone position) (lightZones lb).

Definition isInDarkZone (lb : t) (position : Vector3) : bool :=
  existsb (inZone position) (darkZones lb).

Definition getLightingModifier (lb : t) (position : Vector3) : Q :=
  if isInLightZone lb position then 1.5
  else if isInDarkZone lb position then 0.5
  else 1.0.

End WithMath.

End LevelBuilder.

(** ** Sound events *)

Module Sound.

(** An entry of [soundSources]. *)
Record t : Type := mk {
  position : Vector3;
  loudness : Q;
  type : string;
  time : Z;
  radius : Q
}.

(** The score of a heard sound.  It is a number, except for a sound of
    radius 0: that one is heard at the distance 0 only, and
    [loudness * (1 - 0 / 0)] is NaN. *)
Inductive Score : Type :=
| Finite (q : Q)
| NaN.

(** An entry of [heardSounds], which is what a listener gets back. *)
Record heard : Type := mkHeard {
  hposition : Vector3;
  hloudness : Score;
  htype : string
}.

(** [a - b] and [a > 0] on scores: NaN spreads through the difference and
    is not greater than 0. *)
Definition minus (a b : Score) : Score :=
  match a, b with
  | Finite x, Finite y => Finite (x - y)
  | _, _ => NaN
  end.

Definition positive (a : Score) : bool :=
  match a with
  | Finite x => Qgtb x 0
  | NaN => false
  end.

End Sound.

(** ** Perception, hearing and the global alert ([StealthSystem.js]) *)

Module StealthSystem.

(** What [raycaster.intersectObjects] returns for the meshes the traversal
    collects: the distances of the hits along the ray from [origin] in
    [direction], up to [far].  The traversal leaves out the meshes marked
    [isEnemy], which are the body and the head of each agent, and those
    marked [isPlayer], a mark no mesh carries; so the player's own meshes
    and the vision cones are among the meshes a ray can hit. *)
Definition Scene : Type := Vector3 -> Vector3 -> Q -> list Q.

Record t : Type := mk {
  scene : Scene;
  levelBuilder : LevelBuilder.t;
  globalAlertState : AlertState;
  globalAlertLevel : Q;
  globalAlertDecayRate : Q;
  baseDetectionRange : Q;
  baseDetectionAngle : Q;
  detectionSpeed : AlertState -> Q;
  suspiciousThreshold : Q;
  alertedThreshold : Q;
  combatThreshold : Q;
  soundSources : list Sound.t
}.

Definition set_soundSources (v : list Sound.t) (ss : t) : t :=
  mk (scene ss) (levelBuilder ss) (globalAlertState ss) (globalAlertLevel ss)
     (globalAlertDecayRate ss) (baseDetectionRange ss) (baseDetectionAngle ss)
     (detectionSpeed ss) (suspiciousThreshold ss) (alertedThreshold ss)
     (combatThreshold ss) v.

Definition set_globalAlert (state : AlertState) (level : Q) (ss : t) : t :=
  mk (scene ss) (levelBuilder ss) state level
     (globalAlertDecayRate ss) (baseDetectionRange ss) (baseDetectionAngle ss)
     (detectionSpeed ss) (suspiciousThreshold ss) (alertedThreshold ss)
     (combatThreshold ss) (soundSources ss).

Definition defaultDetectionSpeed (s : AlertState) : Q :=
  match s with
  | IDLE => 0.5
  | SUSPICIOUS => 0.8
  | ALERTED => 1.2
  | COMBAT => 2.0
  end.

Definition new (scene : Scene) (levelBuilder : LevelBuilder.t) : t :=
  {| scene := scene; levelBuilder := levelBuilder;
     globalAlertState := IDLE; globalAlertLevel := 0;
     globalAlertDecayRate := 0.1;
     baseDetectionRange := 15; baseDetectionAngle := Math.PI / 3;
     detectionSpeed := defaultDetectionSpeed;
     suspiciousThreshold := 0.3; alertedThreshold := 0.7;
     combatThreshold := 1.0;
     soundSources := [] |}.

Definition getStateFromLevel (ss : t) (level : Q) : AlertState :=
  if Qgeb level (combatThreshold ss) then COMBAT
  else if Qgeb level (alertedThreshold ss) then ALERTED
  else if Qgeb level (suspiciousThreshold ss) then SUSPICIOUS
  else IDLE.

(** The loop of [updateGlobalAlert], started at [(IDLE, 0)]. *)
Fixpoint highestAlert (enemies : list EnemyAI.t)
    (highestState : AlertState) (highestLevel : Q) : AlertState * Q :=
  match enemies with
  | [] => (highestState, highestLevel)
  | enemy :: rest =>
      if Qgtb (EnemyAI.alertLevel enemy) highestLevel
      then highestAlert rest (EnemyAI.alertState enemy)
                        (EnemyAI.alertLevel enemy)
      else highestAlert rest highestState highestLevel
  end.

Definition updateGlobalAlert (enemies : list EnemyAI.t) (ss : t)
    : t * AlertState :=
  let '(highestState, highestLevel) := highestAlert enemies IDLE 0 in
  let ss := set_globalAlert highestState highestLevel ss in
  (ss, globalAlertState ss).

Fixpoint maxDetection (enemies : list EnemyAI.t) (acc : Q) : Q :=
  match enemies with
  | [] => acc
  | enemy :: rest =>
      if Qgtb (EnemyAI.alertLevel enemy) acc
      then maxDetection rest (EnemyAI.alertLevel enemy)
      else maxDetection rest acc
  end.

Definition getDetectionMeter (enemies : list EnemyAI.t) : Q :=
  Math.min 1 (maxDetection enemies 0).

Definition alertAllEnemies (ss : t) (enemies : list EnemyAI.t)
    (position : Vector3) (alertLevel : Q) : list EnemyAI.t :=
  map (fun enemy =>
         let enemy := EnemyAI.set_lastKnownPlayerPos (Some position) enemy in
         let enemy :=
           EnemyAI.set_alertLevel
             (Math.max (EnemyAI.alertLevel enemy) alertLevel) enemy in
         EnemyAI.set_alertState
           (getStateFromLevel ss (EnemyAI.alertLevel enemy)) enemy)
      enemies.

(** [registerSound] reads the clock twice: [created] stamps the new entry,
    [now] is the instant the old entries are measured against. *)
Definition registerSound (position : Vector3) (loudness : Q) (type : string)
    (created now : Z) (ss : t) : t :=
  let pushed :=
    soundSources ss
      ++ [ {| Sound.position := position; Sound.loudness := loudness;
              Sound.type := type; Sound.time := created;
              Sound.radius := loudness * 20 |} ] in
  set_soundSources
    (filter (fun s => (now - Sound.time s <? 3000)%Z) pushed) ss.

(** [Array.prototype.sort] is stable and takes a NaN from the comparator
    for 0; with the comparator [(a, b) => b.loudness - a.loudness] an entry
    ends up behind the later entries that are strictly louder and ahead of
    all other later ones.  When a NaN score stands among scores that
    differ, the comparator is not consistent and the standard leaves the
    order to the engine: the order below is then one of the possible ones,
    and the statements about the order say where they exclude the case. *)
Fixpoint insertByLoudness (h : Sound.heard) (sorted : list Sound.heard)
    : list Sound.heard :=
  match sorted with
  | [] => [h]
  | k :: rest =>
      if Sound.positive (Sound.minus (Sound.hloudness k) (Sound.hloudness h))
      then k :: insertByLoudness h rest
      else h :: sorted
  end.

Definition sortByLoudness (l : list Sound.heard) : list Sound.heard :=
  fold_right insertByLoudness [] l.

Section WithMath.
Context {M : MathLib}.

Definition hasLineOfSight (ss : t) (from to : Vector3) : bool :=
  let direction := THREE.normalize (THREE.subVectors to from) in
  let distance := THREE.distanceTo from to in
  let intersects := scene ss from direction distance in
  forallb (fun d => negb (Qltb d (distance - 0.1))) intersects.

Definition checkDetection (ss : t) (enemy : EnemyAI.t) (player : Player.t)
    (deltaTime : Q) : Q :=
  if negb (Player.isAlive player) then 0
  else
    let enemyPos := THREE.setY (EnemyAI.position enemy) 1 in
    let playerPos :=
      THREE.setY (Player.position player)
                 (if Player.isCrouching player then 0.5 else 1.2) in
    let distance := THREE.distanceTo enemyPos playerPos in
    if Qgtb distance (EnemyAI.detectionRange enemy) then 0
    else
      let dirToPlayer :=
        THREE.normalize (THREE.subVectors playerPos enemyPos) in
      let enemyForward :=
        vec3 (- sin (EnemyAI.rotation enemy)) 0
             (- cos (EnemyAI.rotation enemy)) in
      let angle := acos (THREE.dot dirToPlayer enemyForward) in
      if Qgtb angle (EnemyAI.detectionAngle enemy) then 0
      else if negb (hasLineOfSight ss enemyPos playerPos) then 0
      else
        let detectionRate := detectionSpeed ss (EnemyAI.alertState enemy) in
        let distanceModifier := 1 - distance / EnemyAI.detectionRange enemy in
        let detectionRate := detectionRate * (1 + distanceModifier) in
        let angleModifier := 1 - angle / EnemyAI.detectionAngle enemy in
        let detectionRate := detectionRate * (0.5 + angleModifier * 0.5) in
        let detectionRate :=
          detectionRate * Player.getVisibilityMultiplier player in
        let lightMod :=
          LevelBuilder.getLightingModifier (levelBuilder ss)
                                           (Player.position player) in
        let detectionRate := detectionRate * lightMod in
        detectionRate * deltaTime.

(** The body of the loop of [checkSoundDetection] for one entry.  An
    entry of radius 0 passes the distance test at the distance 0 only (a
    distance is not negative), where [distance / radius] is [0 / 0]. *)
Definition hear (now : Z) (enemy : EnemyAI.t) (sound : Sound.t)
    : option Sound.heard :=
  let age := (now - Sound.time sound)%Z in
  if (age >? 2000)%Z then None
  else
    let distance :=
      THREE.distanceTo (EnemyAI.position enemy) (Sound.position sound) in
    if Qgtb distance (Sound.radius sound) then None
    else
      let effectiveLoudness :=
        if Qeq_bool (Sound.radius sound) 0 then Sound.NaN
        else
          Sound.Finite
            (Sound.loudness sound * (1 - distance / Sound.radius sound)) in
      Some {| Sound.hposition := Sound.position sound;
              Sound.hloudness := effectiveLoudness;
              Sound.htype := Sound.type sound |}.

Fixpoint heardSounds (now : Z) (enemy : EnemyAI.t) (sources : list Sound.t)
    : list Sound.heard :=
  match sources with
  | [] => []
  | sound :: rest =>
      match hear now enemy sound with
      | Some h => h :: heardSounds now enemy rest
      | None => heardSounds now enemy rest
      end
  end.

Definition checkSoundDetection (ss : t) (now : Z) (enemy : EnemyAI.t)
    : option Sound.heard :=
  match sortByLoudness (heardSounds now enemy (soundSources ss)) with
  | [] => None
  | loudest :: _ => Some loudest
  end.

End WithMath.

End StealthSystem.

(** ** The sightline of [checkDetection]

    The values of its locals [enemyPos], [playerPos], [distance] and
    [angle], named so that statements can refer to them. *)

Section Sightline.
Context {M : MathLib}.

Definition enemyEye (enemy : EnemyAI.t) : Vector3 :=
  THREE.setY (EnemyAI.position enemy) 1.

Definition playerEye (player : Player.t) : Vector3 :=
  THREE.setY (Player.position player)
             (if Player.isCrouching player then 0.5 else 1.2).

Definition sightDistance (enemy : EnemyAI.t) (player : Player.t) : Q :=
  THREE.distanceTo (enemyEye enemy) (playerEye player).

Definition sightAngle (enemy : EnemyAI.t) (player : Player.t) : Q :=
  acos (THREE.dot
          (THREE.normalize
             (THREE.subVectors (playerEye player) (enemyEye enemy)))
          (vec3 (- sin (EnemyAI.rotation enemy)) 0
                (- cos (EnemyAI.rotation enemy)))).

(** The hits that [hasLineOfSight] inspects on that sightline. *)
Definition sightHits (ss : StealthSystem.t) (enemy : EnemyAI.t)
    (player : Player.t) : list Q :=
  StealthSystem.scene ss (enemyEye enemy)
    (THREE.normalize (THREE.subVectors (playerEye player) (enemyEye enemy)))
    (sightDistance enemy player).

End Sightline.

(** ** The per-tick update of one agent ([EnemyAI.update]) *)

(** Everything one call of [update] reads besides the agent itself:
    its arguments, the clock (every [Date.now()] of the call reads the
    same millisecond) and the value [Math.random()] draws in [shoot]. *)
Record Tick : Type := mkTick {
  deltaTime : Q;
  player : Player.t;
  stealthSystem : StealthSystem.t;
  colliders : list Collider;
  now : Z;
  rnd : Q
}.

Section WithMath.
Context {M : MathLib}.

(** "Decay alert level" *)
Definition decayAlert (deltaTime : Q) (e : EnemyAI.t) : EnemyAI.t :=
  if Qgtb (EnemyAI.alertLevel e) 0
     && negb (AlertState_eqb (EnemyAI.alertState e) COMBAT)
  then
    let e :=
      EnemyAI.set_alertLevel
        (EnemyAI.alertLevel e - EnemyAI.alertDecayRate e * deltaTime) e in
    if Qltb (EnemyAI.alertLevel e) 0 then EnemyAI.set_alertLevel 0 e else e
  else e.

(** "Check for player detection" *)
Definition senseSight (k : Tick) (e : EnemyAI.t) : EnemyAI.t :=
  let detectionAmount :=
    StealthSystem.checkDetection (stealthSystem k) e (player k) (deltaTime k) in
  if Qgtb detectionAmount 0 then
    let e :=
      EnemyAI.set_alertLevel (EnemyAI.alertLevel e + detectionAmount) e in
    EnemyAI.set_lastKnownPlayerPos (Some (Player.position (player k))) e
  else e.

(** "Check for sounds" *)
Definition senseSound (k : Tick) (e : EnemyAI.t) : EnemyAI.t :=
  match StealthSystem.checkSoundDetection (stealthSystem k) (now k) e with
  | Some sound =>
      if String.eqb (Sound.htype sound) "gunshot" then
        let e :=
          EnemyAI.set_alertLevel (Math.max (EnemyAI.alertLevel e) 0.5) e in
        match EnemyAI.lastKnownPlayerPos e with
        | None =>
            EnemyAI.set_lastKnownPlayerPos (Some (Sound.hposition sound)) e
        | Some _ => e
        end
      else e
  | None => e
  end.

(** "Update alert state" *)
Definition refreshState (k : Tick) (e : EnemyAI.t) : EnemyAI.t :=
  EnemyAI.set_alertState
    (StealthSystem.getStateFromLevel (stealthSystem k) (EnemyAI.alertLevel e))
    e.

(** "Execute behavior based on state" *)
Definition behave (k : Tick) (e : EnemyAI.t) : option (EnemyAI.t * Player.t) :=
  match EnemyAI.alertState e with
  | IDLE =>
      option_map (fun e => (e, player k))
                 (EnemyAI.patrol (deltaTime k) (colliders k) (now k) e)
  | SUSPICIOUS =>
      option_map (fun e => (e, player k))
                 (EnemyAI.investigate (deltaTime k) (colliders k) (now k) e)
  | ALERTED =>
      Some (EnemyAI.search (deltaTime k) (player k) (colliders k) e, player k)
  | COMBAT =>
      Some (EnemyAI.combat (deltaTime k) (player k) (colliders k) (rnd k) e)
  end.

(** "Update cooldowns" *)
Definition coolDown (deltaTime : Q) (e : EnemyAI.t) : EnemyAI.t :=
  if Qgtb (EnemyAI.shootCooldown e) 0
  then EnemyAI.set_shootCooldown (EnemyAI.shootCooldown e - deltaTime) e
  else e.

(** The state of the agent when the behaviour is picked. *)
Definition perceive (k : Tick) (e : EnemyAI.t) : EnemyAI.t :=
  refreshState k (senseSound k (senseSight k (decayAlert (deltaTime k) e))).

(** [update] gives the agent and the player as the call leaves them, or
    [None] when the call throws. *)
Definition update (k : Tick) (e : EnemyAI.t) : option (EnemyAI.t * Player.t) :=
  if negb (EnemyAI.isAlive e) then Some (e, player k)
  else
    match behave k (perceive k e) with
    | Some (e, p) => Some (coolDown (deltaTime k) e, p)
    | None => None
    end.

(** A run of one agent through successive ticks. *)
Fixpoint run (ticks : list Tick) (e : EnemyAI.t) : option EnemyAI.t :=
  match ticks with
  | [] => Some e
  | k :: later =>
      match update k e with
      | Some (e', _) => run later e'
      | None => None
      end
  end.

End WithMath.

(** ** A rational [Math] for running the model

    Square roots are exact on squares of rationals and rounded down to
    [2^-32] of the denominator otherwise; the trigonometric functions are
    truncated series.  Only the closed examples below use it. *)

Module RationalMath.

Definition sqrt (q : Q) : Q :=
  let q := Qred q in
  let d := Z.pos (Qden q) in
  Qred (Z.sqrt (Qnum q * d * 2 ^ 64) # (Qden q * 2 ^ 32)).

(** The representative of [a] in [[-PI, PI]] modulo a full turn. *)
Definition reduce (a : Q) : Q :=
  Qred (a - inject_Z (Qfloor (a / (Math.PI * 2) + (1 # 2))) * (Math.PI * 2)).

Definition sin (a : Q) : Q :=
  let a := reduce a in
  let a2 := Qred (a * a) in
  Qred (a * (1 - a2 / 6 * (1 - a2 / 20 * (1 - a2 / 42 * (1 - a2 / 72))))).

Definition cos (a : Q) : Q :=
  let a := reduce a in
  let a2 := Qred (a * a) in
  Qred (1 - a2 / 2 * (1 - a2 / 12 * (1 - a2 / 30 * (1 - a2 / 56)))).

Definition asin (c : Q) : Q :=
  let c2 := Qred (c * c) in
  Qred (c * (1 + c2 * (1 # 6) + c2 * c2 * (3 # 40)
              + c2 * c2 * c2 * (15 # 336))).

Definition acos (c : Q) : Q := Qred (Math.PI / 2 - asin c).

Definition atan (t : Q) : Q :=
  if Qle_bool (Qabs t) 1 then Qred (t / (1 + (9 # 32) * t * t))
  else
    let near := Qred (t / (t * t + (9 # 32))) in
    if Qle_bool 0 t then Qred (Math.PI / 2 - near)
    else Qred (- (Math.PI / 2) - near).

Definition atan2 (b a : Q) : Q :=
  if Qltb 0 a then atan (b / a)
  else if Qltb a 0 then
    if Qle_bool 0 b then Qred (atan (b / a) + Math.PI)
    else Qred (atan (b / a) - Math.PI)
  else if Qltb 0 b then Math.PI / 2
  else if Qltb b 0 then - (Math.PI / 2)
  else 0.

End RationalMath.

#[export] Instance rationalMath : MathLib := {|
  sqrt := RationalMath.sqrt;
  sin := RationalMath.sin;
  cos := RationalMath.cos;
  acos := RationalMath.acos;
  atan2 := RationalMath.atan2
|}.

(** The three places where a behaviour mode assigns [alertLevel]. *)
Inductive LevelWrite (k : Tick) (e e' : EnemyAI.t) : Prop :=
| GiveUp (seen : Vector3) :
    EnemyAI.alertState e = SUSPICIOUS ->
    EnemyAI.lastKnownPlayerPos e = Some seen ->
    EnemyAI.investigateDuration e < EnemyAI.investigateTime e + deltaTime k ->
    EnemyAI.alertLevel e' = 0 -> EnemyAI.lastKnownPlayerPos e' = None ->
    LevelWrite k e e'
| SearchTimeout :
    EnemyAI.alertState e = ALERTED ->
    10 < EnemyAI.searchTime e + deltaTime k ->
    EnemyAI.alertLevel e' = EnemyAI.alertLevel e - 0.3 ->
    EnemyAI.lastKnownPlayerPos e' = EnemyAI.lastKnownPlayerPos e ->
    LevelWrite k e e'
| TargetLost :
    EnemyAI.alertState e = COMBAT ->
    Player.isAlive (player k) = false ->
    EnemyAI.alertLevel e' = 0.5 ->
    EnemyAI.lastKnownPlayerPos e' = EnemyAI.lastKnownPlayerPos e ->
    LevelWrite k e e'.

(** ** The global alert as the specification words it

    "The agent with the highest alert level among the agents whose alive
    flag is true, the first one encountered on a tie": kept apart from
    [StealthSystem.updateGlobalAlert] to compare the two. *)

Fixpoint firstHighest (agents : list EnemyAI.t) : option EnemyAI.t :=
  match agents with
  | [] => None
  | a :: rest =>
      match firstHighest rest with
      | None => Some a
      | Some b =>
          if Qltb (EnemyAI.alertLevel a) (EnemyAI.alertLevel b)
          then Some b else Some a
      end
  end.

Definition aggregateOverLive (agents : list EnemyAI.t)
    : option (AlertState * Q) :=
  option_map (fun a => (EnemyAI.alertState a, EnemyAI.alertLevel a))
             (firstHighest (filter EnemyAI.isAlive agents)).

(** ** Invariants of the constructors *)

(** The patrol cursor points into the route (the constructor starts it at
    0 and [patrol] advances it modulo the length of the route). *)
Definition cursorInRoute (e : EnemyAI.t) : Prop :=
  EnemyAI.patrolRoute e = []
  \/ (EnemyAI.currentPatrolIndex e < List.length (EnemyAI.patrolRoute e))%nat.

(** The thresholds the constructor of [StealthSystem] installs; nothing
    assigns them afterwards. *)
Definition defaultThresholds (ss : StealthSystem.t) : Prop :=
  StealthSystem.suspiciousThreshold ss = 0.3
  /\ StealthSystem.alertedThreshold ss = 0.7
  /\ StealthSystem.combatThreshold ss = 1.0.

(** The order of two scores, which only numbers stand in. *)
Definition quieter (a b : Sound.Score) : Prop :=
  match a, b with
  | Sound.Finite x, Sound.Finite y => x < y
  | _, _ => False
  end.

Definition notLouder (a b : Sound.Score) : Prop :=
  match a, b with
  | Sound.Finite x, Sound.Finite y => x <= y
  | _, _ => False
  end.

Section Scores.
Context {M : MathLib}.

(** Every sound the listener hears has a number for its score: none of
    them has the radius 0. *)
Definition scoresAreNumbers (now : Z) (enemy : EnemyAI.t)
    (sources : list Sound.t) : Prop :=
  forall s h,
    In s sources -> StealthSystem.hear now enemy s = Some h ->
    Sound.hloudness h <> Sound.NaN.

End Scores.

(** ** Scenes used by the closed examples *)

Module Scenario.

Definition origin : Vector3 := vec3 0 0 0.

(** A level without walls, lights or sounds. *)
Definition openScene : StealthSystem.Scene := fun _ _ _ => [].
Definition plainLevel : LevelBuilder.t := LevelBuilder.mk [] [].
Definition quiet : StealthSystem.t := StealthSystem.new openScene plainLevel.

Definition guard : EnemyAI.t := EnemyAI.new 1 origin [] false.
Definition target : EnemyAI.t := EnemyAI.new 2 origin [] true.

(** The player, alive and standing still at [p]. *)
Definition playerAt (p : Vector3) : Player.t :=
  Player.mk p true false false false 100.

(** A dead player, as after [Player.die]. *)
Definition fallenPlayer : Player.t := Player.die (playerAt (vec3 0 0 (-5))).

(** Scenario D: the target, health 50, takes a headshot of 40. *)
Definition shotTarget : EnemyAI.t * bool := EnemyAI.takeDamage 40 true target.

(** A guard wounded in a fire fight and then killed. *)
Definition woundedGuard : EnemyAI.t := fst (EnemyAI.takeDamage 30 false guard).
Definition killedGuard : EnemyAI.t :=
  fst (EnemyAI.takeDamage 40 true woundedGuard).

(** One tick of a tenth of a second in the quiet level. *)
Definition calmTick (p : Player.t) : Tick :=
  mkTick 0.1 p quiet [] 1000 (1 # 2).

(** The player crouching at [p]. *)
Definition crouchingAt (p : Vector3) : Player.t :=
  Player.mk p true true false false 100.

(** Two crouching players seen under the same angle (cosine 15/17) from
    the origin, at eye distances 17/16 and 289/128. *)
Definition nearCrouch : Player.t := crouchingAt (vec3 0 0 (- (15 # 16))).
Definition farCrouch : Player.t :=
  crouchingAt (vec3 (15 # 16) 0 (- (255 # 128))).

(** A guard whose detection range is exactly the eye distance to
    [nearCrouch]. *)
Definition shortSighted : EnemyAI.t :=
  match guard with
  | EnemyAI.mk a1 a2 a3 a4 a5 a6 a7 a8 _ a10 a11 a12 a13 a14 a15 a16 a17 a18
               a19 a20 a21 a22 a23 a24 a25 a26 a27 a28 a29 a30 a31 a32 =>
      EnemyAI.mk a1 a2 a3 a4 a5 a6 a7 a8 (17 # 16) a10 a11 a12 a13 a14 a15 a16
                 a17 a18 a19 a20 a21 a22 a23 a24 a25 a26 a27 a28 a29 a30 a31
                 a32
  end.

(** A wall 2 units in front of every observer, and a screen right before
    the observer's eyes. *)
Definition walledScene : StealthSystem.Scene := fun _ _ _ => [2].
Definition walled : StealthSystem.t := StealthSystem.new walledScene plainLevel.
Definition screenedScene : StealthSystem.Scene := fun _ _ _ => [0].
Definition screened : StealthSystem.t :=
  StealthSystem.new screenedScene plainLevel.

(** Ticks with the player standing 5 units ahead of the guard, in plain
    view, and a tick after the player has died. *)
Definition inView : Player.t := playerAt (vec3 0 0 (-5)).
Definition watchTick : Tick := calmTick inView.
Definition watchTicks : list Tick := [watchTick; watchTick].
Definition lostTick : Tick := calmTick fallenPlayer.

(** A guard told of a position by [alertAllEnemies] with the default
    level 0.5. *)
Definition toldGuard : EnemyAI.t :=
  hd guard (StealthSystem.alertAllEnemies quiet [guard] (vec3 0 0 (-5)) 0.5).

(** The array of agents after a fire fight: the killed guard stays in it. *)
Definition aftermath : list EnemyAI.t := [killedGuard; toldGuard].

(** Scenario B: an unsuppressed gunshot fired at time 0, 15 units to the
    right of the guard. *)
Definition gunshot : StealthSystem.t :=
  StealthSystem.registerSound (vec3 15 0 0) 1 "gunshot" 0 0 quiet.

(** A guard that has been told of a position 5 units ahead, is suspicious
    and has been investigating for 4.95 seconds. *)
Definition lingeringGuard : EnemyAI.t :=
  EnemyAI.set_investigateTime 4.95 toldGuard.

(** What that guard and the wounded one have perceived when the behaviour
    of the tick after the player's death is picked. *)
Definition investigating : EnemyAI.t := perceive lostTick lingeringGuard.
Definition fighting : EnemyAI.t := perceive lostTick woundedGuard.

End Scenario.

(** ** Further parts of the engine *)

(** The alert states in the order of the thresholds. *)
Definition severity (s : AlertState) : nat :=
  match s with
  | IDLE => 0
  | SUSPICIOUS => 1
  | ALERTED => 2
  | COMBAT => 3
  end.

(** A cover object as [StealthSystem.isInCover] reads it. *)
Module Cover.
Record t : Type := mk { position : Vector3; height : Q }.
End Cover.

Section InCover.
Context {M : MathLib}.

(** The body of the loop of [isInCover] for one cover object. *)
Definition hidesBehind (position viewerPosition : Vector3) (cover : Cover.t)
    : bool :=
  let direction :=
    THREE.normalize (THREE.subVectors position viewerPosition) in
  let distance := THREE.distanceTo position viewerPosition in
  let coverDist := THREE.distanceTo viewerPosition (Cover.position cover) in
  if Qgtb coverDist distance then false
  else
    let toCover :=
      THREE.normalize
        (THREE.subVectors (Cover.position cover) viewerPosition) in
    let dot := THREE.dot direction toCover in
    if Qgtb dot 0.8 && Qltb coverDist distance then
      if Qltb (THREE.y position)
              (Cover.height cover + THREE.y (Cover.position cover))
      then true else false
    else false.

Definition isInCover (position viewerPosition : Vector3)
    (coverObjects : list Cover.t) : bool :=
  existsb (hidesBehind position viewerPosition) coverObjects.

End InCover.

(** What happens to one agent between two frames: a tick of the game loop
    or a bullet of the player. *)
Inductive Event : Type :=
| Ticked (k : Tick)
| Shot (amount : Q) (isHeadshot : bool).

Section Lives.
Context {M : MathLib}.

Fixpoint live (events : list Event) (e : EnemyAI.t) : option EnemyAI.t :=
  match events with
  | [] => Some e
  | Ticked k :: later =>
      match update k e with
      | Some (e', _) => live later e'
      | None => None
      end
  | Shot amount isHeadshot :: later =>
      live later (fst (EnemyAI.takeDamage amount isHeadshot e))
  end.

(** The agent loop of [updateGame] in [main.js]: the living agents are
    updated in array order, each seeing the player as the agents before it
    left it.  [draws] holds, agent by agent, the value [Math.random()]
    returns if that agent shoots ([rnd k] once the list is used up). *)
Fixpoint updateEnemies (k : Tick) (draws : list Q) (enemies : list EnemyAI.t)
    : option (list EnemyAI.t * Player.t) :=
  match enemies with
  | [] => Some ([], player k)
  | enemy :: rest =>
      let mine :=
        mkTick (deltaTime k) (player k) (stealthSystem k) (colliders k)
               (now k) (hd (rnd k) draws) in
      let step :=
        if EnemyAI.isAlive enemy then update mine enemy
        else Some (enemy, player k) in
      match step with
      | None => None
      | Some (enemy', p) =>
          let next :=
            mkTick (deltaTime k) p (stealthSystem k) (colliders k) (now k)
                   (rnd k) in
          match updateEnemies next (tl draws) rest with
          | None => None
          | Some (rest', p') => Some (enemy' :: rest', p')
          end
      end
  end.

End Lives.

(** The fields of an agent that only the constructor and [takeDamage]
    assign. *)
Definition fixedFields (e : EnemyAI.t) :=
  (EnemyAI.id e, EnemyAI.isTarget e, EnemyAI.patrolRoute e,
   EnemyAI.patrolWaitDuration e, EnemyAI.detectionRange e,
   EnemyAI.detectionAngle e, EnemyAI.alertDecayRate e, EnemyAI.health e,
   EnemyAI.maxHealth e, EnemyAI.isAlive e, EnemyAI.shootInterval e,
   EnemyAI.shootRange e, EnemyAI.damage e, EnemyAI.accuracy e,
   EnemyAI.investigateDuration e, EnemyAI.lostPlayerTime e,
   EnemyAI.walkSpeed e, EnemyAI.runSpeed e, EnemyAI.turnSpeed e,
   EnemyAI.inCover e, EnemyAI.coverPosition e).

(** The damage the living agents other than the target can deal to the
    player in one frame, one shot each. *)
Definition firepower (enemies : list EnemyAI.t) : Q :=
  fold_right
    (fun e total =>
       if EnemyAI.isAlive e && negb (EnemyAI.isTarget e)
       then EnemyAI.damage e + total else total)
    0 enemies.

(** ** Further scenes *)

Module Cases.

(** A gunshot 15 units to the right of the guard, and a louder footstep
    next to it registered afterwards. *)
Definition masked : StealthSystem.t :=
  StealthSystem.registerSound (vec3 1 0 0) 1 "footstep" 0 0 Scenario.gunshot.
Definition maskedTick : Tick :=
  mkTick 0.1 Scenario.fallenPlayer masked [] 1000 (1 # 2).

(** A footstep of loudness 0 at the guard's own place, and the gunshot 15
    units to its right registered after it. *)
Definition hushed : StealthSystem.t :=
  StealthSystem.registerSound
    (vec3 15 0 0) 1 "gunshot" 0 0
    (StealthSystem.registerSound Scenario.origin 0 "footstep" 0 0
                                 Scenario.quiet).

(** A guard on a two-point route whose cursor has been put outside it. *)
Definition beat : list Vector3 := [vec3 0 0 0; vec3 4 0 0].
Definition strayCursor : EnemyAI.t :=
  EnemyAI.set_currentPatrolIndex 5 (EnemyAI.new 3 Scenario.origin beat false).

(** What one agent lives through: it is seen, wounded and then killed. *)
Definition ordeal : list Event :=
  [Ticked Scenario.watchTick; Shot 30 false; Ticked Scenario.watchTick;
   Shot 40 true; Ticked Scenario.lostTick].

(** The guard and the target standing side by side. *)
Definition squad : list EnemyAI.t := [Scenario.guard; Scenario.target].

End Cases.

(** The timers of an agent are within the limits the behaviours test them
    against. *)
Definition timersInRange (e : EnemyAI.t) : Prop :=
  EnemyAI.searchTime e <= 10
  /\ EnemyAI.investigateTime e <= EnemyAI.investigateDuration e
  /\ EnemyAI.coverTime e <= 4
  /\ EnemyAI.shootCooldown e <= EnemyAI.shootInterval e
  /\ EnemyAI.patrolWaitTime e <= EnemyAI.patrolWaitDuration e.

(** The player with another gait, everything else equal. *)
Definition withGait (isRunning isMoving : bool) (p : Player.t) : Player.t :=
  Player.mk (Player.position p) (Player.isAlive p) (Player.isCrouching p)
            isRunning isMoving (Player.health p).

(** ** The player's weapons ([WeaponSystem.js])

    Ammunition counts are integers.  Muzzle flashes, bullet trails, impact
    markers, the audio and the camera recoil are not part of the model. *)

Module Weapon.

Record t : Type := mk {
  name : string;
  damage : Q;
  headshotMultiplier : Q;
  fireRate : Q;
  magSize : Z;
  reserveAmmo : Z;
  currentAmmo : Z;
  suppressed : bool;
  reloadTime : Q;
  spread : Q;
  range : Q
}.

Definition set_currentAmmo (v : Z) (w : t) : t :=
  mk (name w) (damage w) (headshotMultiplier w) (fireRate w) (magSize w)
     (reserveAmmo w) v (suppressed w) (reloadTime w) (spread w) (range w).

Definition set_reserveAmmo (v : Z) (w : t) : t :=
  mk (name w) (damage w) (headshotMultiplier w) (fireRate w) (magSize w)
     v (currentAmmo w) (suppressed w) (reloadTime w) (spread w) (range w).

End Weapon.

(** What the raycaster reports as the first object on the bullet's path:
    a mesh of an agent, with the [userData] the hit handler reads, or
    anything else. *)
Inductive Intersection : Type :=
| EnemyMesh (enemyId : nat) (isHead : bool)
| Scenery.

Module WeaponSystem.

Record t : Type := mk {
  weapons : list Weapon.t;
  currentWeaponIndex : nat;
  fireCooldown : Q;
  isReloading : bool;
  reloadProgress : Q;
  shotsFired : Z
}.

(** The object [handleEnemyHit] returns; [enemy] is the agent as the hit
    left it. *)
Record HitReport : Type := mkReport {
  enemy : EnemyAI.t;
  killed : bool;
  isHeadshot : bool;
  damage : Q
}.

Definition silencedPistol : Weapon.t :=
  {| Weapon.name := "Silenced Pistol"; Weapon.damage := 35;
     Weapon.headshotMultiplier := 3; Weapon.fireRate := 0.3;
     Weapon.magSize := 12; Weapon.reserveAmmo := 48; Weapon.currentAmmo := 12;
     Weapon.suppressed := true; Weapon.reloadTime := 1.5;
     Weapon.spread := 0.02; Weapon.range := 50 |}.

Definition pistol : Weapon.t :=
  {| Weapon.name := "Pistol"; Weapon.damage := 45;
     Weapon.headshotMultiplier := 2.5; Weapon.fireRate := 0.2;
     Weapon.magSize := 15; Weapon.reserveAmmo := 60; Weapon.currentAmmo := 15;
     Weapon.suppressed := false; Weapon.reloadTime := 1.2;
     Weapon.spread := 0.03; Weapon.range := 40 |}.

Definition new : t :=
  {| weapons := [silencedPistol; pistol]; currentWeaponIndex := 0%nat;
     fireCooldown := 0; isReloading := false; reloadProgress := 0;
     shotsFired := 0%Z |}.

(** [weapons[currentWeaponIndex]]; [None] is [undefined]. *)
Definition getCurrentWeapon (ws : t) : option Weapon.t :=
  nth_error (weapons ws) (currentWeaponIndex ws).

(** An assignment to a field of the current weapon object, which the
    array shares. *)
Fixpoint assign (index : nat) (w : Weapon.t) (l : list Weapon.t)
    : list Weapon.t :=
  match l, index with
  | [], _ => []
  | _ :: rest, O => w :: rest
  | first :: rest, S index' => first :: assign index' w rest
  end.

Definition set_currentWeapon (w : Weapon.t) (ws : t) : t :=
  mk (assign (currentWeaponIndex ws) w (weapons ws)) (currentWeaponIndex ws)
     (fireCooldown ws) (isReloading ws) (reloadProgress ws) (shotsFired ws).

(** The index is a key digit minus one, so [index >= 0] holds. *)
Definition switchWeapon (index : nat) (ws : t) : t :=
  if (index <? List.length (weapons ws))%nat
     && negb (Nat.eqb index (currentWeaponIndex ws))
  then mk (weapons ws) index (fireCooldown ws) false 0 (shotsFired ws)
  else ws.

(** [reload] and the calls below give [None] when they throw, which they
    do on reading a field of an [undefined] weapon. *)
Definition reload (ws : t) : option t :=
  if isReloading ws then Some ws
  else
    match getCurrentWeapon ws with
    | None => None
    | Some weapon =>
        if (Weapon.currentAmmo weapon =? Weapon.magSize weapon)%Z then Some ws
        else if (Weapon.reserveAmmo weapon <=? 0)%Z then Some ws
        else
          Some (mk (weapons ws) (currentWeaponIndex ws) (fireCooldown ws)
                   true 0 (shotsFired ws))
    end.

(** [enemies.find(e => e.id === enemyId)] followed by [takeDamage] on the
    agent found: the first agent with the id is hit in place. *)
Fixpoint hitFirst (enemyId : nat) (amount : Q) (isHeadshot : bool)
    (enemies : list EnemyAI.t) : list EnemyAI.t * option (EnemyAI.t * bool) :=
  match enemies with
  | [] => ([], None)
  | e :: rest =>
      if Nat.eqb (EnemyAI.id e) enemyId then
        let (e', killed) := EnemyAI.takeDamage amount isHeadshot e in
        (e' :: rest, Some (e', killed))
      else
        let (rest', found) := hitFirst enemyId amount isHeadshot rest in
        (e :: rest', found)
  end.

Definition handleEnemyHit (enemyId : nat) (isHeadshot : bool)
    (weapon : Weapon.t) (enemies : list EnemyAI.t)
    : list EnemyAI.t * option HitReport :=
  let damage :=
    if isHeadshot
    then Weapon.damage weapon * Weapon.headshotMultiplier weapon
    else Weapon.damage weapon in
  match hitFirst enemyId damage isHeadshot enemies with
  | (enemies', Some (enemy, killed)) =>
      (enemies', Some (mkReport enemy killed isHeadshot damage))
  | (enemies', None) => (enemies', None)
  end.

(** [ray] is [intersects[0]], if the ray meets anything within the
    weapon's range. *)
Definition performRaycast (ray : option Intersection) (weapon : Weapon.t)
    (enemies : list EnemyAI.t) : list EnemyAI.t * option HitReport :=
  match ray with
  | Some (EnemyMesh enemyId isHead) =>
      handleEnemyHit enemyId isHead weapon enemies
  | Some Scenery => (enemies, None)
  | None => (enemies, None)
  end.

(** The game as [shoot] touches it. *)
Record World : Type := mkWorld {
  arms : t;
  stealth : StealthSystem.t;
  enemies : list EnemyAI.t
}.

(** [created] and [now] are the two readings of the clock in
    [registerSound]. *)
Definition shoot (player : Player.t) (created now : Z)
    (ray : option Intersection) (w : World)
    : option (World * option HitReport) :=
  let ws := arms w in
  if negb (Player.isAlive player) then Some (w, None)
  else if Qgtb (fireCooldown ws) 0 then Some (w, None)
  else if isReloading ws then Some (w, None)
  else
    match getCurrentWeapon ws with
    | None => None
    | Some weapon =>
        if (Weapon.currentAmmo weapon <=? 0)%Z then
          match reload ws with
          | Some ws => Some (mkWorld ws (stealth w) (enemies w), None)
          | None => None
          end
        else
          let weapon :=
            Weapon.set_currentAmmo (Weapon.currentAmmo weapon - 1) weapon in
          let ws := set_currentWeapon weapon ws in
          let ws :=
            mk (weapons ws) (currentWeaponIndex ws) (Weapon.fireRate weapon)
               (isReloading ws) (reloadProgress ws) (shotsFired ws + 1) in
          let loudness := if Weapon.suppressed weapon then 0.3 else 1.0 in
          let ss :=
            StealthSystem.registerSound (Player.position player) loudness
                                        "gunshot" created now (stealth w) in
          let (enemies', hit) := performRaycast ray weapon (enemies w) in
          Some (mkWorld ws ss enemies', hit)
    end.

Definition update (deltaTime : Q) (ws : t) : option t :=
  let ws :=
    if Qgtb (fireCooldown ws) 0
    then mk (weapons ws) (currentWeaponIndex ws) (fireCooldown ws - deltaTime)
            (isReloading ws) (reloadProgress ws) (shotsFired ws)
    else ws in
  if isReloading ws then
    match getCurrentWeapon ws with
    | None => None
    | Some weapon =>
        let progress :=
          reloadProgress ws + deltaTime / Weapon.reloadTime weapon in
        if Qgeb progress 1 then
          let ammoNeeded :=
            (Weapon.magSize weapon - Weapon.currentAmmo weapon)%Z in
          let ammoToAdd := Z.min ammoNeeded (Weapon.reserveAmmo weapon) in
          let weapon :=
            Weapon.set_currentAmmo (Weapon.currentAmmo weapon + ammoToAdd)
                                   weapon in
          let weapon :=
            Weapon.set_reserveAmmo (Weapon.reserveAmmo weapon - ammoToAdd)
                                   weapon in
          let ws := set_currentWeapon weapon ws in
          Some (mk (weapons ws) (currentWeaponIndex ws) (fireCooldown ws)
                   false 0 (shotsFired ws))
        else
          Some (mk (weapons ws) (currentWeaponIndex ws) (fireCooldown ws)
                   (isReloading ws) progress (shotsFired ws))
    end
  else Some ws.

Definition addAmmo (amount : Z) (ws : t) : option t :=
  match getCurrentWeapon ws with
  | None => None
  | Some weapon =>
      Some (set_currentWeapon
              (Weapon.set_reserveAmmo (Weapon.reserveAmmo weapon + amount)
                                      weapon) ws)
  end.

Definition getShotsFired (ws : t) : Z := shotsFired ws.

End WeaponSystem.

(** What the player's input and the game loop do to the weapons. *)
Inductive Handling : Type :=
| Trigger (player : Player.t) (created now : Z) (ray : option Intersection)
| ReloadKey
| DigitKey (index : nat)
| Frame (deltaTime : Q).

Definition handle (h : Handling) (w : WeaponSystem.World)
    : option WeaponSystem.World :=
  match h with
  | Trigger player created now ray =>
      option_map fst (WeaponSystem.shoot player created now ray w)
  | ReloadKey =>
      option_map
        (fun ws => WeaponSystem.mkWorld ws (WeaponSystem.stealth w)
                                        (WeaponSystem.enemies w))
        (WeaponSystem.reload (WeaponSystem.arms w))
  | DigitKey index =>
      Some (WeaponSystem.mkWorld
              (WeaponSystem.switchWeapon index (WeaponSystem.arms w))
              (WeaponSystem.stealth w) (WeaponSystem.enemies w))
  | Frame deltaTime =>
      option_map
        (fun ws => WeaponSystem.mkWorld ws (WeaponSystem.stealth w)
                                        (WeaponSystem.enemies w))
        (WeaponSystem.update deltaTime (WeaponSystem.arms w))
  end.

Fixpoint handleAll (hs : list Handling) (w : WeaponSystem.World)
    : option WeaponSystem.World :=
  match hs with
  | [] => Some w
  | h :: later =>
      match handle h w with
      | Some w' => handleAll later w'
      | None => None
      end
  end.

(** The rounds the player carries, in the magazines and in reserve. *)
Definition roundsOf (l : list Weapon.t) : Z :=
  fold_right
    (fun w total => (Weapon.currentAmmo w + Weapon.reserveAmmo w + total)%Z)
    0%Z l.

Definition rounds (ws : WeaponSystem.t) : Z :=
  roundsOf (WeaponSystem.weapons ws).

(** A magazine holds between 0 and [magSize] rounds and the reserve is
    not negative. *)
Definition ammoInOrder (w : Weapon.t) : Prop :=
  (0 <= Weapon.currentAmmo w <= Weapon.magSize w)%Z
  /\ (0 <= Weapon.reserveAmmo w)%Z.

(** Every weapon is in order and the current weapon exists. *)
Definition armsInOrder (ws : WeaponSystem.t) : Prop :=
  Forall ammoInOrder (WeaponSystem.weapons ws)
  /\ (WeaponSystem.currentWeaponIndex ws
      < List.length (WeaponSystem.weapons ws))%nat.

(** The weapons are in order and no round has appeared or vanished. *)
Definition kept (ws ws' : WeaponSystem.t) : Prop :=
  armsInOrder ws'
  /\ (rounds ws' + WeaponSystem.shotsFired ws'
      = rounds ws + WeaponSystem.shotsFired ws)%Z.

(** ** Scenes with weapons *)

Module Range.

(** The game right after set-up: the constructor's weapons, a quiet level,
    a guard and the target. *)
Definition start : WeaponSystem.World :=
  WeaponSystem.mkWorld WeaponSystem.new Scenario.quiet Cases.squad.

(** A headshot on the guard. *)
Definition headshot : Handling :=
  Trigger Scenario.inView 0 0 (Some (EnemyMesh 1 true)).

(** A shot, a second pull of the trigger before the cooldown is over, a
    reload, a change of weapon and a shot into the air. *)
Definition drill : list Handling :=
  [headshot; headshot; Frame 0.5; ReloadKey; Frame 2; DigitKey 1;
   Trigger Scenario.inView 3000 3000 None; Frame 0.1].

End Range.

(** ** Game flow ([GameStateManager.js])

    The listeners registered on the manager only drive the interface and
    the audio; they are not part of the model. *)

Inductive GameState : Type :=
| LOADING | MENU | PLAYING | PAUSED
| TARGET_ELIMINATED | ESCAPE | MISSION_COMPLETE | GAME_OVER.

Definition GameState_eqb (a b : GameState) : bool :=
  match a, b with
  | LOADING, LOADING | MENU, MENU | PLAYING, PLAYING | PAUSED, PAUSED => true
  | TARGET_ELIMINATED, TARGET_ELIMINATED | ESCAPE, ESCAPE => true
  | MISSION_COMPLETE, MISSION_COMPLETE | GAME_OVER, GAME_OVER => true
  | _, _ => false
  end.

(** A field of [stateData] that starts out as a boolean: [+=] makes a
    number of it. *)
Inductive Flag : Type :=
| Bool (b : bool)
| Number (n : Z).

Definition truthy (f : Flag) : bool :=
  match f with
  | Bool b => b
  | Number n => negb (n =? 0)%Z
  end.

Definition toNumber (f : Flag) : Z :=
  match f with
  | Bool true => 1
  | Bool false => 0
  | Number n => n
  end.

Module GameStateManager.

Record StateData : Type := mkData {
  missionStartTime : Z;
  missionEndTime : Z;
  targetEliminated : Flag;
  playerDetected : Flag;
  enemiesKilled : Z;
  shotsFired : Z;
  timesDetected : Z;
  silentKill : Flag
}.

Record t : Type := mk {
  currentState : GameState;
  previousState : option GameState;
  stateData : StateData
}.

Definition freshData : StateData :=
  {| missionStartTime := 0; missionEndTime := 0;
     targetEliminated := Bool false; playerDetected := Bool false;
     enemiesKilled := 0; shotsFired := 0; timesDetected := 0;
     silentKill := Bool true |}.

Definition new : t :=
  {| currentState := LOADING; previousState := None;
     stateData := freshData |}.

Definition validTransitions (s : GameState) : list GameState :=
  match s with
  | LOADING => [MENU]
  | MENU => [PLAYING]
  | PLAYING => [TARGET_ELIMINATED; GAME_OVER; PAUSED]
  | PAUSED => [PLAYING; MENU]
  | TARGET_ELIMINATED => [ESCAPE; GAME_OVER]
  | ESCAPE => [MISSION_COMPLETE; GAME_OVER]
  | MISSION_COMPLETE => [MENU]
  | GAME_OVER => [MENU]
  end.

Definition getState (m : t) : GameState := currentState m.

Definition isState (state : GameState) (m : t) : bool :=
  GameState_eqb (currentState m) state.

Definition isPlaying (m : t) : bool :=
  GameState_eqb (currentState m) PLAYING
  || GameState_eqb (currentState m) TARGET_ELIMINATED
  || GameState_eqb (currentState m) ESCAPE.

(** The [data] argument of [setState] and [forceState]; [silent] is the
    only field ever read, [None] when it is [undefined]. *)
Record Data : Type := mkArg { silent : option bool }.

Definition noData : Data := mkArg None.

Definition set_stateData (d : StateData) (m : t) : t :=
  mk (currentState m) (previousState m) d.

(** [now] is what [Date.now()] returns. *)
Definition onStateEnter (state : GameState) (data : Data) (now : Z) (m : t)
    : t :=
  let d := stateData m in
  match state with
  | PLAYING =>
      set_stateData
        (mkData now (missionEndTime d) (targetEliminated d)
                (playerDetected d) (enemiesKilled d) (shotsFired d)
                (timesDetected d) (silentKill d)) m
  | TARGET_ELIMINATED =>
      set_stateData
        (mkData (missionStartTime d) (missionEndTime d) (Bool true)
                (playerDetected d) (enemiesKilled d) (shotsFired d)
                (timesDetected d)
                (match silent data with
                 | Some b => Bool b
                 | None => silentKill d
                 end)) m
  | MISSION_COMPLETE | GAME_OVER =>
      set_stateData
        (mkData (missionStartTime d) now (targetEliminated d)
                (playerDetected d) (enemiesKilled d) (shotsFired d)
                (timesDetected d) (silentKill d)) m
  | _ => m
  end.

Definition setState (newState : GameState) (data : Data) (now : Z) (m : t)
    : t * bool :=
  let allowedTransitions := validTransitions (currentState m) in
  if negb (existsb (GameState_eqb newState) allowedTransitions)
  then (m, false)
  else
    let m := mk newState (Some (currentState m)) (stateData m) in
    (onStateEnter newState data now m, true).

Definition forceState (newState : GameState) (data : Data) (now : Z) (m : t)
    : t * bool :=
  let m := mk newState (Some (currentState m)) (stateData m) in
  (onStateEnter newState data now m, true).

(** The numbers of [getStats]; [minutes] and [seconds] are the two
    numbers its [time] string shows. *)
Record Stats : Type := mkStats {
  minutes : Z;
  seconds : Z;
  timeMs : Z;
  statEnemiesKilled : Z;
  statShotsFired : Z;
  statTimesDetected : Z;
  statSilentKill : Flag;
  statTargetEliminated : Flag
}.

(** [Math.floor] of a quotient by a positive number is [Z.div]; [%] takes
    the sign of the dividend, as [Z.rem] does. *)
Definition getStats (m : t) : Stats :=
  let d := stateData m in
  let elapsed := (missionEndTime d - missionStartTime d)%Z in
  {| minutes := (elapsed / 60000)%Z;
     seconds := (Z.rem elapsed 60000 / 1000)%Z;
     timeMs := elapsed;
     statEnemiesKilled := enemiesKilled d;
     statShotsFired := shotsFired d;
     statTimesDetected := timesDetected d;
     statSilentKill := silentKill d;
     statTargetEliminated := targetEliminated d |}.

Definition getRating (m : t) : string :=
  let stats := getStats m in
  if (statTimesDetected stats =? 0)%Z && truthy (statSilentKill stats)
     && (statEnemiesKilled stats <=? 1)%Z
  then "Silent Assassin"
  else if (statTimesDetected stats <=? 2)%Z
          && truthy (statTargetEliminated stats)
  then "Professional"
  else if truthy (statTargetEliminated stats) then "Hitman"
  else "Thug".

(** [this.stateData[stat] += amount] for a [stat] that names a field of
    [stateData] itself; a name inherited from [Object.prototype] is not
    considered. *)
Definition incrementStat (stat : string) (amount : Z) (m : t) : t :=
  let d := stateData m in
  if String.eqb stat "missionStartTime" then
    set_stateData
      (mkData (missionStartTime d + amount) (missionEndTime d)
              (targetEliminated d) (playerDetected d) (enemiesKilled d)
              (shotsFired d) (timesDetected d) (silentKill d)) m
  else if String.eqb stat "missionEndTime" then
    set_stateData
      (mkData (missionStartTime d) (missionEndTime d + amount)
              (targetEliminated d) (playerDetected d) (enemiesKilled d)
              (shotsFired d) (timesDetected d) (silentKill d)) m
  else if String.eqb stat "targetEliminated" then
    set_stateData
      (mkData (missionStartTime d) (missionEndTime d)
              (Number (toNumber (targetEliminated d) + amount))
              (playerDetected d) (enemiesKilled d) (shotsFired d)
              (timesDetected d) (silentKill d)) m
  else if String.eqb stat "playerDetected" then
    set_stateData
      (mkData (missionStartTime d) (missionEndTime d) (targetEliminated d)
              (Number (toNumber (playerDetected d) + amount))
              (enemiesKilled d) (shotsFired d) (timesDetected d)
              (silentKill d)) m
  else if String.eqb stat "enemiesKilled" then
    set_stateData
      (mkData (missionStartTime d) (missionEndTime d) (targetEliminated d)
              (playerDetected d) (enemiesKilled d + amount) (shotsFired d)
              (timesDetected d) (silentKill d)) m
  else if String.eqb stat "shotsFired" then
    set_stateData
      (mkData (missionStartTime d) (missionEndTime d) (targetEliminated d)
              (playerDetected d) (enemiesKilled d) (shotsFired d + amount)
              (timesDetected d) (silentKill d)) m
  else if String.eqb stat "timesDetected" then
    set_stateData
      (mkData (missionStartTime d) (missionEndTime d) (targetEliminated d)
              (playerDetected d) (enemiesKilled d) (shotsFired d)
              (timesDetected d + amount) (silentKill d)) m
  else if String.eqb stat "silentKill" then
    set_stateData
      (mkData (missionStartTime d) (missionEndTime d) (targetEliminated d)
              (playerDetected d) (enemiesKilled d) (shotsFired d)
              (timesDetected d)
              (Number (toNumber (silentKill d) + amount))) m
  else m.

Definition reset (m : t) : t := new.

End GameStateManager.

(** ** The game loop ([main.js])

    [enemies] is the array of agents and [target] the place of the target
    in it ([this.target] is one of the objects of the array).
    [countedKill] holds the [_countedKill] mark of each agent, in the
    order of the array.  [escapeZone] is the box [LevelBuilder] keeps. *)

Module Game.

Record t : Type := mk {
  enemies : list EnemyAI.t;
  countedKill : list bool;
  target : option nat;
  stealthSystem : StealthSystem.t;
  weaponSystem : WeaponSystem.t;
  stateManager : GameStateManager.t;
  wasInCombat : bool;
  escapeZone : option THREE.Box3
}.

Definition set_stateManager (m : GameStateManager.t) (g : t) : t :=
  mk (enemies g) (countedKill g) (target g) (stealthSystem g)
     (weaponSystem g) m (wasInCombat g) (escapeZone g).

(** [this.target], [None] when it is [null]. *)
Definition targetAgent (g : t) : option EnemyAI.t :=
  match target g with
  | Some place => nth_error (enemies g) place
  | None => None
  end.

(** [LevelBuilder.isInEscapeZone] *)
Definition isInEscapeZone (zone : option THREE.Box3) (position : Vector3)
    : bool :=
  match zone with
  | None => false
  | Some zone =>
      Qgeb (THREE.x position) (THREE.x (THREE.bmin zone))
      && Qleb (THREE.x position) (THREE.x (THREE.bmax zone))
      && Qgeb (THREE.z position) (THREE.z (THREE.bmin zone))
      && Qleb (THREE.z position) (THREE.z (THREE.bmax zone))
  end.

(** "Track detection for stats" in [updateGame] *)
Definition trackDetection (globalAlert : AlertState) (g : t) : t :=
  match globalAlert with
  | COMBAT =>
      if negb (wasInCombat g) then
        mk (enemies g) (countedKill g) (target g) (stealthSystem g)
           (weaponSystem g)
           (GameStateManager.incrementStat "timesDetected" 1 (stateManager g))
           true (escapeZone g)
      else g
  | IDLE =>
      mk (enemies g) (countedKill g) (target g) (stealthSystem g)
         (weaponSystem g) (stateManager g) false (escapeZone g)
  | _ => g
  end.

(** "Track enemy kills": the loop over the agents and their marks.  An
    agent without a mark has none set. *)
Fixpoint countKills (enemies : list EnemyAI.t) (marks : list bool)
    (m : GameStateManager.t) : list bool * GameStateManager.t :=
  match enemies with
  | [] => ([], m)
  | enemy :: rest =>
      let mark := hd false marks in
      if negb (EnemyAI.isAlive enemy) && negb mark
         && negb (EnemyAI.isTarget enemy)
      then
        let (marks', m') :=
          countKills rest (tl marks)
                     (GameStateManager.incrementStat "enemiesKilled" 1 m) in
        (true :: marks', m')
      else
        let (marks', m') := countKills rest (tl marks) m in
        (mark :: marks', m')
  end.

Definition checkGameConditions (now : Z) (player : Player.t) (g : t) : t :=
  if negb (Player.isAlive player) then
    set_stateManager
      (fst (GameStateManager.forceState GAME_OVER GameStateManager.noData now
                                        (stateManager g))) g
  else
    let m := stateManager g in
    let m :=
      match targetAgent g with
      | Some target =>
          if negb (EnemyAI.isAlive target) then
            if GameStateManager.isState PLAYING m then
              let wasSilent :=
                negb (AlertState_eqb
                        (StealthSystem.globalAlertState (stealthSystem g))
                        COMBAT) in
              let m :=
                fst (GameStateManager.setState
                       TARGET_ELIMINATED
                       (GameStateManager.mkArg (Some wasSilent)) now m) in
              GameStateManager.incrementStat "enemiesKilled" 1 m
            else m
          else m
      | None => m
      end in
    let m :=
      if GameStateManager.isState TARGET_ELIMINATED m
         || GameStateManager.isState ESCAPE m
      then
        if isInEscapeZone (escapeZone g) (Player.position player) then
          let m :=
            if GameStateManager.isState TARGET_ELIMINATED m
            then fst (GameStateManager.setState
                        ESCAPE GameStateManager.noData now m)
            else m in
          if GameStateManager.isState ESCAPE m
          then fst (GameStateManager.forceState
                      MISSION_COMPLETE GameStateManager.noData now m)
          else m
        else m
      else m in
    let (marks, m) := countKills (enemies g) (countedKill g) m in
    mk (enemies g) marks (target g) (stealthSystem g) (weaponSystem g) m
       (wasInCombat g) (escapeZone g).

End Game.

(** What one frame reads from outside the game: the time the clock has
    measured, the player as its own update has left it, the obstacles,
    the clock and the numbers [Math.random()] draws, agent by agent. *)
Record FrameInput : Type := mkFrame {
  delta : Q;
  hero : Player.t;
  obstacles : list Collider;
  clock : Z;
  draws : list Q
}.

Section GameLoop.
Context {M : MathLib}.

(** [updateGame], which gives the game and the player as the frame
    leaves them. *)
Definition updateGame (deltaTime : Q) (f : FrameInput) (g : Game.t)
    : option (Game.t * Player.t) :=
  match WeaponSystem.update deltaTime (Game.weaponSystem g) with
  | None => None
  | Some ws =>
      let k :=
        mkTick deltaTime (hero f) (Game.stealthSystem g) (obstacles f)
               (clock f) (hd 0 (draws f)) in
      match updateEnemies k (draws f) (Game.enemies g) with
      | None => None
      | Some (enemies, player) =>
          let (ss, globalAlert) :=
            StealthSystem.updateGlobalAlert enemies (Game.stealthSystem g) in
          let g :=
            Game.mk enemies (Game.countedKill g) (Game.target g) ss ws
                    (Game.stateManager g) (Game.wasInCombat g)
                    (Game.escapeZone g) in
          let g := Game.trackDetection globalAlert g in
          let g := Game.checkGameConditions (clock f) player g in
          let m := Game.stateManager g in
          let d := GameStateManager.stateData m in
          let d :=
            GameStateManager.mkData
              (GameStateManager.missionStartTime d)
              (GameStateManager.missionEndTime d)
              (GameStateManager.targetEliminated d)
              (GameStateManager.playerDetected d)
              (GameStateManager.enemiesKilled d)
              (WeaponSystem.getShotsFired (Game.weaponSystem g))
              (GameStateManager.timesDetected d)
              (GameStateManager.silentKill d) in
          Some (Game.set_stateManager (GameStateManager.set_stateData d m) g,
                player)
      end
  end.

(** The body of the animation frame callback [update]. *)
Definition frame (f : FrameInput) (g : Game.t) : option Game.t :=
  let deltaTime := Math.min (delta f) 0.1 in
  if GameStateManager.isPlaying (Game.stateManager g)
  then option_map fst (updateGame deltaTime f g)
  else Some g.

(** [startGame] *)
Definition startGame (now : Z) (g : Game.t) : Game.t :=
  Game.set_stateManager
    (fst (GameStateManager.setState PLAYING GameStateManager.noData now
                                    (Game.stateManager g))) g.

(** The [mousedown] handler of [WeaponSystem]. *)
Definition mousedown (player : Player.t) (created now : Z)
    (ray : option Intersection) (g : Game.t) : option Game.t :=
  if GameStateManager.isPlaying (Game.stateManager g) then
    match WeaponSystem.shoot
            player created now ray
            (WeaponSystem.mkWorld (Game.weaponSystem g) (Game.stealthSystem g)
                                  (Game.enemies g)) with
    | None => None
    | Some (w, _) =>
        Some (Game.mk (WeaponSystem.enemies w) (Game.countedKill g)
                      (Game.target g) (WeaponSystem.stealth w)
                      (WeaponSystem.arms w) (Game.stateManager g)
                      (Game.wasInCombat g) (Game.escapeZone g))
    end
  else Some g.

End GameLoop.

(** What happens to the game: the start button, a frame, a pull of the
    trigger. *)
Inductive Happening : Type :=
| StartButton (now : Z)
| AnimationFrame (f : FrameInput)
| MouseDown (player : Player.t) (created now : Z)
            (ray : option Intersection).

Section Plays.
Context {M : MathLib}.

Definition happen (h : Happening) (g : Game.t) : option Game.t :=
  match h with
  | StartButton now => Some (startGame now g)
  | AnimationFrame f => frame f g
  | MouseDown player created now ray => mousedown player created now ray g
  end.

Fixpoint play (hs : list Happening) (g : Game.t) : option Game.t :=
  match hs with
  | [] => Some g
  | h :: later =>
      match happen h g with
      | Some g' => play later g'
      | None => None
      end
  end.

End Plays.

(** The target of the game has been killed. *)
Definition targetDead (g : Game.t) : Prop :=
  exists a, Game.targetAgent g = Some a /\ EnemyAI.isAlive a = false.

(** The mission states that follow the kill. *)
Definition afterKill (s : GameState) : bool :=
  match s with
  | TARGET_ELIMINATED | ESCAPE | MISSION_COMPLETE => true
  | _ => false
  end.

(** The global alerts successive frames have seen, fed to the detection
    counter. *)
Definition track (alerts : list AlertState) (g : Game.t) : Game.t :=
  fold_left (fun g alert => Game.trackDetection alert g) alerts g.

Definition detections (g : Game.t) : Z :=
  GameStateManager.timesDetected
    (GameStateManager.stateData (Game.stateManager g)).

(** The ratings, from worst to best. *)
Definition rank (rating : string) : nat :=
  if String.eqb rating "Silent Assassin" then 3
  else if String.eqb rating "Professional" then 2
  else if String.eqb rating "Hitman" then 1
  else 0.

(** A call of [setState], and a series of them. *)
Record Request : Type := mkRequest {
  wanted : GameState;
  given : GameStateManager.Data;
  moment : Z
}.

Definition request (r : Request) (m : GameStateManager.t)
    : GameStateManager.t :=
  fst (GameStateManager.setState (wanted r) (given r) (moment r) m).

Definition requests (rs : list Request) (m : GameStateManager.t)
    : GameStateManager.t :=
  fold_left (fun m r => request r m) rs m.

(** How many of the frames saw the global alert [s]. *)
Definition occurrences (s : AlertState) (alerts : list AlertState) : nat :=
  List.length (filter (AlertState_eqb s) alerts).

(** Dead agents are the same in both arrays, place by place. *)
Definition deadStay (l l' : list EnemyAI.t) : Prop :=
  Forall2 (fun e e' => EnemyAI.isAlive e = false -> e' = e) l l'.

(** The mission is past the kill only if the target is dead. *)
Definition missionInOrder (g : Game.t) : Prop :=
  afterKill (GameStateManager.currentState (Game.stateManager g)) = true ->
  targetDead g.

(** ** A mission *)

Module Story.

(** The game when the start button shows: a guard and the target, the
    constructor's weapons, and the exit of the level. *)
Definition opening : Game.t :=
  {| Game.enemies := Cases.squad;
     Game.countedKill := [];
     Game.target := Some 1%nat;
     Game.stealthSystem := Scenario.quiet;
     Game.weaponSystem := WeaponSystem.new;
     Game.stateManager :=
       fst (GameStateManager.forceState MENU GameStateManager.noData 0
                                        GameStateManager.new);
     Game.wasInCombat := false;
     Game.escapeZone :=
       Some (THREE.box3 (vec3 (-5) 0 24) (vec3 5 3 30)) |}.

(** A frame with the player standing at the exit. *)
Definition atExit : FrameInput :=
  {| delta := 0.016; hero := Scenario.playerAt (vec3 0 0 25);
     obstacles := []; clock := 16; draws := [] |}.

(** The game is started, the target is shot in the head, and the next
    frame finds the player at the exit. *)
Definition plot : list Happening :=
  [StartButton 0;
   MouseDown Scenario.inView 0 0 (Some (EnemyMesh 2 true));
   AnimationFrame atExit].

End Story.

(** * Properties *)

(** ** Comparisons and [Math] *)

Lemma Qltb_lt a b : Qltb a b = true <-> a < b.
Proof.
  unfold Qltb. rewrite negb_true_iff. split; intro H.
  - apply Qnot_le_lt. intro Hle. apply Qle_bool_iff in Hle. congruence.
  - destruct (Qle_bool b a) eqn:E; trivial.
    apply Qle_bool_iff in E. exfalso. apply (Qlt_not_le _ _ H E).
Qed.

Lemma Qltb_ge a b : Qltb a b = false <-> b <= a.
Proof.
  unfold Qltb. rewrite negb_false_iff. apply Qle_bool_iff.
Qed.

Lemma Qgtb_gt a b : Qgtb a b = true <-> b < a.
Proof. apply Qltb_lt. Qed.

Lemma Qgtb_le a b : Qgtb a b = false <-> a <= b.
Proof. apply Qltb_ge. Qed.

Lemma Qgeb_ge a b : Qgeb a b = true <-> b <= a.
Proof. apply Qle_bool_iff. Qed.

Lemma Qgeb_lt a b : Qgeb a b = false <-> a < b.
Proof.
  unfold Qgeb. split; intro H.
  - apply Qnot_le_lt. intro Hle. apply Qle_bool_iff in Hle. congruence.
  - destruct (Qle_bool b a) eqn:E; trivial.
    apply Qle_bool_iff in E. exfalso. apply (Qlt_not_le _ _ H E).
Qed.

Lemma Qleb_le a b : Qleb a b = true <-> a <= b.
Proof. apply Qle_bool_iff. Qed.

Lemma Qleb_gt a b : Qleb a b = false <-> b < a.
Proof. apply (Qgeb_lt b a). Qed.

Lemma PI_pos : 0 < Math.PI.
Proof. reflexivity. Qed.

Lemma max_l a b : a <= Math.max a b.
Proof.
  unfold Math.max. destruct (Qle_bool a b) eqn:E.
  - now apply Qle_bool_iff.
  - apply Qle_refl.
Qed.

Lemma max_r a b : b <= Math.max a b.
Proof.
  unfold Math.max. destruct (Qle_bool a b) eqn:E.
  - apply Qle_refl.
  - apply Qlt_le_weak, Qleb_gt. exact E.
Qed.

Lemma AlertState_eqb_eq a b : AlertState_eqb a b = true <-> a = b.
Proof. destruct a, b; simpl; split; congruence. Qed.

(** ** The loops of [facePosition] run to their exit *)

Section Turning.

Import EnemyAI.

Lemma turns_cover (diff : Q) :
  Qabs diff <= inject_Z (Z.of_nat (turns diff)) * (Math.PI * 2).
Proof.
  unfold turns.
  assert (Hpi : 0 < Math.PI * 2) by reflexivity.
  assert (Hq : 0 <= Qabs diff / (Math.PI * 2)).
  { apply Qle_shift_div_l; [exact Hpi|]. rewrite Qmult_0_l. apply Qabs_nonneg. }
  pose proof (Qle_ceiling (Qabs diff / (Math.PI * 2))) as Hc.
  assert (Hz : (0 <= Qceiling (Qabs diff / (Math.PI * 2)))%Z).
  { rewrite Zle_Qle. eapply Qle_trans; [exact Hq | exact Hc]. }
  rewrite Z2Nat.id by exact Hz.
  apply (Qmult_le_compat_r _ _ (Math.PI * 2)) in Hc;
    [|now apply Qlt_le_weak].
  rewrite (Qmult_comm (Qabs diff / (Math.PI * 2))), Qmult_div_r in Hc;
    [exact Hc|].
  intros H0. rewrite H0 in Hpi. discriminate Hpi.
Qed.

Lemma wrapDown_bound (fuel : nat) (diff : Q) :
  diff <= Math.PI + inject_Z (Z.of_nat fuel) * (Math.PI * 2) ->
  wrapDown fuel diff <= Math.PI.
Proof.
  revert diff. induction fuel as [|n IH]; intros diff H; cbn [wrapDown].
  - change (inject_Z (Z.of_nat 0)) with 0 in H. lra.
  - destruct (Qgtb diff Math.PI) eqn:Hgt.
    + apply IH. rewrite Nat2Z.inj_succ, <- Z.add_1_r, inject_Z_plus in H.
      change (inject_Z 1) with 1 in H. lra.
    + now apply Qgtb_le in Hgt.
Qed.

Lemma wrapUp_bound (fuel : nat) (diff : Q) :
  - Math.PI - inject_Z (Z.of_nat fuel) * (Math.PI * 2) <= diff ->
  - Math.PI <= wrapUp fuel diff.
Proof.
  revert diff. induction fuel as [|n IH]; intros diff H; cbn [wrapUp].
  - change (inject_Z (Z.of_nat 0)) with 0 in H. lra.
  - destruct (Qltb diff (- Math.PI)) eqn:Hlt.
    + apply IH. rewrite Nat2Z.inj_succ, <- Z.add_1_r, inject_Z_plus in H.
      change (inject_Z 1) with 1 in H. lra.
    + now apply Qltb_ge in Hlt.
Qed.

(** The first loop stops with [diff <= PI] ... *)
Lemma wrapDown_exit (diff : Q) : wrapDown (turns diff) diff <= Math.PI.
Proof.
  apply wrapDown_bound. pose proof (turns_cover diff) as H.
  pose proof (Qle_Qabs diff). pose proof PI_pos. lra.
Qed.

(** ... and the second one with [-PI <= diff]. *)
Lemma wrapUp_exit (diff : Q) : - Math.PI <= wrapUp (turns diff) diff.
Proof.
  apply wrapUp_bound. pose proof (turns_cover diff) as H.
  pose proof (Qle_Qabs (- diff)) as Ha. rewrite Qabs_opp in Ha.
  pose proof PI_pos. lra.
Qed.

End Turning.

(** ** Agents: damage and death *)

Section Damage.

Import EnemyAI.

Lemma takeDamage_dead (amount : Q) (isHeadshot : bool) (e : EnemyAI.t) :
  isAlive e = false -> takeDamage amount isHeadshot e = (e, false).
Proof. intros H. unfold takeDamage. now rewrite H. Qed.

Lemma takeDamage_dead_stays (amount : Q) (isHeadshot : bool) (e : EnemyAI.t) :
  isAlive e = false -> isAlive (fst (takeDamage amount isHeadshot e)) = false.
Proof. intros H. now rewrite takeDamage_dead. Qed.

Lemma takeDamage_level_nonneg (amount : Q) (isHeadshot : bool)
    (e : EnemyAI.t) :
  0 <= alertLevel e -> 0 <= alertLevel (fst (takeDamage amount isHeadshot e)).
Proof.
  intros H. unfold takeDamage.
  destruct (isAlive e); simpl; trivial.
  match goal with |- context [if ?b then _ else _] => destruct b end; simpl;
    [exact H | discriminate].
Qed.

End Damage.

Section DamageOutcome.

Import EnemyAI.

(** C6 (as amended).  On a living agent [takeDamage] doubles [amount] on a
    headshot and subtracts it from [health].  If the agent survives, its
    alert level is forced to 1 and its state to [COMBAT], and the call
    returns [false].  If the health reaches 0 or less, the agent is no
    longer alive, the call returns [true], the alert level and state are
    left as they were, and every later call leaves the agent unchanged and
    returns [false].  The target (health 50) hit by a headshot of 40 is
    killed. *)
Theorem takeDamage_outcome (amount : Q) (isHeadshot : bool) (e : EnemyAI.t) :
  let dealt := if isHeadshot then amount * 2 else amount in
  let r := takeDamage amount isHeadshot e in
  (isAlive e = true -> 0 < health e - dealt ->
     snd r = false /\ isAlive (fst r) = true
     /\ health (fst r) = health e - dealt
     /\ alertLevel (fst r) = 1 /\ alertState (fst r) = COMBAT)
  /\ (isAlive e = true -> health e - dealt <= 0 ->
     snd r = true /\ isAlive (fst r) = false
     /\ health (fst r) = health e - dealt
     /\ alertLevel (fst r) = alertLevel e
     /\ alertState (fst r) = alertState e
     /\ forall a h, takeDamage a h (fst r) = (fst r, false))
  /\ (isAlive e = false -> r = (e, false))
  /\ (forall n p route,
        let d := takeDamage 40 true (EnemyAI.new n p route true) in
        snd d = true /\ isAlive (fst d) = false).
Proof.
  intros dealt r. subst r. unfold takeDamage. fold dealt.
  split; [|split; [|split]].
  - intros Ha Hh. rewrite Ha. simpl.
    apply Qleb_gt in Hh. rewrite Hh. simpl. repeat split; assumption.
  - intros Ha Hh. rewrite Ha. simpl.
    apply Qleb_le in Hh. rewrite Hh. simpl.
    repeat split; intros a h; reflexivity.
  - intros Ha. now rewrite Ha.
  - intros n p route. simpl. repeat split.
Qed.

Lemma takeDamage_outcome_witness :
  isAlive Scenario.target = true
  /\ health Scenario.target - 40 * 2 <= 0
  /\ snd Scenario.shotTarget = true
  /\ isAlive (fst Scenario.shotTarget) = false
  /\ takeDamage 40 true (fst Scenario.shotTarget)
     = (fst Scenario.shotTarget, false).
Proof.
  assert (Ha : isAlive Scenario.target = true) by reflexivity.
  assert (Hh : health Scenario.target - 40 * 2 <= 0)
    by (vm_compute; discriminate).
  destruct (takeDamage_outcome 40 true Scenario.target) as (_ & Hkill & _).
  destruct (Hkill Ha Hh) as (Hk & Hd & _ & _ & _ & Hno).
  exact (conj Ha (conj Hh (conj Hk (conj Hd (Hno 40 true))))).
Defined.

(** C6, as it is written, fails on the killing shot: the target of
    scenario D dies with alert level 0 and state [IDLE], not 1 and
    [COMBAT]. *)
Lemma takeDamage_kill_not_alerted :
  isAlive Scenario.target = true
  /\ snd Scenario.shotTarget = true
  /\ alertLevel (fst Scenario.shotTarget) = 0
  /\ alertState (fst Scenario.shotTarget) = IDLE
  /\ ~ (alertLevel (fst Scenario.shotTarget) == 1
        /\ alertState (fst Scenario.shotTarget) = COMBAT).
Proof.
  repeat split. intros [_ H]. discriminate H.
Qed.

End DamageOutcome.

(** ** Movement touches position and rotation only *)

Section Movement.
Context {M : MathLib}.

Import EnemyAI.

Lemma set_position_same (e : EnemyAI.t) : set_position (position e) e = e.
Proof. now destruct e. Qed.

Lemma facePosition_shape (target : Vector3) (dt : Q) (e : EnemyAI.t) :
  exists r, facePosition target dt e = set_rotation r e.
Proof. unfold facePosition. eexists. reflexivity. Qed.

Lemma moveTowards_shape (target : Vector3) (speed dt : Q)
    (cs : list Collider) (e : EnemyAI.t) :
  exists p r, moveTowards target speed dt cs e
              = set_position p (set_rotation r e).
Proof.
  unfold moveTowards.
  destruct (facePosition_shape target dt e) as [r ->].
  repeat match goal with
         | |- context [if ?b then _ else _] => destruct b
         end;
    eexists; eexists; reflexivity.
Qed.

End Movement.

(** Rewrites a call of [moveTowards] or [facePosition] in the goal into
    the fields it sets. *)
Ltac expose_motion :=
  repeat match goal with
    | |- context [EnemyAI.moveTowards ?t ?s ?d ?c ?e] =>
        let p := fresh "p" in
        let r := fresh "r" in
        let E := fresh "E" in
        destruct (moveTowards_shape t s d c e) as (p & r & E);
        rewrite E; clear E
    | |- context [EnemyAI.facePosition ?t ?d ?e] =>
        let r := fresh "r" in
        let E := fresh "E" in
        destruct (facePosition_shape t d e) as (r & E);
        rewrite E; clear E
    end.

(** Shows the record behind every field assignment.  The reduction is
    lazy so that nested assignments are not copied field by field. *)
Ltac open_setters :=
  lazy beta iota delta
   [EnemyAI.set_position EnemyAI.set_rotation EnemyAI.set_currentPatrolIndex
    EnemyAI.set_patrolWaitTime EnemyAI.set_alertLevel EnemyAI.set_alertState
    EnemyAI.set_health EnemyAI.set_isAlive EnemyAI.set_shootCooldown
    EnemyAI.set_lastKnownPlayerPos EnemyAI.set_investigateTime
    EnemyAI.set_searchTime EnemyAI.set_coverTime EnemyAI.id EnemyAI.isTarget
    EnemyAI.position EnemyAI.rotation EnemyAI.patrolRoute
    EnemyAI.currentPatrolIndex EnemyAI.patrolWaitTime
    EnemyAI.patrolWaitDuration EnemyAI.detectionRange EnemyAI.detectionAngle
    EnemyAI.alertLevel EnemyAI.alertState EnemyAI.alertDecayRate
    EnemyAI.health EnemyAI.maxHealth EnemyAI.isAlive EnemyAI.shootCooldown
    EnemyAI.shootInterval EnemyAI.shootRange EnemyAI.damage EnemyAI.accuracy
    EnemyAI.lastKnownPlayerPos EnemyAI.investigateTime
    EnemyAI.investigateDuration EnemyAI.lostPlayerTime EnemyAI.searchTime
    EnemyAI.walkSpeed EnemyAI.runSpeed EnemyAI.turnSpeed EnemyAI.inCover
    EnemyAI.coverPosition EnemyAI.coverTime].

(** Reads fields through the assignments made before them. *)
Ltac read_fields :=
  cbn [EnemyAI.set_position EnemyAI.set_rotation EnemyAI.set_currentPatrolIndex
    EnemyAI.set_patrolWaitTime EnemyAI.set_alertLevel EnemyAI.set_alertState
    EnemyAI.set_health EnemyAI.set_isAlive EnemyAI.set_shootCooldown
    EnemyAI.set_lastKnownPlayerPos EnemyAI.set_investigateTime
    EnemyAI.set_searchTime EnemyAI.set_coverTime EnemyAI.id EnemyAI.isTarget
    EnemyAI.position EnemyAI.rotation EnemyAI.patrolRoute
    EnemyAI.currentPatrolIndex EnemyAI.patrolWaitTime
    EnemyAI.patrolWaitDuration EnemyAI.detectionRange EnemyAI.detectionAngle
    EnemyAI.alertLevel EnemyAI.alertState EnemyAI.alertDecayRate
    EnemyAI.health EnemyAI.maxHealth EnemyAI.isAlive EnemyAI.shootCooldown
    EnemyAI.shootInterval EnemyAI.shootRange EnemyAI.damage EnemyAI.accuracy
    EnemyAI.lastKnownPlayerPos EnemyAI.investigateTime
    EnemyAI.investigateDuration EnemyAI.lostPlayerTime EnemyAI.searchTime
    EnemyAI.walkSpeed EnemyAI.runSpeed EnemyAI.turnSpeed EnemyAI.inCover
    EnemyAI.coverPosition EnemyAI.coverTime].

(** Case analysis on every test the goal still branches on. *)
Ltac split_tests :=
  repeat match goal with
    | |- context [if ?b then _ else _] => destruct b eqn:?
    | |- context [match ?o with Some _ => _ | None => _ end] =>
        destruct o eqn:?
    end.

(** ** Dead agents *)

Section DeadAgents.
Context {M : MathLib}.

(** C9.  For an agent whose [isAlive] flag is false, [update] returns at
    once: the agent it leaves is the agent it was given, field for field,
    whatever the tick's inputs; the player is untouched as well. *)
Theorem update_dead_unchanged (k : Tick) (e : EnemyAI.t) :
  EnemyAI.isAlive e = false -> update k e = Some (e, player k).
Proof. intros H. unfold update. now rewrite H. Qed.

End DeadAgents.

Lemma update_dead_unchanged_witness :
  EnemyAI.isAlive Scenario.killedGuard = false
  /\ update (Scenario.calmTick (Scenario.playerAt (vec3 0 0 (-5))))
            Scenario.killedGuard
     = Some (Scenario.killedGuard, Scenario.playerAt (vec3 0 0 (-5))).
Proof.
  split; [reflexivity|].
  apply (update_dead_unchanged
           (Scenario.calmTick (Scenario.playerAt (vec3 0 0 (-5))))
           Scenario.killedGuard).
  reflexivity.
Defined.

(** ** What the phases of [update] write *)

Section Phases.
Context {M : MathLib}.

Import EnemyAI.

Lemma decayAlert_shape (dt : Q) (e : EnemyAI.t) :
  exists l, decayAlert dt e = set_alertLevel l e.
Proof.
  unfold decayAlert. destruct e. simpl.
  split_tests; eexists; open_setters; reflexivity.
Qed.

Lemma senseSight_shape (k : Tick) (e : EnemyAI.t) :
  exists l p, senseSight k e = set_lastKnownPlayerPos p (set_alertLevel l e).
Proof.
  unfold senseSight.
  generalize (StealthSystem.checkDetection (stealthSystem k) e (player k)
                                           (deltaTime k)).
  intros d. destruct e. simpl.
  split_tests; eexists; eexists; open_setters; reflexivity.
Qed.

Lemma senseSound_shape (k : Tick) (e : EnemyAI.t) :
  exists l p, senseSound k e = set_lastKnownPlayerPos p (set_alertLevel l e).
Proof.
  unfold senseSound.
  generalize (StealthSystem.checkSoundDetection (stealthSystem k) (now k) e).
  intros h. destruct e. simpl.
  split_tests; eexists; eexists; open_setters; reflexivity.
Qed.

Lemma perceive_shape (k : Tick) (e : EnemyAI.t) :
  exists l s p,
    perceive k e
    = set_alertState s (set_lastKnownPlayerPos p (set_alertLevel l e)).
Proof.
  unfold perceive, refreshState.
  destruct (decayAlert_shape (deltaTime k) e) as (l0 & ->).
  destruct (senseSight_shape k (set_alertLevel l0 e)) as (l1 & p1 & ->).
  destruct (senseSound_shape
              k (set_lastKnownPlayerPos
                   p1 (set_alertLevel l1 (set_alertLevel l0 e))))
    as (l2 & p2 & ->).
  destruct e. eexists; eexists; eexists; open_setters; reflexivity.
Qed.

Lemma coolDown_shape (dt : Q) (e : EnemyAI.t) :
  exists c, coolDown dt e = set_shootCooldown c e.
Proof.
  unfold coolDown. destruct e. simpl.
  split_tests; eexists; open_setters; reflexivity.
Qed.

End Phases.

(** ** The investigate duration is fixed *)

Section Duration.
Context {M : MathLib}.

Import EnemyAI.

Lemma behave_duration (k : Tick) (e e' : EnemyAI.t) (p : Player.t) :
  behave k e = Some (e', p) -> investigateDuration e' = investigateDuration e.
Proof.
  intros H.
  assert (He : Some e' = option_map fst (behave k e)) by now rewrite H.
  clear H. revert He. unfold behave.
  destruct (alertState e); cbn [option_map].
  - unfold patrol.
    split_tests; expose_motion; cbn [option_map fst]; intros H;
      inversion H; reflexivity.
  - unfold investigate, patrol.
    split_tests; expose_motion; cbn [option_map fst]; intros H;
      inversion H; reflexivity.
  - unfold search. cbv zeta.
    split_tests; expose_motion; cbn [option_map fst]; intros H;
      inversion H; reflexivity.
  - unfold combat. cbv zeta.
    split_tests; expose_motion; unfold shoot; split_tests;
      cbn [option_map fst]; intros H; inversion H; reflexivity.
Qed.

Lemma update_duration (k : Tick) (e e' : EnemyAI.t) (p' : Player.t) :
  update k e = Some (e', p') -> investigateDuration e' = investigateDuration e.
Proof.
  unfold update. destruct (isAlive e); cbn [negb].
  - destruct (behave k (perceive k e)) as [[e1 p1]|] eqn:Hb; [|discriminate].
    intros H. inversion H; subst. apply behave_duration in Hb.
    destruct (coolDown_shape (deltaTime k) e1) as (c & ->).
    destruct (perceive_shape k e) as (l & s & q & Hp). rewrite Hp in Hb.
    exact Hb.
  - intros H. now inversion H.
Qed.

Lemma run_duration (ticks : list Tick) (e e' : EnemyAI.t) :
  run ticks e = Some e' -> investigateDuration e' = investigateDuration e.
Proof.
  revert e. induction ticks as [|k later IH]; intros e; cbn [run].
  - intros H. now inversion H.
  - destruct (update k e) as [[e1 p1]|] eqn:Hu; [|discriminate].
    intros H. rewrite (IH _ H). now apply (update_duration k e e1 p1).
Qed.

End Duration.

(** ** Investigating *)

Section Investigate.
Context {M : MathLib}.

Import EnemyAI.

(** C8.  In investigate mode with a last known position, a call whose
    [deltaTime] takes the investigate timer above the duration of 5
    seconds gives up at once: the alert level becomes exactly 0, the last
    known position is cleared and the timer restarts at 0.  This is what
    [update] does in a tick whose recomputed state is [SUSPICIOUS].  The
    duration is 5 for every agent the constructor made, after any run of
    ticks. *)
Theorem investigate_gives_up (k : Tick) (e : EnemyAI.t) (seen : Vector3) :
  investigateDuration e = 5 ->
  lastKnownPlayerPos e = Some seen ->
  5 < investigateTime e + deltaTime k ->
  (exists e',
      investigate (deltaTime k) (colliders k) (now k) e = Some e'
      /\ alertLevel e' = 0
      /\ lastKnownPlayerPos e' = None
      /\ investigateTime e' = 0)
  /\ (alertState e = SUSPICIOUS ->
      exists e',
        behave k e = Some (e', player k)
        /\ alertLevel e' = 0
        /\ lastKnownPlayerPos e' = None
        /\ investigateTime e' = 0)
  /\ (forall e0,
        isAlive e0 = true -> perceive k e0 = e ->
        alertState e = SUSPICIOUS ->
        exists e',
          update k e0 = Some (e', player k)
          /\ alertLevel e' = 0
          /\ lastKnownPlayerPos e' = None
          /\ investigateTime e' = 0)
  /\ (forall ticks n p route target e0,
        run ticks (EnemyAI.new n p route target) = Some e0 ->
        investigateDuration e0 = 5).
Proof.
  intros Hdur Hseen Hlate.
  assert (Hinv : exists e',
      investigate (deltaTime k) (colliders k) (now k) e = Some e'
      /\ alertLevel e' = 0
      /\ lastKnownPlayerPos e' = None
      /\ investigateTime e' = 0).
  { unfold investigate. rewrite Hseen.
    destruct (Qgtb (THREE.distanceTo _ _) 1).
    - expose_motion. simpl. rewrite Hdur.
      apply Qgtb_gt in Hlate. rewrite Hlate.
      eexists. split; [reflexivity|]. repeat split.
    - simpl. rewrite Hdur.
      apply Qgtb_gt in Hlate. rewrite Hlate.
      eexists. split; [reflexivity|]. repeat split. }
  assert (Hbeh : alertState e = SUSPICIOUS ->
      exists e',
        behave k e = Some (e', player k)
        /\ alertLevel e' = 0
        /\ lastKnownPlayerPos e' = None
        /\ investigateTime e' = 0).
  { intros Hs. destruct Hinv as (e' & He & H1 & H2 & H3).
    exists e'. unfold behave. rewrite Hs, He. simpl.
    repeat split; assumption. }
  split; [exact Hinv|]. split; [exact Hbeh|].
  split; [|intros ticks n p route target e0 Hrun;
           now rewrite (run_duration _ _ _ Hrun)].
  intros e0 Halive Hper Hs.
  destruct (Hbeh Hs) as (e' & He & H1 & H2 & H3).
  unfold update. rewrite Halive, Hper, He. simpl.
  destruct (coolDown_shape (deltaTime k) e') as (c & ->).
  eexists. split; [reflexivity|]. simpl. repeat split; assumption.
Qed.

End Investigate.

Lemma investigate_gives_up_witness :
  EnemyAI.investigateDuration Scenario.investigating = 5
  /\ EnemyAI.lastKnownPlayerPos Scenario.investigating
     = Some (vec3 0 0 (-5))
  /\ 5 < EnemyAI.investigateTime Scenario.investigating
          + deltaTime Scenario.lostTick
  /\ exists e',
       update Scenario.lostTick Scenario.lingeringGuard
       = Some (e', player Scenario.lostTick)
       /\ EnemyAI.alertLevel e' = 0
       /\ EnemyAI.lastKnownPlayerPos e' = None
       /\ EnemyAI.investigateTime e' = 0.
Proof.
  assert (Hd : EnemyAI.investigateDuration Scenario.investigating = 5)
    by reflexivity.
  assert (Hs : EnemyAI.lastKnownPlayerPos Scenario.investigating
               = Some (vec3 0 0 (-5))) by reflexivity.
  assert (Ht : 5 < EnemyAI.investigateTime Scenario.investigating
                   + deltaTime Scenario.lostTick) by reflexivity.
  destruct (investigate_gives_up Scenario.lostTick Scenario.investigating
                                 (vec3 0 0 (-5)) Hd Hs Ht) as (_ & _ & H & _).
  exact (conj Hd (conj Hs (conj Ht
           (H Scenario.lingeringGuard eq_refl eq_refl eq_refl)))).
Defined.

(** ** What the behaviour modes write into the agent's alert fields *)

Section Behaviours.
Context {M : MathLib}.

Import EnemyAI.

Lemma patrol_mind (dt : Q) (cs : list Collider) (t0 : Z) (e e' : EnemyAI.t) :
  patrol dt cs t0 e = Some e' ->
  alertLevel e' = alertLevel e /\ alertState e' = alertState e
  /\ lastKnownPlayerPos e' = lastKnownPlayerPos e
  /\ isAlive e' = isAlive e /\ shootCooldown e' = shootCooldown e.
Proof.
  unfold patrol. split_tests; expose_motion; intros H;
    inversion H; subst; simpl; repeat split.
Qed.

Lemma shoot_mind (p : Player.t) (r : Q) (e : EnemyAI.t) :
  alertLevel (fst (shoot p r e)) = alertLevel e
  /\ alertState (fst (shoot p r e)) = alertState e
  /\ lastKnownPlayerPos (fst (shoot p r e)) = lastKnownPlayerPos e
  /\ isAlive (fst (shoot p r e)) = isAlive e.
Proof. unfold shoot. split_tests; simpl; repeat split. Qed.

Lemma investigate_mind (dt : Q) (cs : list Collider) (t0 : Z)
    (e e' : EnemyAI.t) :
  investigate dt cs t0 e = Some e' ->
  alertState e' = alertState e
  /\ isAlive e' = isAlive e
  /\ ((alertLevel e' = alertLevel e
       /\ lastKnownPlayerPos e' = lastKnownPlayerPos e)
      \/ (exists seen,
            lastKnownPlayerPos e = Some seen
            /\ investigateDuration e < investigateTime e + dt
            /\ alertLevel e' = 0 /\ lastKnownPlayerPos e' = None)).
Proof.
  unfold investigate.
  destruct (lastKnownPlayerPos e) as [seen|] eqn:Hseen.
  - destruct (Qgtb (THREE.distanceTo _ _) 1); expose_motion; simpl;
      (destruct (Qgtb _ _) eqn:Hlate; intros H; inversion H; subst; simpl;
       [ repeat split; right; exists seen; apply Qgtb_gt in Hlate;
         repeat split; assumption
       | repeat split; left; split; [reflexivity | assumption] ]).
  - intros Hp. apply patrol_mind in Hp.
    destruct Hp as (H1 & H2 & H3 & H4 & _).
    repeat split; trivial. left. split; congruence.
Qed.

Lemma search_mind (dt : Q) (p : Player.t) (cs : list Collider)
    (e : EnemyAI.t) :
  let e' := search dt p cs e in
  alertState e' = alertState e
  /\ isAlive e' = isAlive e
  /\ lastKnownPlayerPos e' = lastKnownPlayerPos e
  /\ (alertLevel e' = alertLevel e
      \/ (10 < searchTime e + dt /\ alertLevel e' = alertLevel e - 0.3)).
Proof.
  unfold search. simpl.
  destruct (lastKnownPlayerPos e) as [seen|] eqn:Hseen;
    [destruct (Qgtb (THREE.distanceTo _ _) 1)|]; expose_motion; simpl;
    (destruct (Qgtb _ 10) eqn:Hlate; simpl;
     [ apply Qgtb_gt in Hlate; repeat split; try assumption; right;
       split; [assumption | reflexivity]
     | repeat split; try assumption; left; reflexivity ]).
Qed.

Lemma combat_mind (dt : Q) (p : Player.t) (cs : list Collider) (r : Q)
    (e : EnemyAI.t) :
  let e' := fst (combat dt p cs r e) in
  alertState e' = alertState e
  /\ isAlive e' = isAlive e
  /\ (Player.isAlive p = true ->
      alertLevel e' = alertLevel e
      /\ lastKnownPlayerPos e' = Some (Player.position p))
  /\ (Player.isAlive p = false ->
      alertLevel e' = 0.5
      /\ lastKnownPlayerPos e' = lastKnownPlayerPos e).
Proof.
  unfold combat. cbv zeta.
  destruct (Player.isAlive p); cbv beta iota delta [negb].
  - split_tests; expose_motion; unfold shoot; split_tests;
      lazy beta iota delta [fst]; open_setters;
      repeat split; discriminate.
  - open_setters. lazy beta iota delta [fst]. repeat split; discriminate.
Qed.

Lemma behave_mind (k : Tick) (e e' : EnemyAI.t) (p : Player.t) :
  behave k e = Some (e', p) ->
  alertState e' = alertState e
  /\ isAlive e' = isAlive e
  /\ ((alertLevel e' = alertLevel e
       /\ (lastKnownPlayerPos e' = lastKnownPlayerPos e
           \/ (alertState e = COMBAT
               /\ lastKnownPlayerPos e'
                  = Some (Player.position (player k)))))
      \/ LevelWrite k e e').
Proof.
  unfold behave. intros H.
  destruct (alertState e) eqn:Hs; rewrite <- Hs.
  - destruct (patrol _ _ _ e) eqn:Hp; simpl in H; [|discriminate].
    inversion H; subst. apply patrol_mind in Hp.
    destruct Hp as (H1 & H2 & H3 & H4 & _).
    repeat split; trivial. left. split; [|left]; assumption.
  - destruct (investigate _ _ _ e) eqn:Hp; simpl in H; [|discriminate].
    inversion H; subst. apply investigate_mind in Hp.
    destruct Hp as (H1 & H2 & [[H3 H4] | (seen & H3 & H4 & H5 & H6)]).
    + repeat split; trivial. left. split; [|left]; assumption.
    + repeat split; trivial. right. now apply (GiveUp k e e' seen).
  - inversion H; subst.
    destruct (search_mind (deltaTime k) (player k) (colliders k) e)
      as (H1 & H2 & H3 & [H4 | [H4 H5]]).
    + repeat split; trivial. left. split; [|left]; assumption.
    + repeat split; trivial. right. now apply SearchTimeout.
  - destruct (combat_mind (deltaTime k) (player k) (colliders k) (rnd k) e)
      as (H1 & H2 & H3 & H4).
    assert (He : fst (combat (deltaTime k) (player k) (colliders k)
                             (rnd k) e) = e')
      by (inversion H as [H0]; now rewrite H0).
    rewrite He in *.
    destruct (Player.isAlive (player k)) eqn:Hp.
    + destruct (H3 eq_refl) as [H5 H6].
      repeat split; trivial. left. split; [assumption|]. right. now split.
    + destruct (H4 eq_refl) as [H5 H6].
      repeat split; trivial. right. now apply TargetLost.
Qed.

End Behaviours.

(** ** Alert state and alert level *)

Section Thresholds.

Import StealthSystem.

Lemma new_defaultThresholds (sc : Scene) (lb : LevelBuilder.t) :
  defaultThresholds (StealthSystem.new sc lb).
Proof. repeat split. Qed.

Lemma registerSound_defaultThresholds
    (pos : Vector3) (l : Q) (ty : string) (t0 t1 : Z) (ss : StealthSystem.t) :
  defaultThresholds ss -> defaultThresholds (registerSound pos l ty t0 t1 ss).
Proof. intros H. exact H. Qed.

Lemma updateGlobalAlert_defaultThresholds
    (enemies : list EnemyAI.t) (ss : StealthSystem.t) :
  defaultThresholds ss ->
  defaultThresholds (fst (updateGlobalAlert enemies ss)).
Proof.
  intros H. unfold updateGlobalAlert.
  destruct (highestAlert enemies IDLE 0). exact H.
Qed.

Lemma getStateFromLevel_default (ss : StealthSystem.t) (level : Q) :
  defaultThresholds ss ->
  (getStateFromLevel ss level = COMBAT <-> 1 <= level)
  /\ (getStateFromLevel ss level = ALERTED <-> 0.7 <= level /\ level < 1)
  /\ (getStateFromLevel ss level = SUSPICIOUS
      <-> 0.3 <= level /\ level < 0.7)
  /\ (getStateFromLevel ss level = IDLE <-> level < 0.3).
Proof.
  intros (H3 & H7 & H1). unfold getStateFromLevel. rewrite H3, H7, H1.
  destruct (Qgeb level 1.0) eqn:E1;
    [apply Qgeb_ge in E1 | apply Qgeb_lt in E1];
    (destruct (Qgeb level 0.7) eqn:E7;
      [apply Qgeb_ge in E7 | apply Qgeb_lt in E7]);
    (destruct (Qgeb level 0.3) eqn:E3;
      [apply Qgeb_ge in E3 | apply Qgeb_lt in E3]);
    repeat split; intros; try discriminate; try reflexivity;
    try lra; try (exfalso; lra).
Qed.

End Thresholds.

Section StateAfterUpdate.
Context {M : MathLib}.

Import EnemyAI.

Lemma perceive_state (k : Tick) (e : EnemyAI.t) :
  alertState (perceive k e)
  = StealthSystem.getStateFromLevel (stealthSystem k)
                                    (alertLevel (perceive k e)).
Proof. reflexivity. Qed.

Lemma update_alive (k : Tick) (e e' : EnemyAI.t) (p' : Player.t) :
  isAlive e = true -> update k e = Some (e', p') ->
  exists e1, behave k (perceive k e) = Some (e1, p')
             /\ e' = coolDown (deltaTime k) e1.
Proof.
  intros Ha. unfold update. rewrite Ha. simpl.
  destruct (behave k (perceive k e)) as [[e1 p1]|]; [|discriminate].
  intros H. inversion H; subst. now exists e1.
Qed.

Lemma LevelWrite_coolDown (k : Tick) (e e1 : EnemyAI.t) :
  LevelWrite k e e1 -> LevelWrite k e (coolDown (deltaTime k) e1).
Proof.
  destruct (coolDown_shape (deltaTime k) e1) as (c & ->).
  intros [seen H1 H2 H3 H4 H5 | H1 H2 H3 H4 | H1 H2 H3 H4].
  - now apply (GiveUp k e _ seen).
  - now apply SearchTimeout.
  - now apply TargetLost.
Qed.

Lemma update_mind (k : Tick) (e e' : EnemyAI.t) (p' : Player.t) :
  isAlive e = true -> update k e = Some (e', p') ->
  alertState e'
  = StealthSystem.getStateFromLevel (stealthSystem k)
                                    (alertLevel (perceive k e))
  /\ (alertLevel e' = alertLevel (perceive k e)
      \/ LevelWrite k (perceive k e) e').
Proof.
  intros Ha Hu.
  destruct (update_alive k e e' p' Ha Hu) as (e1 & Hb & ->).
  pose proof (behave_mind k _ _ _ Hb) as (Hst & _ & Hlv).
  split.
  - destruct (coolDown_shape (deltaTime k) e1) as (c & ->). read_fields.
    rewrite Hst. apply perceive_state.
  - destruct Hlv as [[Hl _] | Hw].
    + left. destruct (coolDown_shape (deltaTime k) e1) as (c & ->). exact Hl.
    + right. now apply LevelWrite_coolDown.
Qed.

(** C2 (as amended).  When [update] returns for a living agent, its alert
    state is the threshold function of the alert level as it stood when
    the state was recomputed, that is after decay and stimulus intake and
    before the behaviour mode ran: with the constructor's thresholds,
    [COMBAT] iff that level is at least 1, [ALERTED] iff it is in
    [[0.7, 1)], [SUSPICIOUS] iff it is in [[0.3, 0.7)], [IDLE] iff it is
    below 0.3.  The level the agent ends the tick with is that same level
    unless the behaviour mode wrote it (investigate gave up, search timed
    out, or combat lost a dead player); when it is the same, the state is
    the threshold function of the final level.  An agent whose level is
    0.35 when [update] returns is [SUSPICIOUS]. *)
Theorem alertState_after_update
    (k : Tick) (e e' : EnemyAI.t) (p' : Player.t) :
  isAlive e = true -> update k e = Some (e', p') ->
  let ss := stealthSystem k in
  let level := alertLevel (perceive k e) in
  alertState e' = StealthSystem.getStateFromLevel ss level
  /\ (alertLevel e' = level \/ LevelWrite k (perceive k e) e')
  /\ (alertLevel e' = level ->
      alertState e' = StealthSystem.getStateFromLevel ss (alertLevel e'))
  /\ (defaultThresholds ss ->
      (alertState e' = COMBAT <-> 1 <= level)
      /\ (alertState e' = ALERTED <-> 0.7 <= level /\ level < 1)
      /\ (alertState e' = SUSPICIOUS <-> 0.3 <= level /\ level < 0.7)
      /\ (alertState e' = IDLE <-> level < 0.3)
      /\ (alertLevel e' == 0.35 -> alertState e' = SUSPICIOUS)).
Proof.
  intros Ha Hu ss level.
  destruct (update_mind k e e' p' Ha Hu) as (Hstate & Hlevel).
  fold ss level in Hstate, Hlevel.
  split; [exact Hstate|]. split; [exact Hlevel|]. split.
  { intros Hsame. rewrite Hstate. now rewrite Hsame. }
  intros Hdef. rewrite Hstate.
  pose proof (getStateFromLevel_default ss level Hdef) as (Hc & Hal & Hsu & Hi).
  repeat (split; [assumption|]).
  intros H35. destruct Hlevel as [Hsame | Hw].
  - apply Hsu. rewrite Hsame in H35. lra.
  - exfalso.
    destruct Hw as [seen H1 H2 H3 H4 H5 | H1 H2 H3 H4 | H1 H2 H3 H4].
    + rewrite H4 in H35. lra.
    + rewrite perceive_state in H1. fold ss level in H1.
      apply Hal in H1. rewrite H3 in H35. fold level in H35. lra.
    + rewrite H3 in H35. lra.
Qed.

End StateAfterUpdate.

Lemma alertState_after_update_witness :
  EnemyAI.isAlive Scenario.woundedGuard = true
  /\ defaultThresholds (stealthSystem Scenario.lostTick)
  /\ exists e' p',
       update Scenario.lostTick Scenario.woundedGuard = Some (e', p')
       /\ EnemyAI.alertState e'
          = StealthSystem.getStateFromLevel
              (stealthSystem Scenario.lostTick)
              (EnemyAI.alertLevel Scenario.fighting)
       /\ (EnemyAI.alertState e' = COMBAT
           <-> 1 <= EnemyAI.alertLevel Scenario.fighting).
Proof.
  assert (Ha : EnemyAI.isAlive Scenario.woundedGuard = true) by reflexivity.
  assert (Hd : defaultThresholds (stealthSystem Scenario.lostTick))
    by (repeat split).
  split; [exact Ha|]. split; [exact Hd|].
  destruct (update Scenario.lostTick Scenario.woundedGuard)
    as [[e' p']|] eqn:Hu; [|vm_compute in Hu; discriminate Hu].
  exists e', p'. split; [reflexivity|].
  destruct (alertState_after_update
              Scenario.lostTick Scenario.woundedGuard e' p' Ha Hu)
    as (H1 & _ & _ & H4).
  split; [exact H1|]. exact (proj1 (H4 Hd)).
Defined.

(** C2, as it is written, fails when the behaviour mode writes the level:
    a guard in [COMBAT] whose target is dead ends the tick with level 0.5
    and state [COMBAT], while the threshold function of 0.5 is
    [SUSPICIOUS]. *)
Lemma combat_outlives_level :
  exists e' p',
    update Scenario.lostTick Scenario.woundedGuard = Some (e', p')
    /\ EnemyAI.alertLevel e' = 0.5
    /\ EnemyAI.alertState e' = COMBAT
    /\ StealthSystem.getStateFromLevel (stealthSystem Scenario.lostTick)
                                       (EnemyAI.alertLevel e') = SUSPICIOUS
    /\ EnemyAI.alertState e'
       <> StealthSystem.getStateFromLevel (stealthSystem Scenario.lostTick)
                                          (EnemyAI.alertLevel e').
Proof.
  eexists. eexists.
  split; [vm_compute; reflexivity|].
  repeat split. discriminate.
Qed.

(** ** [update] returns *)

Section Returns.
Context {M : MathLib}.

Import EnemyAI.

Lemma patrol_returns (dt : Q) (cs : list Collider) (t0 : Z) (e : EnemyAI.t) :
  cursorInRoute e ->
  exists e', patrol dt cs t0 e = Some e' /\ cursorInRoute e'.
Proof.
  intros Hc. unfold patrol.
  destruct (Nat.eqb (List.length (patrolRoute e)) 0) eqn:Hlen.
  - eexists. split; [reflexivity|]. left. read_fields.
    apply Nat.eqb_eq in Hlen. now apply length_zero_iff_nil.
  - apply Nat.eqb_neq in Hlen.
    destruct Hc as [Hc|Hc]; [rewrite Hc in Hlen; now elim Hlen|].
    destruct (Qgtb (patrolWaitTime e) 0).
    + eexists. split; [reflexivity|]. right. read_fields. exact Hc.
    + destruct (nth_error (patrolRoute e) (currentPatrolIndex e))
        as [target|] eqn:Hn.
      * destruct (Qltb _ 0.5).
        -- eexists. split; [reflexivity|]. right. read_fields.
           now apply Nat.mod_upper_bound.
        -- eexists. split; [reflexivity|]. right. expose_motion.
           read_fields. exact Hc.
      * apply nth_error_None in Hn. lia.
Qed.

Lemma behave_returns (k : Tick) (e : EnemyAI.t) :
  cursorInRoute e ->
  exists e' p', behave k e = Some (e', p') /\ cursorInRoute e'.
Proof.
  intros Hc. unfold behave. destruct (alertState e).
  - destruct (patrol_returns (deltaTime k) (colliders k) (now k) e Hc)
      as (e' & -> & Hc').
    now exists e', (player k).
  - unfold investigate. destruct (lastKnownPlayerPos e) as [seen|].
    + eexists. eexists. split.
      * match goal with
        | |- context [if ?b then Some ?a else Some ?c] =>
            replace (if b then Some a else Some c)
              with (Some (if b then a else c)) by (now destruct b)
        end.
        reflexivity.
      * unfold cursorInRoute in *.
        split_tests; expose_motion; simpl; exact Hc.
    + destruct (patrol_returns (deltaTime k) (colliders k) (now k) e Hc)
        as (e' & -> & Hc').
      now exists e', (player k).
  - eexists. eexists. split; [reflexivity|].
    unfold cursorInRoute, search in *.
    split_tests; expose_motion; simpl; exact Hc.
  - destruct (combat (deltaTime k) (player k) (colliders k) (rnd k) e)
      as [e' p'] eqn:Hcom.
    exists e', p'. split; [reflexivity|].
    assert (He : e' = fst (combat (deltaTime k) (player k) (colliders k)
                                  (rnd k) e)) by now rewrite Hcom.
    rewrite He. clear He Hcom.
    unfold cursorInRoute, combat, shoot in *.
    split_tests; expose_motion; simpl; exact Hc.
Qed.

Lemma perceive_cursor (k : Tick) (e : EnemyAI.t) :
  cursorInRoute e -> cursorInRoute (perceive k e).
Proof.
  destruct (perceive_shape k e) as (l & s & p & ->). intros H. exact H.
Qed.

Lemma update_returns (k : Tick) (e : EnemyAI.t) :
  cursorInRoute e ->
  exists e' p', update k e = Some (e', p') /\ cursorInRoute e'.
Proof.
  intros Hc. unfold update. destruct (isAlive e); simpl.
  - destruct (behave_returns k (perceive k e) (perceive_cursor k e Hc))
      as (e1 & p1 & -> & Hc1).
    eexists. eexists. split; [reflexivity|].
    destruct (coolDown_shape (deltaTime k) e1) as (c & ->). exact Hc1.
  - now exists e, (player k).
Qed.

Lemma run_returns (ticks : list Tick) (e : EnemyAI.t) :
  cursorInRoute e -> exists e', run ticks e = Some e' /\ cursorInRoute e'.
Proof.
  revert e. induction ticks as [|k later IH]; intros e Hc; simpl.
  - now exists e.
  - destruct (update_returns k e Hc) as (e1 & p1 & -> & Hc1).
    apply IH, Hc1.
Qed.

Lemma new_cursorInRoute (n : nat) (p : Vector3) (route : list Vector3)
    (target : bool) :
  cursorInRoute (EnemyAI.new n p route target).
Proof.
  destruct route as [|w route]; [now left | right; simpl; lia].
Qed.

End Returns.

(** ** The alert level stays non-negative *)

Section NonNegative.
Context {M : MathLib}.

Import EnemyAI.

Lemma decayAlert_level (dt : Q) (e : EnemyAI.t) :
  (0 < alertLevel e -> alertState e <> COMBAT ->
     (alertLevel e - alertDecayRate e * dt < 0 ->
        alertLevel (decayAlert dt e) = 0)
     /\ (0 <= alertLevel e - alertDecayRate e * dt ->
        alertLevel (decayAlert dt e) = alertLevel e - alertDecayRate e * dt))
  /\ (alertLevel e <= 0 \/ alertState e = COMBAT -> decayAlert dt e = e).
Proof.
  unfold decayAlert. split.
  - intros Hpos Hst. apply Qgtb_gt in Hpos. rewrite Hpos.
    destruct (AlertState_eqb (alertState e) COMBAT) eqn:Heq;
      [apply AlertState_eqb_eq in Heq; contradiction|].
    cbn [andb negb]. read_fields. split; intros H.
    + apply Qltb_lt in H. now rewrite H.
    + apply Qltb_ge in H. now rewrite H.
  - intros [Hle | Hst].
    + apply Qgtb_le in Hle. now rewrite Hle.
    + rewrite Hst. cbn [AlertState_eqb negb]. now rewrite andb_false_r.
Qed.

Lemma decayAlert_nonneg (dt : Q) (e : EnemyAI.t) :
  0 <= alertLevel e -> 0 <= alertLevel (decayAlert dt e).
Proof.
  intros H0. unfold decayAlert.
  destruct (Qgtb (alertLevel e) 0 && _); [|exact H0].
  read_fields.
  destruct (Qltb _ 0) eqn:Hneg; read_fields.
  - apply Qle_refl.
  - now apply Qltb_ge in Hneg.
Qed.

Lemma senseSight_level (k : Tick) (e : EnemyAI.t) :
  alertLevel e <= alertLevel (senseSight k e).
Proof.
  unfold senseSight.
  destruct (Qgtb _ 0) eqn:Hd; read_fields; [|apply Qle_refl].
  apply Qgtb_gt in Hd. lra.
Qed.

Lemma senseSound_level (k : Tick) (e : EnemyAI.t) :
  alertLevel e <= alertLevel (senseSound k e).
Proof.
  unfold senseSound.
  destruct (StealthSystem.checkSoundDetection _ _ _) as [h|];
    [|apply Qle_refl].
  destruct (String.eqb _ _); [|apply Qle_refl].
  read_fields. destruct (lastKnownPlayerPos e); read_fields; apply max_l.
Qed.

Lemma perceive_nonneg (k : Tick) (e : EnemyAI.t) :
  0 <= alertLevel e -> 0 <= alertLevel (perceive k e).
Proof.
  intros H0. unfold perceive, refreshState. read_fields.
  eapply Qle_trans; [|apply senseSound_level].
  eapply Qle_trans; [|apply senseSight_level].
  now apply decayAlert_nonneg.
Qed.

Lemma update_nonneg (k : Tick) (e e' : EnemyAI.t) (p' : Player.t) :
  defaultThresholds (stealthSystem k) ->
  0 <= alertLevel e -> update k e = Some (e', p') -> 0 <= alertLevel e'.
Proof.
  intros Hdef H0 Hu.
  destruct (isAlive e) eqn:Ha.
  - pose proof (perceive_nonneg k e H0) as Hp.
    destruct (update_mind k e e' p' Ha Hu) as (_ & [Hsame | Hw]).
    + now rewrite Hsame.
    + destruct Hw as [seen H1 H2 H3 H4 H5 | H1 H2 H3 H4 | H1 H2 H3 H4].
      * rewrite H4. apply Qle_refl.
      * rewrite perceive_state in H1.
        apply (getStateFromLevel_default _ _ Hdef) in H1.
        rewrite H3. lra.
      * rewrite H3. discriminate.
  - unfold update in Hu. rewrite Ha in Hu.
    inversion Hu; subst. exact H0.
Qed.

Lemma run_nonneg (ticks : list Tick) (e e' : EnemyAI.t) :
  (forall k, In k ticks -> defaultThresholds (stealthSystem k)) ->
  0 <= alertLevel e -> run ticks e = Some e' -> 0 <= alertLevel e'.
Proof.
  revert e. induction ticks as [|k later IH]; intros e Hdef H0; simpl.
  - intros H. inversion H; subst. exact H0.
  - destruct (update k e) as [[e1 p1]|] eqn:Hu; [|discriminate].
    apply IH.
    + intros k' Hin. apply Hdef. now right.
    + apply (update_nonneg k e e1 p1); trivial. apply Hdef. now left.
Qed.

End NonNegative.

Section NeverNegative.
Context {M : MathLib}.

Import EnemyAI.

(** C7.  The alert level is never negative at the end of a tick.  Passive
    decay runs only when the level is above 0 and the state is not
    [COMBAT]; it subtracts [alertDecayRate * deltaTime] and stops at 0.
    With the constructor's thresholds, [update] keeps a non-negative level
    non-negative whatever the behaviour mode does (reset to 0, minus 0.3
    from a level of at least 0.7, or 0.5), so every run of ticks from any
    agent with a non-negative level, and in particular from a newly
    constructed agent, returns and ends with a non-negative level. *)
Theorem alertLevel_never_negative :
  (forall dt e,
      (0 < alertLevel e -> alertState e <> COMBAT ->
         (alertLevel e - alertDecayRate e * dt < 0 ->
            alertLevel (decayAlert dt e) = 0)
         /\ (0 <= alertLevel e - alertDecayRate e * dt ->
            alertLevel (decayAlert dt e)
            = alertLevel e - alertDecayRate e * dt))
      /\ (alertLevel e <= 0 \/ alertState e = COMBAT -> decayAlert dt e = e))
  /\ (forall k e e' p',
        defaultThresholds (stealthSystem k) ->
        0 <= alertLevel e -> update k e = Some (e', p') ->
        0 <= alertLevel e')
  /\ (forall ticks e,
        (forall k, In k ticks -> defaultThresholds (stealthSystem k)) ->
        cursorInRoute e -> 0 <= alertLevel e ->
        exists e', run ticks e = Some e' /\ 0 <= alertLevel e')
  /\ (forall ticks n p route target,
        (forall k, In k ticks -> defaultThresholds (stealthSystem k)) ->
        exists e', run ticks (EnemyAI.new n p route target) = Some e'
                   /\ 0 <= alertLevel e').
Proof.
  assert (Hrun : forall ticks e,
        (forall k, In k ticks -> defaultThresholds (stealthSystem k)) ->
        cursorInRoute e -> 0 <= alertLevel e ->
        exists e', run ticks e = Some e' /\ 0 <= alertLevel e').
  { intros ticks e Hdef Hc H0.
    destruct (run_returns ticks e Hc) as (e' & Hr & _).
    exists e'. split; [exact Hr|]. exact (run_nonneg ticks e e' Hdef H0 Hr). }
  split; [exact decayAlert_level|].
  split; [exact update_nonneg|].
  split; [exact Hrun|].
  intros ticks n p route target Hdef.
  apply Hrun; trivial.
  - apply new_cursorInRoute.
  - apply Qle_refl.
Qed.

End NeverNegative.

Lemma alertLevel_never_negative_witness :
  (forall k, In k Scenario.watchTicks -> defaultThresholds (stealthSystem k))
  /\ exists e',
       run Scenario.watchTicks Scenario.guard = Some e'
       /\ 0 <= EnemyAI.alertLevel e'.
Proof.
  assert (Hdef : forall k, In k Scenario.watchTicks ->
                           defaultThresholds (stealthSystem k)).
  { intros k [<- | [<- | []]]; repeat split. }
  split; [exact Hdef|].
  destruct alertLevel_never_negative as (_ & _ & _ & H).
  exact (H Scenario.watchTicks 1%nat Scenario.origin [] false Hdef).
Defined.

(** ** Sightings *)

Section Sightings.
Context {M : MathLib}.

Import EnemyAI.

Lemma checkDetection_ignores_level
    (ss : StealthSystem.t) (l : Q) (e : EnemyAI.t) (p : Player.t) (dt : Q) :
  StealthSystem.checkDetection ss (set_alertLevel l e) p dt
  = StealthSystem.checkDetection ss e p dt.
Proof. reflexivity. Qed.

Lemma checkDetection_after_decay (k : Tick) (e : EnemyAI.t) :
  StealthSystem.checkDetection (stealthSystem k) (decayAlert (deltaTime k) e)
                               (player k) (deltaTime k)
  = StealthSystem.checkDetection (stealthSystem k) e (player k) (deltaTime k).
Proof.
  destruct (decayAlert_shape (deltaTime k) e) as (l & ->).
  apply checkDetection_ignores_level.
Qed.

Lemma senseSound_keeps_sighting (k : Tick) (e : EnemyAI.t) (seen : Vector3) :
  lastKnownPlayerPos e = Some seen ->
  lastKnownPlayerPos (senseSound k e) = Some seen.
Proof.
  intros H. unfold senseSound.
  destruct (StealthSystem.checkSoundDetection _ _ _) as [h|]; [|exact H].
  destruct (String.eqb _ _); [|exact H].
  read_fields. rewrite H. exact H.
Qed.

(** C10.  In a tick in which the detection amount of a living agent is
    strictly positive, the stimulus intake of [update] adds the amount to
    the alert level and sets [lastKnownPlayerPos] to the player's current
    position, whatever the agent's alert state is; a gunshot heard in the
    same tick does not replace it, so this is the position the behaviour
    mode starts from.  When [update] returns the field still holds it, or
    has been cleared by an investigation that gave up in this very
    tick. *)
Theorem sighting_sets_lastKnown (k : Tick) (e : EnemyAI.t) (s : AlertState) :
  alertState e = s ->
  0 < StealthSystem.checkDetection (stealthSystem k) e (player k)
                                   (deltaTime k) ->
  let e0 := decayAlert (deltaTime k) e in
  lastKnownPlayerPos (senseSight k e0) = Some (Player.position (player k))
  /\ alertLevel (senseSight k e0)
     = alertLevel e0
       + StealthSystem.checkDetection (stealthSystem k) e (player k)
                                      (deltaTime k)
  /\ lastKnownPlayerPos (perceive k e) = Some (Player.position (player k))
  /\ (forall e' p',
        isAlive e = true -> update k e = Some (e', p') ->
        lastKnownPlayerPos e' = Some (Player.position (player k))
        \/ (alertState e' = SUSPICIOUS
            /\ investigateDuration e < investigateTime e + deltaTime k
            /\ lastKnownPlayerPos e' = None)).
Proof.
  intros _ Hseen e0.
  assert (Hsight : lastKnownPlayerPos (senseSight k e0)
                   = Some (Player.position (player k))
                   /\ alertLevel (senseSight k e0)
                      = alertLevel e0
                        + StealthSystem.checkDetection
                            (stealthSystem k) e (player k) (deltaTime k)).
  { unfold senseSight. subst e0. rewrite checkDetection_after_decay.
    apply Qgtb_gt in Hseen. rewrite Hseen. read_fields. now split. }
  destruct Hsight as [Hpos Hlevel].
  assert (Hper : lastKnownPlayerPos (perceive k e)
                 = Some (Player.position (player k))).
  { unfold perceive, refreshState. read_fields.
    now apply senseSound_keeps_sighting. }
  repeat (split; [assumption|]).
  intros e' p' Ha Hu.
  destruct (update_alive k e e' p' Ha Hu) as (e1 & Hb & ->).
  pose proof (behave_mind k _ _ _ Hb) as (Hst & _ & Hlv).
  destruct (coolDown_shape (deltaTime k) e1) as (c & ->). read_fields.
  destruct Hlv as [[_ [Hsame | [_ Hnew]]] | Hw].
  - left. now rewrite Hsame.
  - left. exact Hnew.
  - destruct Hw as [seen H1 H2 H3 H4 H5 | H1 H2 H3 H4 | H1 H2 H3 H4].
    + right. rewrite Hst. repeat split; trivial.
      destruct (perceive_shape k e) as (l & s' & q & Hshape).
      rewrite Hshape in H3. exact H3.
    + left. now rewrite H4.
    + left. now rewrite H4.
Qed.

End Sightings.

Lemma sighting_sets_lastKnown_witness :
  0 < StealthSystem.checkDetection Scenario.quiet Scenario.guard
                                   Scenario.inView 0.1
  /\ EnemyAI.lastKnownPlayerPos (perceive Scenario.watchTick Scenario.guard)
     = Some (vec3 0 0 (-5)).
Proof.
  assert (Hseen : 0 < StealthSystem.checkDetection
                        Scenario.quiet Scenario.guard Scenario.inView 0.1)
    by (vm_compute; reflexivity).
  split; [exact Hseen|].
  exact (proj1 (proj2 (proj2
    (sighting_sets_lastKnown Scenario.watchTick Scenario.guard IDLE
                             eq_refl Hseen)))).
Defined.

(** ** Perception *)

Section Perception.
Context {M : MathLib}.

Import StealthSystem.

(** [checkDetection] in terms of the sightline. *)
Lemma checkDetection_gates
    (ss : StealthSystem.t) (e : EnemyAI.t) (p : Player.t) (dt : Q) :
  checkDetection ss e p dt
  = if negb (Player.isAlive p) then 0
    else if Qgtb (sightDistance e p) (EnemyAI.detectionRange e) then 0
    else if Qgtb (sightAngle e p) (EnemyAI.detectionAngle e) then 0
    else if negb (hasLineOfSight ss (enemyEye e) (playerEye p)) then 0
    else detectionSpeed ss (EnemyAI.alertState e)
         * (1 + (1 - sightDistance e p / EnemyAI.detectionRange e))
         * (0.5 + (1 - sightAngle e p / EnemyAI.detectionAngle e) * 0.5)
         * Player.getVisibilityMultiplier p
         * LevelBuilder.getLightingModifier (levelBuilder ss)
                                            (Player.position p)
         * dt.
Proof. reflexivity. Qed.

Lemma blocked_by_hit
    (ss : StealthSystem.t) (e : EnemyAI.t) (p : Player.t) (hit : Q) :
  In hit (sightHits ss e p) -> hit < sightDistance e p - 0.1 ->
  hasLineOfSight ss (enemyEye e) (playerEye p) = false.
Proof.
  intros Hin Hlt. unfold hasLineOfSight.
  destruct (forallb _ _) eqn:Hall; trivial.
  rewrite forallb_forall in Hall. specialize (Hall hit Hin).
  apply Qltb_lt in Hlt. unfold sightDistance in Hlt.
  rewrite Hlt in Hall. discriminate.
Qed.

Lemma visibility_positive (p : Player.t) : 0 < Player.getVisibilityMultiplier p.
Proof.
  unfold Player.getVisibilityMultiplier.
  destruct (Player.isCrouching p), (Player.isRunning p), (Player.isMoving p);
    reflexivity.
Qed.

Lemma lighting_positive (lb : LevelBuilder.t) (pos : Vector3) :
  0 < LevelBuilder.getLightingModifier lb pos.
Proof.
  unfold LevelBuilder.getLightingModifier.
  destruct (LevelBuilder.isInLightZone lb pos);
    [|destruct (LevelBuilder.isInDarkZone lb pos)]; reflexivity.
Qed.

(** C1.  [checkDetection] returns 0 when the player is not alive, when the
    eye-level distance exceeds [detectionRange], when the angle between
    the agent's forward vector and the direction to the player exceeds
    [detectionAngle], and when [hasLineOfSight] reports the sightline
    blocked, which it does as soon as the ray hits static geometry more
    than 0.1 before the player, whatever the distance and the angle are.
    When every check passes it returns
    [rate * (1 + (1 - distance / range))
          * (0.5 + 0.5 * (1 - angle / halfAngle))
          * visibility * lighting * deltaTime],
    where [rate] is the detection speed of the agent's alert state; the
    speeds installed by the constructor increase strictly from [IDLE] to
    [COMBAT]. *)
Theorem checkDetection_spec
    (ss : StealthSystem.t) (e : EnemyAI.t) (p : Player.t) (dt : Q) :
  let distance := sightDistance e p in
  let angle := sightAngle e p in
  (Player.isAlive p = false -> checkDetection ss e p dt = 0)
  /\ (EnemyAI.detectionRange e < distance -> checkDetection ss e p dt = 0)
  /\ (EnemyAI.detectionAngle e < angle -> checkDetection ss e p dt = 0)
  /\ (hasLineOfSight ss (enemyEye e) (playerEye p) = false ->
      checkDetection ss e p dt = 0)
  /\ (forall hit,
        In hit (sightHits ss e p) -> hit < distance - 0.1 ->
        checkDetection ss e p dt = 0)
  /\ (Player.isAlive p = true ->
      distance <= EnemyAI.detectionRange e ->
      angle <= EnemyAI.detectionAngle e ->
      hasLineOfSight ss (enemyEye e) (playerEye p) = true ->
      checkDetection ss e p dt
      == detectionSpeed ss (EnemyAI.alertState e)
         * (1 + (1 - distance / EnemyAI.detectionRange e))
         * (0.5 + 0.5 * (1 - angle / EnemyAI.detectionAngle e))
         * Player.getVisibilityMultiplier p
         * LevelBuilder.getLightingModifier (levelBuilder ss)
                                            (Player.position p)
         * dt)
  /\ (forall sc lb,
        let rate := detectionSpeed (StealthSystem.new sc lb) in
        rate IDLE < rate SUSPICIOUS /\ rate SUSPICIOUS < rate ALERTED
        /\ rate ALERTED < rate COMBAT).
Proof.
  intros distance angle.
  assert (Hblocked : hasLineOfSight ss (enemyEye e) (playerEye p) = false ->
                     checkDetection ss e p dt = 0).
  { intros H. rewrite checkDetection_gates, H.
    cbn [negb]. now split_tests. }
  split; [|split; [|split; [|split; [|split; [|split]]]]].
  - intros H. rewrite checkDetection_gates, H. reflexivity.
  - intros H. rewrite checkDetection_gates.
    apply Qgtb_gt in H. fold distance. rewrite H. now split_tests.
  - intros H. rewrite checkDetection_gates.
    apply Qgtb_gt in H. fold angle. rewrite H. now split_tests.
  - exact Hblocked.
  - intros hit Hin Hlt. apply Hblocked.
    now apply (blocked_by_hit ss e p hit).
  - intros Ha Hd Hang Hlos. rewrite checkDetection_gates.
    apply Qgtb_le in Hd, Hang. fold distance angle.
    rewrite Ha, Hd, Hang, Hlos. cbn [negb]. ring.
  - intros sc lb rate. repeat split.
Qed.

End Perception.

Lemma checkDetection_spec_witness :
  Player.isAlive Scenario.inView = true
  /\ sightDistance Scenario.guard Scenario.inView
     <= EnemyAI.detectionRange Scenario.guard
  /\ sightAngle Scenario.guard Scenario.inView
     <= EnemyAI.detectionAngle Scenario.guard
  /\ StealthSystem.checkDetection Scenario.quiet Scenario.guard
                                  Scenario.inView 0.1
     == StealthSystem.detectionSpeed Scenario.quiet IDLE
        * (1 + (1 - sightDistance Scenario.guard Scenario.inView / 12))
        * (0.5 + 0.5 * (1 - sightAngle Scenario.guard Scenario.inView
                            / (Math.PI / 3)))
        * Player.getVisibilityMultiplier Scenario.inView
        * LevelBuilder.getLightingModifier Scenario.plainLevel
                                           (Player.position Scenario.inView)
        * 0.1
  /\ StealthSystem.checkDetection Scenario.walled Scenario.guard
                                  Scenario.inView 0.1
     = 0.
Proof.
  assert (Ha : Player.isAlive Scenario.inView = true) by reflexivity.
  assert (Hd : sightDistance Scenario.guard Scenario.inView
               <= EnemyAI.detectionRange Scenario.guard)
    by (vm_compute; discriminate).
  assert (Hang : sightAngle Scenario.guard Scenario.inView
                 <= EnemyAI.detectionAngle Scenario.guard)
    by (vm_compute; discriminate).
  assert (Hlos : StealthSystem.hasLineOfSight
                   Scenario.quiet (enemyEye Scenario.guard)
                   (playerEye Scenario.inView) = true) by reflexivity.
  assert (Hhit : In 2 (sightHits Scenario.walled Scenario.guard
                                 Scenario.inView))
    by (left; reflexivity).
  assert (Hnear : 2 < sightDistance Scenario.guard Scenario.inView - 0.1)
    by (vm_compute; reflexivity).
  pose proof (checkDetection_spec Scenario.quiet Scenario.guard
                                  Scenario.inView 0.1)
    as (_ & _ & _ & _ & _ & Hrate & _).
  pose proof (checkDetection_spec Scenario.walled Scenario.guard
                                  Scenario.inView 0.1)
    as (_ & _ & _ & _ & Hwall & _).
  exact (conj Ha (conj Hd (conj Hang
           (conj (Hrate Ha Hd Hang Hlos) (Hwall 2 Hhit Hnear))))).
Defined.

(** ** Detection and distance *)

Section Distance.
Context {M : MathLib}.

Import StealthSystem.

Lemma distance_factor_ge_1 (d r : Q) : 0 < r -> d <= r -> 1 <= 1 + (1 - d / r).
Proof.
  intros Hr Hd.
  assert (d / r <= 1) by (apply Qle_shift_div_r; [exact Hr | lra]).
  lra.
Qed.

Lemma distance_factor_decreases (d1 d2 r : Q) :
  0 < r -> d1 < d2 -> 1 + (1 - d2 / r) < 1 + (1 - d1 / r).
Proof.
  intros Hr Hd.
  assert (d1 / r < d2 / r).
  { unfold Qdiv. apply Qmult_lt_compat_r; [|exact Hd].
    now apply Qinv_lt_0_compat. }
  lra.
Qed.

Lemma angle_factor_positive (a h : Q) :
  0 < h -> a <= h -> 0 < 0.5 + (1 - a / h) * 0.5.
Proof.
  intros Hh Ha.
  assert (a / h <= 1) by (apply Qle_shift_div_r; [exact Hh | lra]).
  lra.
Qed.

Lemma product_positive (s f a v l dt : Q) :
  0 < s -> 0 < f -> 0 < a -> 0 < v -> 0 < l -> 0 < dt ->
  0 < s * f * a * v * l * dt.
Proof.
  intros. repeat apply Qmult_lt_0_compat; assumption.
Qed.

(** C4 (as amended).  Take one observer and two placements of a living
    target that are both inside the field of view under the same angle,
    both unoccluded, with the same visibility and lighting modifiers, and
    a positive [deltaTime], detection speed, range and half-angle.  Then
    the detection amount is strictly smaller at the placement that is
    farther away, as long as that one is within [detectionRange]; at a
    distance equal to [detectionRange] the amount is still strictly
    positive; strictly beyond [detectionRange] it is exactly 0. *)
Theorem detection_falls_with_distance
    (ss : StealthSystem.t) (e : EnemyAI.t) (p1 p2 : Player.t) (dt : Q) :
  Player.isAlive p1 = true -> Player.isAlive p2 = true ->
  sightAngle e p1 == sightAngle e p2 ->
  sightAngle e p1 <= EnemyAI.detectionAngle e ->
  hasLineOfSight ss (enemyEye e) (playerEye p1) = true ->
  hasLineOfSight ss (enemyEye e) (playerEye p2) = true ->
  Player.getVisibilityMultiplier p1 == Player.getVisibilityMultiplier p2 ->
  LevelBuilder.getLightingModifier (levelBuilder ss) (Player.position p1)
  == LevelBuilder.getLightingModifier (levelBuilder ss) (Player.position p2) ->
  0 < EnemyAI.detectionRange e -> 0 < EnemyAI.detectionAngle e ->
  0 < detectionSpeed ss (EnemyAI.alertState e) -> 0 < dt ->
  (sightDistance e p1 < sightDistance e p2 ->
   sightDistance e p2 <= EnemyAI.detectionRange e ->
   checkDetection ss e p2 dt < checkDetection ss e p1 dt)
  /\ (sightDistance e p2 == EnemyAI.detectionRange e ->
      0 < checkDetection ss e p2 dt)
  /\ (EnemyAI.detectionRange e < sightDistance e p2 ->
      checkDetection ss e p2 dt = 0).
Proof.
  intros Ha1 Ha2 Hang Hfov Hlos1 Hlos2 Hvis Hlight Hr Hh Hs Hdt.
  assert (Hfov2 : sightAngle e p2 <= EnemyAI.detectionAngle e)
    by (rewrite <- Hang; exact Hfov).
  pose proof (angle_factor_positive _ _ Hh Hfov2) as HA.
  pose proof (visibility_positive p2) as HV.
  pose proof (lighting_positive (levelBuilder ss) (Player.position p2)) as HL.
  assert (Hpos : sightDistance e p2 <= EnemyAI.detectionRange e ->
                 0 < checkDetection ss e p2 dt).
  { intros Hd. rewrite checkDetection_gates.
    pose proof (distance_factor_ge_1 _ _ Hr Hd) as HF.
    apply Qgtb_le in Hd, Hfov2. rewrite Ha2, Hd, Hfov2, Hlos2. cbn [negb].
    apply product_positive; trivial. lra. }
  split; [|split].
  - intros Hlt Hd2.
    assert (Hd1 : sightDistance e p1 <= EnemyAI.detectionRange e) by lra.
    pose proof (distance_factor_decreases _ _ _ Hr Hlt) as HF.
    rewrite !checkDetection_gates.
    apply Qgtb_le in Hd1, Hd2, Hfov, Hfov2.
    rewrite Ha1, Ha2, Hd1, Hd2, Hfov, Hfov2, Hlos1, Hlos2. cbn [negb].
    rewrite Hang, Hvis, Hlight.
    repeat (apply Qmult_lt_compat_r; [assumption|]).
    apply Qmult_lt_l; assumption.
  - intros Heq. apply Hpos. rewrite Heq. apply Qle_refl.
  - intros Hfar. rewrite checkDetection_gates.
    apply Qgtb_gt in Hfar. rewrite Ha2, Hfar. reflexivity.
Qed.

End Distance.

Lemma detection_falls_with_distance_witness :
  sightAngle Scenario.guard Scenario.nearCrouch
  == sightAngle Scenario.guard Scenario.farCrouch
  /\ sightDistance Scenario.guard Scenario.nearCrouch
     < sightDistance Scenario.guard Scenario.farCrouch
  /\ sightDistance Scenario.guard Scenario.farCrouch
     <= EnemyAI.detectionRange Scenario.guard
  /\ StealthSystem.checkDetection Scenario.quiet Scenario.guard
                                  Scenario.farCrouch 0.1
     < StealthSystem.checkDetection Scenario.quiet Scenario.guard
                                    Scenario.nearCrouch 0.1.
Proof.
  assert (Hang : sightAngle Scenario.guard Scenario.nearCrouch
                 == sightAngle Scenario.guard Scenario.farCrouch)
    by (vm_compute; reflexivity).
  assert (Hfov : sightAngle Scenario.guard Scenario.nearCrouch
                 <= EnemyAI.detectionAngle Scenario.guard)
    by (vm_compute; discriminate).
  assert (Hlt : sightDistance Scenario.guard Scenario.nearCrouch
                < sightDistance Scenario.guard Scenario.farCrouch)
    by (vm_compute; reflexivity).
  assert (Hd : sightDistance Scenario.guard Scenario.farCrouch
               <= EnemyAI.detectionRange Scenario.guard)
    by (vm_compute; discriminate).
  assert (Hvis : Player.getVisibilityMultiplier Scenario.nearCrouch
                 == Player.getVisibilityMultiplier Scenario.farCrouch)
    by reflexivity.
  assert (Hlight :
            LevelBuilder.getLightingModifier
              (StealthSystem.levelBuilder Scenario.quiet)
              (Player.position Scenario.nearCrouch)
            == LevelBuilder.getLightingModifier
                 (StealthSystem.levelBuilder Scenario.quiet)
                 (Player.position Scenario.farCrouch))
    by reflexivity.
  pose proof (detection_falls_with_distance
                Scenario.quiet Scenario.guard Scenario.nearCrouch
                Scenario.farCrouch 0.1 eq_refl eq_refl Hang Hfov eq_refl
                eq_refl Hvis Hlight eq_refl eq_refl eq_refl eq_refl)
    as (Hfall & _ & _).
  exact (conj Hang (conj Hlt (conj Hd (Hfall Hlt Hd)))).
Defined.

(** C4, as it is written, fails at a distance equal to [detectionRange]:
    the range test lets it pass, and the amount is positive, not 0.  It
    also fails behind an obstacle, where the amount is 0 at every distance
    and so does not decrease. *)
Lemma detection_at_range_limit :
  (sightDistance Scenario.shortSighted Scenario.nearCrouch
   == EnemyAI.detectionRange Scenario.shortSighted
   /\ 0 < StealthSystem.checkDetection Scenario.quiet Scenario.shortSighted
                                       Scenario.nearCrouch 0.1
   /\ ~ StealthSystem.checkDetection Scenario.quiet Scenario.shortSighted
                                     Scenario.nearCrouch 0.1 == 0)
  /\ (sightDistance Scenario.guard Scenario.nearCrouch
      < sightDistance Scenario.guard Scenario.farCrouch
      /\ sightDistance Scenario.guard Scenario.farCrouch
         <= EnemyAI.detectionRange Scenario.guard
      /\ ~ StealthSystem.checkDetection Scenario.screened Scenario.guard
                                        Scenario.farCrouch 0.1
           < StealthSystem.checkDetection Scenario.screened Scenario.guard
                                          Scenario.nearCrouch 0.1).
Proof.
  repeat split; vm_compute; discriminate.
Qed.

(** ** The global alert *)

Section GlobalAlert.

Import StealthSystem.

Lemma highestAlert_spec (enemies : list EnemyAI.t) (st : AlertState) (lv : Q) :
  (highestAlert enemies st lv = (st, lv)
   /\ forall a, In a enemies -> EnemyAI.alertLevel a <= lv)
  \/ (exists before a after,
        enemies = before ++ a :: after
        /\ lv < EnemyAI.alertLevel a
        /\ (forall b, In b before ->
                      EnemyAI.alertLevel b < EnemyAI.alertLevel a)
        /\ (forall b, In b after ->
                      EnemyAI.alertLevel b <= EnemyAI.alertLevel a)
        /\ highestAlert enemies st lv
           = (EnemyAI.alertState a, EnemyAI.alertLevel a)).
Proof.
  revert st lv. induction enemies as [|e rest IH]; intros st lv.
  - left. split; [reflexivity | intros a []].
  - cbn [highestAlert].
    destruct (Qgtb (EnemyAI.alertLevel e) lv) eqn:Hgt.
    + apply Qgtb_gt in Hgt. right.
      destruct (IH (EnemyAI.alertState e) (EnemyAI.alertLevel e))
        as [[Heq Hall] | (before & a & after & Hsplit & Ha & Hb & Haf & Heq)].
      * exists [], e, rest. repeat split; trivial. intros b [].
      * exists (e :: before), a, after. subst rest.
        split; [reflexivity|]. split; [lra|].
        split; [|split; assumption].
        intros b [<- | Hin]; [exact Ha | now apply Hb].
    + apply Qgtb_le in Hgt.
      destruct (IH st lv)
        as [[Heq Hall] | (before & a & after & Hsplit & Ha & Hb & Haf & Heq)].
      * left. split; [exact Heq|].
        intros a [<- | Hin]; [exact Hgt | now apply Hall].
      * right. exists (e :: before), a, after. subst rest.
        split; [reflexivity|]. split; [exact Ha|].
        split; [|split; assumption].
        intros b [<- | Hin]; [lra | now apply Hb].
Qed.

Lemma highestAlert_ignores_alive
    (b : bool) (enemies : list EnemyAI.t) (st : AlertState) (lv : Q) :
  highestAlert (map (EnemyAI.set_isAlive b) enemies) st lv
  = highestAlert enemies st lv.
Proof.
  revert st lv. induction enemies as [|e rest IH]; intros st lv;
    [reflexivity|].
  cbn [map highestAlert]. read_fields.
  destruct (Qgtb (EnemyAI.alertLevel e) lv); apply IH.
Qed.

(** C3 (as amended).  [updateGlobalAlert] stores and returns the alert
    state and level of the first agent of the array that has the highest
    alert level, provided that level is above 0; the array is the whole
    array of agents and the alive flag is not consulted, so an agent that
    has died counts with the level and state it died with.  When no agent
    has a level above 0 the result is [IDLE] and 0. *)
Theorem updateGlobalAlert_spec
    (enemies : list EnemyAI.t) (ss : StealthSystem.t) :
  let r := updateGlobalAlert enemies ss in
  snd r = globalAlertState (fst r)
  /\ (((forall a, In a enemies -> EnemyAI.alertLevel a <= 0)
       /\ snd r = IDLE /\ globalAlertLevel (fst r) = 0)
      \/ (exists before a after,
            enemies = before ++ a :: after
            /\ 0 < EnemyAI.alertLevel a
            /\ (forall b, In b before ->
                          EnemyAI.alertLevel b < EnemyAI.alertLevel a)
            /\ (forall b, In b after ->
                          EnemyAI.alertLevel b <= EnemyAI.alertLevel a)
            /\ snd r = EnemyAI.alertState a
            /\ globalAlertLevel (fst r) = EnemyAI.alertLevel a))
  /\ (forall b,
        updateGlobalAlert (map (EnemyAI.set_isAlive b) enemies) ss = r).
Proof.
  intros r. subst r. unfold updateGlobalAlert.
  split; [|split].
  - now destruct (highestAlert enemies IDLE 0).
  - destruct (highestAlert_spec enemies IDLE 0)
      as [[Heq Hall] | (before & a & after & Hsplit & Ha & Hb & Haf & Heq)];
      rewrite Heq.
    + left. repeat split; trivial.
    + right. exists before, a, after. repeat split; trivial.
  - intros b. now rewrite highestAlert_ignores_alive.
Qed.

End GlobalAlert.

Lemma updateGlobalAlert_spec_witness :
  let r := StealthSystem.updateGlobalAlert Scenario.aftermath Scenario.quiet in
  snd r = StealthSystem.globalAlertState (fst r)
  /\ StealthSystem.updateGlobalAlert
       (map (EnemyAI.set_isAlive false) Scenario.aftermath) Scenario.quiet
     = r.
Proof.
  intros r.
  destruct (updateGlobalAlert_spec Scenario.aftermath Scenario.quiet)
    as (H1 & _ & H3).
  exact (conj H1 (H3 false)).
Defined.

(** C3, as it is written, fails once an agent has died alerted: the guard
    killed in combat keeps level 1 and [COMBAT], and the global alert takes
    them although the only living agent is [SUSPICIOUS] at 0.5. *)
Lemma dead_agent_sets_global_alert :
  EnemyAI.isAlive Scenario.killedGuard = false
  /\ aggregateOverLive Scenario.aftermath = Some (SUSPICIOUS, 0.5)
  /\ snd (StealthSystem.updateGlobalAlert Scenario.aftermath Scenario.quiet)
     = COMBAT
  /\ StealthSystem.globalAlertLevel
       (fst (StealthSystem.updateGlobalAlert Scenario.aftermath Scenario.quiet))
     = 1
  /\ aggregateOverLive Scenario.aftermath
     <> Some (snd (StealthSystem.updateGlobalAlert Scenario.aftermath
                                                   Scenario.quiet),
             StealthSystem.globalAlertLevel
               (fst (StealthSystem.updateGlobalAlert Scenario.aftermath
                                                     Scenario.quiet))).
Proof.
  repeat split. discriminate.
Qed.

(** ** Hearing *)

Section Sorting.

Import StealthSystem.

Lemma positive_minus (a b : Sound.Score) :
  Sound.positive (Sound.minus a b) = true <-> quieter b a.
Proof.
  destruct a as [x|], b as [y|]; cbn [Sound.minus Sound.positive quieter];
    try (split; [discriminate | contradiction]).
  rewrite Qgtb_gt. split; intros H; lra.
Qed.

Lemma not_positive_minus (a b : Sound.Score) :
  a <> Sound.NaN -> b <> Sound.NaN ->
  Sound.positive (Sound.minus a b) = false <-> notLouder a b.
Proof.
  destruct a as [x|], b as [y|]; try congruence. intros _ _.
  cbn [Sound.minus Sound.positive notLouder].
  rewrite Qgtb_le. split; intros H; lra.
Qed.

Lemma quieter_notLouder (a b : Sound.Score) : quieter a b -> notLouder a b.
Proof. destruct a, b; cbn; try contradiction. apply Qlt_le_weak. Qed.

Lemma notLouder_trans (a b c : Sound.Score) :
  notLouder a b -> notLouder b c -> notLouder a c.
Proof. destruct a, b, c; cbn; try contradiction. apply Qle_trans. Qed.

Lemma notLouder_refl (a : Sound.Score) : a <> Sound.NaN -> notLouder a a.
Proof. destruct a; [intros _; apply Qle_refl | congruence]. Qed.

(** The entry [sort] puts first is one of the entries; if no score is NaN
    it is strictly louder than the entries before it and at least as loud
    as those after it. *)
Lemma sortByLoudness_head (l : list Sound.heard) :
  match sortByLoudness l with
  | [] => l = []
  | h :: _ =>
      exists l1 l2,
        l = l1 ++ h :: l2
        /\ ((forall x, In x l -> Sound.hloudness x <> Sound.NaN) ->
            (forall x, In x l1 ->
                       quieter (Sound.hloudness x) (Sound.hloudness h))
            /\ (forall x, In x l2 ->
                          notLouder (Sound.hloudness x) (Sound.hloudness h)))
  end.
Proof.
  induction l as [|x l IH]; [reflexivity|].
  unfold sortByLoudness in *. cbn [fold_right].
  destruct (fold_right insertByLoudness [] l) as [|k rest].
  - subst l. exists [], []. split; [reflexivity|].
    intros _. split; intros y [].
  - destruct IH as (l1 & l2 & Hsplit & Hord).
    cbn [insertByLoudness].
    destruct (Sound.positive
                (Sound.minus (Sound.hloudness k) (Sound.hloudness x)))
      eqn:Hgt.
    + apply positive_minus in Hgt. exists (x :: l1), l2. subst l.
      split; [reflexivity|]. intros Hnum.
      destruct Hord as (H1 & H2);
        [intros y Hy; apply Hnum; now right|].
      split; [|exact H2].
      intros y [<- | Hin]; [exact Hgt | now apply H1].
    + exists [], l. split; [reflexivity|]. intros Hnum.
      destruct Hord as (H1 & H2);
        [intros y Hy; apply Hnum; now right|].
      assert (Hk : In k l) by (subst l; apply in_elt).
      apply not_positive_minus in Hgt;
        [|apply Hnum; now right | apply Hnum; now left].
      split; [intros y []|].
      intros y Hin. subst l. apply in_app_or in Hin.
      destruct Hin as [Hin | [<- | Hin]].
      * apply (notLouder_trans _ (Sound.hloudness k)); [|exact Hgt].
        apply quieter_notLouder. now apply H1.
      * exact Hgt.
      * apply (notLouder_trans _ (Sound.hloudness k)); [|exact Hgt].
        now apply H2.
Qed.

(** Conversely, without NaN scores the first entry that is louder than
    all before it and at least as loud as all after it is put first. *)
Lemma sortByLoudness_first (l1 l2 : list Sound.heard) (h : Sound.heard) :
  (forall x, In x (l1 ++ h :: l2) -> Sound.hloudness x <> Sound.NaN) ->
  (forall x, In x l1 -> quieter (Sound.hloudness x) (Sound.hloudness h)) ->
  (forall x, In x l2 -> notLouder (Sound.hloudness x) (Sound.hloudness h)) ->
  exists rest, sortByLoudness (l1 ++ h :: l2) = h :: rest.
Proof.
  intros Hnum H1 H2. induction l1 as [|x l1 IH].
  - cbn [app]. unfold sortByLoudness. cbn [fold_right].
    pose proof (sortByLoudness_head l2) as Hhead.
    unfold sortByLoudness in Hhead.
    destruct (fold_right insertByLoudness [] l2) as [|k rest];
      [now exists []|].
    destruct Hhead as (a & b & Hsplit & _).
    assert (Hk : In k l2) by (rewrite Hsplit; apply in_elt).
    cbn [insertByLoudness].
    assert (Hle : Sound.positive
                    (Sound.minus (Sound.hloudness k) (Sound.hloudness h))
                  = false).
    { apply not_positive_minus; [| |now apply H2].
      - apply Hnum. now right.
      - apply Hnum. now left. }
    rewrite Hle. now eexists.
  - destruct IH as (rest & Hrest).
    + intros y Hy. apply Hnum. now right.
    + intros y Hy. apply H1. now right.
    + cbn [app]. unfold sortByLoudness in *. cbn [fold_right].
      rewrite Hrest. cbn [insertByLoudness].
      assert (Hgt : Sound.positive
                      (Sound.minus (Sound.hloudness h) (Sound.hloudness x))
                    = true)
        by (apply positive_minus, H1; now left).
      rewrite Hgt. now eexists.
Qed.

End Sorting.

Section Hearing.
Context {M : MathLib}.

Import StealthSystem.

Lemma heardSounds_In (t0 : Z) (e : EnemyAI.t) (sources : list Sound.t)
    (s : Sound.t) (h : Sound.heard) :
  In s sources -> hear t0 e s = Some h -> In h (heardSounds t0 e sources).
Proof.
  induction sources as [|s0 rest IH]; intros Hin Hh; [destruct Hin|].
  cbn [heardSounds]. destruct Hin as [-> | Hin].
  - rewrite Hh. now left.
  - destruct (hear t0 e s0); [right|]; now apply IH.
Qed.

Lemma heardSounds_from (t0 : Z) (e : EnemyAI.t) (sources : list Sound.t)
    (h : Sound.heard) :
  In h (heardSounds t0 e sources) ->
  exists s, In s sources /\ hear t0 e s = Some h.
Proof.
  induction sources as [|s0 rest IH]; cbn [heardSounds]; [intros []|].
  destruct (hear t0 e s0) as [h0|] eqn:Hh0.
  - intros [<- | Hin].
    + exists s0. split; [now left | exact Hh0].
    + destruct (IH Hin) as (s & Hs & Hh). exists s. split; [now right|].
      exact Hh.
  - intros Hin. destruct (IH Hin) as (s & Hs & Hh). exists s.
    split; [now right | exact Hh].
Qed.

Lemma heardSounds_app (t0 : Z) (e : EnemyAI.t) (l1 l2 : list Sound.t) :
  StealthSystem.heardSounds t0 e (l1 ++ l2)
  = StealthSystem.heardSounds t0 e l1 ++ StealthSystem.heardSounds t0 e l2.
Proof.
  induction l1 as [|s rest IH]; [reflexivity|].
  cbn [app StealthSystem.heardSounds].
  destruct (StealthSystem.hear t0 e s); now rewrite IH.
Qed.

Lemma heardSounds_split (t0 : Z) (e : EnemyAI.t) (sources : list Sound.t)
    (l1 l2 : list Sound.heard) (h : Sound.heard) :
  heardSounds t0 e sources = l1 ++ h :: l2 ->
  exists before s after,
    sources = before ++ s :: after
    /\ hear t0 e s = Some h
    /\ heardSounds t0 e before = l1
    /\ heardSounds t0 e after = l2.
Proof.
  revert l1. induction sources as [|s0 rest IH]; intros l1 Hs.
  - destruct l1; discriminate.
  - cbn [heardSounds] in Hs. destruct (hear t0 e s0) as [h0|] eqn:Hh0.
    + destruct l1 as [|x l1].
      * inversion Hs; subst. exists [], s0, rest. repeat split; trivial.
      * inversion Hs; subst.
        destruct (IH l1 H1) as (before & s & after & -> & Hh & Hb & Ha).
        exists (s0 :: before), s, after. repeat split; trivial.
        cbn [heardSounds]. now rewrite Hh0, Hb.
    + destruct (IH l1 Hs) as (before & s & after & -> & Hh & Hb & Ha).
      exists (s0 :: before), s, after. repeat split; trivial.
      cbn [heardSounds]. now rewrite Hh0.
Qed.

Lemma heardSounds_nil (t0 : Z) (e : EnemyAI.t) (sources : list Sound.t) :
  heardSounds t0 e sources = [] <->
  forall s, In s sources -> hear t0 e s = None.
Proof.
  induction sources as [|s0 rest IH]; cbn [heardSounds].
  - split; [intros _ s [] | reflexivity].
  - destruct (hear t0 e s0) as [h0|] eqn:Hh0; split.
    + discriminate.
    + intros H. specialize (H s0 (or_introl eq_refl)). congruence.
    + intros H s [<- | Hin]; [exact Hh0 | now apply IH].
    + intros H. apply IH. intros s Hin. apply H. now right.
Qed.

Lemma hear_spec (t0 : Z) (e : EnemyAI.t) (s : Sound.t) :
  let distance := THREE.distanceTo (EnemyAI.position e) (Sound.position s) in
  (hear t0 e s = None <->
   (2000 < t0 - Sound.time s)%Z \/ Sound.radius s < distance)
  /\ ((t0 - Sound.time s <= 2000)%Z -> distance <= Sound.radius s ->
      (~ Sound.radius s == 0 ->
       hear t0 e s
       = Some {| Sound.hposition := Sound.position s;
                 Sound.hloudness :=
                   Sound.Finite
                     (Sound.loudness s * (1 - distance / Sound.radius s));
                 Sound.htype := Sound.type s |})
      /\ (Sound.radius s == 0 ->
          hear t0 e s
          = Some {| Sound.hposition := Sound.position s;
                    Sound.hloudness := Sound.NaN;
                    Sound.htype := Sound.type s |})).
Proof.
  intros distance. unfold hear. fold distance.
  destruct (t0 - Sound.time s >? 2000)%Z eqn:Hage.
  - split; [split; [left; lia | reflexivity] | intros; lia].
  - destruct (Qgtb distance (Sound.radius s)) eqn:Hd.
    + apply Qgtb_gt in Hd. split; [split; [now right | reflexivity]|].
      intros _ Hle. lra.
    + apply Qgtb_le in Hd. split.
      * split; [discriminate|]. intros [H | H]; [lia | lra].
      * intros _ _. destruct (Qeq_bool (Sound.radius s) 0) eqn:Hr.
        -- apply Qeq_bool_iff in Hr. split; [contradiction | reflexivity].
        -- apply Qeq_bool_neq in Hr. split; [reflexivity | contradiction].
Qed.

(** A heard score is NaN exactly for a sound of radius 0. *)
Lemma hear_score (t0 : Z) (e : EnemyAI.t) (s : Sound.t) (h : Sound.heard) :
  hear t0 e s = Some h ->
  (Sound.hloudness h = Sound.NaN <-> Sound.radius s == 0).
Proof.
  unfold hear. destruct (_ >? 2000)%Z; [discriminate|].
  destruct (Qgtb _ _); [discriminate|].
  destruct (Qeq_bool (Sound.radius s) 0) eqn:Hr; intros H; inversion H;
    subst; cbn [Sound.hloudness].
  - apply Qeq_bool_iff in Hr. tauto.
  - apply Qeq_bool_neq in Hr. split; [discriminate | contradiction].
Qed.

Lemma scoresAreNumbers_heard (t0 : Z) (e : EnemyAI.t)
    (sources : list Sound.t) :
  scoresAreNumbers t0 e sources ->
  forall x, In x (heardSounds t0 e sources) ->
            Sound.hloudness x <> Sound.NaN.
Proof.
  intros Hnum x Hin. destruct (heardSounds_from _ _ _ _ Hin) as (s & Hs & Hh).
  now apply (Hnum s x).
Qed.

End Hearing.

Section LoudestSound.
Context {M : MathLib}.

Import StealthSystem.

Lemma checkSoundDetection_none (ss : StealthSystem.t) (t0 : Z) (e : EnemyAI.t) :
  checkSoundDetection ss t0 e = None <->
  forall s, In s (soundSources ss) -> hear t0 e s = None.
Proof.
  rewrite <- heardSounds_nil. unfold checkSoundDetection.
  pose proof (sortByLoudness_head (heardSounds t0 e (soundSources ss))) as H.
  destruct (sortByLoudness _) as [|h rest].
  - now rewrite H.
  - destruct H as (l1 & l2 & -> & _). split; [discriminate|].
    intros Hnil. destruct l1; discriminate.
Qed.

Lemma checkSoundDetection_some
    (ss : StealthSystem.t) (t0 : Z) (e : EnemyAI.t) (h : Sound.heard) :
  checkSoundDetection ss t0 e = Some h ->
  exists before s after,
    soundSources ss = before ++ s :: after
    /\ hear t0 e s = Some h
    /\ (scoresAreNumbers t0 e (soundSources ss) ->
        (forall s' h', In s' before -> hear t0 e s' = Some h' ->
                       quieter (Sound.hloudness h') (Sound.hloudness h))
        /\ (forall s' h', In s' after -> hear t0 e s' = Some h' ->
                          notLouder (Sound.hloudness h')
                                    (Sound.hloudness h))).
Proof.
  unfold checkSoundDetection.
  pose proof (sortByLoudness_head (heardSounds t0 e (soundSources ss))) as H.
  destruct (sortByLoudness _) as [|k rest]; [discriminate|].
  intros Hk. inversion Hk; subst k. clear Hk.
  destruct H as (l1 & l2 & Hsplit & Hord).
  destruct (heardSounds_split _ _ _ _ _ _ Hsplit)
    as (before & s & after & Hsrc & Hh & Hb & Ha).
  exists before, s, after. split; [exact Hsrc|]. split; [exact Hh|].
  intros Hnum.
  destruct (Hord (scoresAreNumbers_heard _ _ _ Hnum)) as (H1 & H2).
  split.
  - intros s' h' Hin Hh'. apply H1. rewrite <- Hb.
    now apply (heardSounds_In t0 e before s').
  - intros s' h' Hin Hh'. apply H2. rewrite <- Ha.
    now apply (heardSounds_In t0 e after s').
Qed.

(** Without NaN scores, the first heard entry that is louder than the
    heard entries before it and at least as loud as those after it is the
    one returned. *)
Lemma checkSoundDetection_first
    (ss : StealthSystem.t) (t0 : Z) (e : EnemyAI.t)
    (before after : list Sound.t) (s : Sound.t) (h : Sound.heard) :
  soundSources ss = before ++ s :: after ->
  hear t0 e s = Some h ->
  scoresAreNumbers t0 e (soundSources ss) ->
  (forall s' h', In s' before -> hear t0 e s' = Some h' ->
                 quieter (Sound.hloudness h') (Sound.hloudness h)) ->
  (forall s' h', In s' after -> hear t0 e s' = Some h' ->
                 notLouder (Sound.hloudness h') (Sound.hloudness h)) ->
  checkSoundDetection ss t0 e = Some h.
Proof.
  intros Hsrc Hh Hnum Hb Ha. unfold checkSoundDetection.
  pose proof (scoresAreNumbers_heard _ _ _ Hnum) as Hnum'.
  rewrite Hsrc in *. rewrite heardSounds_app in *.
  cbn [heardSounds] in *. rewrite Hh in *.
  destruct (sortByLoudness_first (heardSounds t0 e before)
                                 (heardSounds t0 e after) h Hnum')
    as (rest & ->); [| |reflexivity].
  - intros x Hx. destruct (heardSounds_from _ _ _ _ Hx) as (s' & Hs' & Hh').
    now apply (Hb s' x).
  - intros x Hx. destruct (heardSounds_from _ _ _ _ Hx) as (s' & Hs' & Hh').
    now apply (Ha s' x).
Qed.

(** C5 (as amended).  [checkSoundDetection] considers the registered events
    whose age is at most 2000 ms (an event aged exactly 2000 ms is still
    heard) and whose distance to the listener is at most their radius,
    which [registerSound] fixes at [loudness * 20]; it scores each of them
    [loudness * (1 - distance / radius)], which is NaN for an event of
    radius 0, and returns one of them, or nothing when no event
    qualifies.  When no qualifying event has the radius 0, the event
    returned is the first one with the highest score.  So an event is
    never returned once it is older than 2000 ms, and a gunshot of
    loudness 1 heard 15 units away is returned with loudness 0.25. *)
Theorem checkSoundDetection_spec
    (ss : StealthSystem.t) (t0 : Z) (e : EnemyAI.t) :
  let distanceTo s :=
    THREE.distanceTo (EnemyAI.position e) (Sound.position s) in
  (forall s,
      (hear t0 e s = None <->
       (2000 < t0 - Sound.time s)%Z \/ Sound.radius s < distanceTo s)
      /\ ((t0 - Sound.time s <= 2000)%Z -> distanceTo s <= Sound.radius s ->
          (~ Sound.radius s == 0 ->
           hear t0 e s
           = Some {| Sound.hposition := Sound.position s;
                     Sound.hloudness :=
                       Sound.Finite
                         (Sound.loudness s
                          * (1 - distanceTo s / Sound.radius s));
                     Sound.htype := Sound.type s |})
          /\ (Sound.radius s == 0 ->
              hear t0 e s
              = Some {| Sound.hposition := Sound.position s;
                        Sound.hloudness := Sound.NaN;
                        Sound.htype := Sound.type s |})))
  /\ (checkSoundDetection ss t0 e = None <->
      forall s, In s (soundSources ss) -> hear t0 e s = None)
  /\ (forall h,
        checkSoundDetection ss t0 e = Some h ->
        exists before s after,
          soundSources ss = before ++ s :: after
          /\ hear t0 e s = Some h
          /\ (t0 - Sound.time s <= 2000)%Z
          /\ distanceTo s <= Sound.radius s
          /\ ((forall s', In s' (soundSources ss) -> hear t0 e s' <> None ->
                          ~ Sound.radius s' == 0) ->
              (forall s' h', In s' before -> hear t0 e s' = Some h' ->
                             quieter (Sound.hloudness h')
                                     (Sound.hloudness h))
              /\ (forall s' h', In s' after -> hear t0 e s' = Some h' ->
                                notLouder (Sound.hloudness h')
                                          (Sound.hloudness h))))
  /\ (forall before s after h,
        soundSources ss = before ++ s :: after ->
        hear t0 e s = Some h ->
        (forall s', In s' (soundSources ss) -> hear t0 e s' <> None ->
                    ~ Sound.radius s' == 0) ->
        (forall s' h', In s' before -> hear t0 e s' = Some h' ->
                       quieter (Sound.hloudness h') (Sound.hloudness h)) ->
        (forall s' h', In s' after -> hear t0 e s' = Some h' ->
                       notLouder (Sound.hloudness h') (Sound.hloudness h)) ->
        checkSoundDetection ss t0 e = Some h)
  /\ ((forall s, In s (soundSources ss) -> (2000 < t0 - Sound.time s)%Z) ->
      checkSoundDetection ss t0 e = None)
  /\ (forall pos loudness type created cleaned s,
        In s (soundSources (registerSound pos loudness type created cleaned ss))
        -> In s (soundSources ss)
           \/ s = Sound.mk pos loudness type created (loudness * 20))
  /\ (forall sc lb pos created,
        THREE.distanceTo (EnemyAI.position e) pos == 15 ->
        (0 <= t0 - created <= 2000)%Z ->
        exists h score,
          checkSoundDetection
            (registerSound pos 1 "gunshot" created created
                           (StealthSystem.new sc lb)) t0 e
          = Some h
          /\ Sound.hloudness h = Sound.Finite score /\ score == 0.25
          /\ Sound.hposition h = pos /\ Sound.htype h = "gunshot"%string).
Proof.
  intros distanceTo.
  assert (Hnumbers :
    (forall s', In s' (soundSources ss) -> hear t0 e s' <> None ->
                ~ Sound.radius s' == 0) ->
    scoresAreNumbers t0 e (soundSources ss)).
  { intros Hr s h Hin Hh Hnan.
    apply (Hr s Hin); [congruence|].
    now apply (hear_score t0 e s h Hh). }
  split; [intros s; apply hear_spec|].
  split; [apply checkSoundDetection_none|].
  split; [|split; [|split; [|split]]].
  - intros h Hh.
    destruct (checkSoundDetection_some ss t0 e h Hh)
      as (before & s & after & Hsrc & Hs & Hord).
    exists before, s, after.
    split; [exact Hsrc|]. split; [exact Hs|]. split; [|split].
    + destruct (Z.leb_spec (t0 - Sound.time s) 2000) as [Hle|Hgt]; trivial.
      assert (Hn : hear t0 e s = None)
        by (apply (proj1 (hear_spec t0 e s)); now left).
      congruence.
    + destruct (Qlt_le_dec (Sound.radius s) (distanceTo s)) as [Hgt|Hle];
        trivial.
      assert (Hn : hear t0 e s = None)
        by (apply (proj1 (hear_spec t0 e s)); now right).
      congruence.
    + intros Hr. apply Hord, Hnumbers, Hr.
  - intros before s after h Hsrc Hs Hr Hb Ha.
    apply (checkSoundDetection_first ss t0 e before after s h); trivial.
    now apply Hnumbers.
  - intros Hold. apply checkSoundDetection_none.
    intros s Hin. apply (proj1 (hear_spec t0 e s)). left. now apply Hold.
  - intros pos loudness type created cleaned s Hin.
    unfold registerSound in Hin. cbn [soundSources set_soundSources] in Hin.
    apply filter_In in Hin. destruct Hin as [Hin _].
    apply in_app_or in Hin. destruct Hin as [Hin | [<- | []]];
      [now left | now right].
  - intros sc lb pos created Hd Hage.
    unfold checkSoundDetection, registerSound.
    cbn [soundSources set_soundSources StealthSystem.new app filter
         Sound.time].
    replace (created - created <? 3000)%Z with true
      by (symmetry; apply Z.ltb_lt; lia).
    cbn [heardSounds]. unfold hear.
    cbn [Sound.time Sound.position Sound.radius Sound.loudness Sound.type].
    replace (t0 - created >? 2000)%Z with false
      by (symmetry; rewrite Z.gtb_ltb; apply Z.ltb_ge; lia).
    assert (Hin : Qgtb (THREE.distanceTo (EnemyAI.position e) pos) (1 * 20)
                  = false) by (apply Qgtb_le; rewrite Hd; discriminate).
    rewrite Hin. change (Qeq_bool (1 * 20) 0) with false. cbv iota.
    cbn [sortByLoudness fold_right insertByLoudness].
    eexists. eexists. split; [reflexivity|].
    cbn [Sound.hloudness Sound.hposition Sound.htype].
    split; [reflexivity|]. repeat split. rewrite Hd. reflexivity.
Qed.

End LoudestSound.

Lemma checkSoundDetection_spec_witness :
  THREE.distanceTo (EnemyAI.position Scenario.guard) (vec3 15 0 0) == 15
  /\ (0 <= 1000 - 0 <= 2000)%Z
  /\ exists h score,
       StealthSystem.checkSoundDetection Scenario.gunshot 1000 Scenario.guard
       = Some h
       /\ Sound.hloudness h = Sound.Finite score /\ score == 0.25
       /\ Sound.hposition h = vec3 15 0 0
       /\ Sound.htype h = "gunshot"%string.
Proof.
  assert (Hd : THREE.distanceTo (EnemyAI.position Scenario.guard)
                                (vec3 15 0 0) == 15) by reflexivity.
  assert (Hage : (0 <= 1000 - 0 <= 2000)%Z) by lia.
  destruct (checkSoundDetection_spec Scenario.quiet 1000 Scenario.guard)
    as (_ & _ & _ & _ & _ & _ & H).
  exact (conj Hd (conj Hage
           (H Scenario.openScene Scenario.plainLevel (vec3 15 0 0) 0%Z
              Hd Hage))).
Defined.

(** C5, as it is written, fails at an age of exactly 2000 ms: the gunshot
    registered at time 0 is still returned by the query made at time
    2000. *)
Lemma sound_heard_at_2000 :
  (forall s, In s (StealthSystem.soundSources Scenario.gunshot) ->
             Sound.time s = 0%Z)
  /\ exists h score,
       StealthSystem.checkSoundDetection Scenario.gunshot 2000 Scenario.guard
       = Some h
       /\ Sound.hposition h = vec3 15 0 0
       /\ Sound.hloudness h = Sound.Finite score /\ score == 0.25.
Proof.
  split.
  - intros s [<- | []]. reflexivity.
  - eexists. eexists. split; [vm_compute; reflexivity|].
    split; [reflexivity|]. split; reflexivity.
Qed.

(** A sound of loudness 0 at the listener's own place has the radius 0 and
    the score NaN; registered before a gunshot, it is what the listener
    gets back, since no comparison moves it from the first place. *)
Lemma silent_sound_is_returned :
  exists h,
    StealthSystem.checkSoundDetection Cases.hushed 1000 Scenario.guard
    = Some h
    /\ Sound.htype h = "footstep"%string
    /\ Sound.hloudness h = Sound.NaN.
Proof.
  eexists. split; [vm_compute; reflexivity|]. split; reflexivity.
Qed.

(** * Further properties *)

(** ** The detection meter and the global alert *)

Section Meter.

Import StealthSystem.

Lemma min_1_le (a : Q) : Math.min 1 a <= 1 /\ Math.min 1 a <= a.
Proof.
  unfold Math.min. destruct (Qle_bool 1 a) eqn:E.
  - apply Qle_bool_iff in E. split; [apply Qle_refl | exact E].
  - apply Qleb_gt in E. split; [lra | apply Qle_refl].
Qed.

Lemma min_1_mono (a b : Q) : a <= b -> Math.min 1 a <= Math.min 1 b.
Proof.
  intros H. unfold Math.min.
  destruct (Qle_bool 1 a) eqn:Ea; destruct (Qle_bool 1 b) eqn:Eb;
    try apply Qle_bool_iff in Ea; try apply Qle_bool_iff in Eb;
    try apply Qleb_gt in Ea; try apply Qleb_gt in Eb; lra.
Qed.

Lemma highestAlert_level (enemies : list EnemyAI.t) (st : AlertState) (lv : Q) :
  snd (highestAlert enemies st lv) = maxDetection enemies lv.
Proof.
  revert st lv. induction enemies as [|e rest IH]; intros st lv;
    [reflexivity|].
  cbn [highestAlert maxDetection].
  destruct (Qgtb (EnemyAI.alertLevel e) lv); apply IH.
Qed.

Lemma maxDetection_bounds (enemies : list EnemyAI.t) (lv : Q) :
  lv <= maxDetection enemies lv
  /\ (forall a, In a enemies -> EnemyAI.alertLevel a <= maxDetection enemies lv)
  /\ (maxDetection enemies lv = lv
      \/ exists a, In a enemies
                   /\ maxDetection enemies lv = EnemyAI.alertLevel a).
Proof.
  revert lv. induction enemies as [|e rest IH]; intros lv.
  - cbn. split; [apply Qle_refl|]. split; [intros a []|now left].
  - cbn [maxDetection].
    destruct (Qgtb (EnemyAI.alertLevel e) lv) eqn:Hgt.
    + apply Qgtb_gt in Hgt.
      destruct (IH (EnemyAI.alertLevel e)) as (H1 & H2 & H3).
      split; [lra|]. split.
      * intros a [<- | Hin]; [exact H1 | now apply H2].
      * right. destruct H3 as [H3 | (a & Hin & H3)].
        -- exists e. split; [now left | exact H3].
        -- exists a. split; [now right | exact H3].
    + apply Qgtb_le in Hgt.
      destruct (IH lv) as (H1 & H2 & H3).
      split; [exact H1|]. split.
      * intros a [<- | Hin]; [lra | now apply H2].
      * destruct H3 as [H3 | (a & Hin & H3)]; [now left|].
        right. exists a. split; [now right | exact H3].
Qed.

(** X1.  The detection meter lies between 0 and 1 and is at least the
    alert level of every agent cut off at 1; it is 1 exactly when some
    agent's level has reached 1, and 0 for an empty array.  It is the
    global alert level that [updateGlobalAlert] stores for the same array,
    cut off at 1. *)
Theorem getDetectionMeter_clamped
    (enemies : list EnemyAI.t) (ss : StealthSystem.t) :
  0 <= getDetectionMeter enemies <= 1
  /\ (forall a, In a enemies ->
                Math.min 1 (EnemyAI.alertLevel a) <= getDetectionMeter enemies)
  /\ (getDetectionMeter enemies == 1
      <-> exists a, In a enemies /\ 1 <= EnemyAI.alertLevel a)
  /\ getDetectionMeter [] = 0
  /\ getDetectionMeter enemies
     = Math.min 1 (globalAlertLevel (fst (updateGlobalAlert enemies ss))).
Proof.
  unfold getDetectionMeter.
  destruct (maxDetection_bounds enemies 0) as (H0 & Hall & Hex).
  split; [|split; [|split; [|split]]].
  - split; [|apply min_1_le].
    unfold Math.min. destruct (Qle_bool 1 _); [discriminate | exact H0].
  - intros a Hin. apply min_1_mono, Hall, Hin.
  - unfold Math.min. destruct (Qle_bool 1 (maxDetection enemies 0)) eqn:E.
    + apply Qle_bool_iff in E. split; [intros _ | reflexivity].
      destruct Hex as [Hex | (a & Hin & Hex)].
      * rewrite Hex in E. lra.
      * exists a. split; [exact Hin | now rewrite <- Hex].
    + apply Qleb_gt in E. split.
      * intros Heq. rewrite Heq in E. lra.
      * intros (a & Hin & Ha). specialize (Hall a Hin). lra.
  - reflexivity.
  - unfold updateGlobalAlert.
    rewrite <- (highestAlert_level enemies IDLE 0).
    now destruct (highestAlert enemies IDLE 0).
Qed.

End Meter.

(** ** The sound registry *)

Section Registry.
Context {M : MathLib}.

Import StealthSystem.

Lemma registerSound_In
    (pos : Vector3) (l : Q) (ty : string) (created t0 : Z)
    (ss : StealthSystem.t) (s : Sound.t) :
  In s (soundSources (registerSound pos l ty created t0 ss))
  <-> (In s (soundSources ss) \/ s = Sound.mk pos l ty created (l * 20))
      /\ (t0 - Sound.time s < 3000)%Z.
Proof.
  unfold registerSound. cbn [soundSources set_soundSources].
  rewrite filter_In, in_app_iff, Z.ltb_lt. cbn [In].
  split; intros [H1 H2]; (split; [|exact H2]).
  - destruct H1 as [H1 | [H1 | []]]; [now left | now right].
  - destruct H1 as [H1 | H1]; [now left | right; now left].
Qed.

(** X2.  [registerSound] keeps exactly the entries that are younger than
    3000 ms, in their order, and appends the new one, whose radius is 20
    times its loudness.  Whatever a listener could hear before the call it
    can still hear after it: no audible entry is pruned.  And when none of
    the sounds it hears after the call has the radius 0, the sound
    [checkSoundDetection] returns afterwards is at least as loud as the
    one it returned before. *)
Theorem registerSound_keeps_audible
    (pos : Vector3) (l : Q) (ty : string) (created t0 : Z)
    (ss : StealthSystem.t) (e : EnemyAI.t) :
  let ss' := registerSound pos l ty created t0 ss in
  (forall s, In s (soundSources ss')
             <-> (In s (soundSources ss)
                  \/ s = Sound.mk pos l ty created (l * 20))
                 /\ (t0 - Sound.time s < 3000)%Z)
  /\ (exists kept,
        soundSources ss'
        = filter (fun s => (t0 - Sound.time s <? 3000)%Z) (soundSources ss)
          ++ kept
        /\ (kept = [] \/ kept = [Sound.mk pos l ty created (l * 20)]))
  /\ (forall s h, In s (soundSources ss) -> hear t0 e s = Some h ->
                  In s (soundSources ss'))
  /\ ((forall s, In s (soundSources ss') -> hear t0 e s <> None ->
                  ~ Sound.radius s == 0) ->
      forall h, checkSoundDetection ss t0 e = Some h ->
                exists h', checkSoundDetection ss' t0 e = Some h'
                           /\ notLouder (Sound.hloudness h)
                                        (Sound.hloudness h')).
Proof.
  intros ss'.
  assert (Hkeep : forall s h, In s (soundSources ss) ->
                              hear t0 e s = Some h ->
                              In s (soundSources ss')).
  { intros s h Hin Hh. apply registerSound_In. split; [now left|].
    destruct (Z.leb_spec (t0 - Sound.time s) 2000) as [Hle | Hgt]; [lia|].
    assert (Hn : hear t0 e s = None)
      by (apply (proj1 (hear_spec t0 e s)); now left).
    congruence. }
  split; [intros s; apply registerSound_In|].
  split; [|split; [exact Hkeep|]].
  - unfold ss', registerSound. cbn [soundSources set_soundSources].
    rewrite filter_app. cbn [filter Sound.time].
    destruct (t0 - created <? 3000)%Z; eexists; (split; [reflexivity|]);
      [now right | now left].
  - intros Hradius h Hh.
    assert (Hnum : scoresAreNumbers t0 e (soundSources ss')).
    { intros x hx Hin Hx Hnan. apply (Hradius x Hin); [congruence|].
      now apply (hear_score t0 e x hx Hx). }
    destruct (checkSoundDetection_some ss t0 e h Hh)
      as (before & s & after & Hsrc & Hs & _).
    assert (Hin : In s (soundSources ss'))
      by (apply (Hkeep s h); [rewrite Hsrc; apply in_elt | exact Hs]).
    destruct (checkSoundDetection ss' t0 e) as [h'|] eqn:Hh'.
    + exists h'. split; [reflexivity|].
      destruct (checkSoundDetection_some ss' t0 e h' Hh')
        as (before' & s' & after' & Hsrc' & Hs' & Hord).
      destruct (Hord Hnum) as (Hb' & Ha').
      pose proof (Hnum s h Hin Hs) as Hfinite.
      rewrite Hsrc' in Hin. apply in_app_or in Hin.
      destruct Hin as [Hin | [<- | Hin]].
      * apply quieter_notLouder. now apply (Hb' s h).
      * rewrite Hs in Hs'. inversion Hs'; subst.
        now apply notLouder_refl.
      * now apply (Ha' s h).
    + rewrite checkSoundDetection_none in Hh'.
      rewrite (Hh' s Hin) in Hs. discriminate.
Qed.

End Registry.

(** ** Thresholds *)

Section Monotone.

Import StealthSystem.

(** X3.  With ascending thresholds, as the constructor installs them, the
    alert state never goes down when the level goes up. *)
Theorem getStateFromLevel_monotone (ss : StealthSystem.t) (a b : Q) :
  suspiciousThreshold ss <= alertedThreshold ss ->
  alertedThreshold ss <= combatThreshold ss ->
  a <= b ->
  (severity (getStateFromLevel ss a) <= severity (getStateFromLevel ss b))%nat.
Proof.
  intros H1 H2 Hab. unfold getStateFromLevel.
  destruct (Qgeb a (combatThreshold ss)) eqn:Ea3;
    [apply Qgeb_ge in Ea3 | apply Qgeb_lt in Ea3];
  (destruct (Qgeb a (alertedThreshold ss)) eqn:Ea2;
    [apply Qgeb_ge in Ea2 | apply Qgeb_lt in Ea2]);
  (destruct (Qgeb a (suspiciousThreshold ss)) eqn:Ea1;
    [apply Qgeb_ge in Ea1 | apply Qgeb_lt in Ea1]);
  (destruct (Qgeb b (combatThreshold ss)) eqn:Eb3;
    [apply Qgeb_ge in Eb3 | apply Qgeb_lt in Eb3]);
  (destruct (Qgeb b (alertedThreshold ss)) eqn:Eb2;
    [apply Qgeb_ge in Eb2 | apply Qgeb_lt in Eb2]);
  (destruct (Qgeb b (suspiciousThreshold ss)) eqn:Eb1;
    [apply Qgeb_ge in Eb1 | apply Qgeb_lt in Eb1]);
  cbn [severity]; try lia; exfalso; lra.
Qed.

End Monotone.

Lemma getStateFromLevel_monotone_witness :
  (severity (StealthSystem.getStateFromLevel Scenario.quiet 0.35)
   <= severity (StealthSystem.getStateFromLevel Scenario.quiet 0.8))%nat.
Proof.
  apply (getStateFromLevel_monotone Scenario.quiet 0.35 0.8);
    vm_compute; discriminate.
Defined.

(** ** Alerting every agent *)

Section AlertAll.

Import StealthSystem.

Lemma max_idem (a l : Q) : Math.max (Math.max a l) l = Math.max a l.
Proof.
  unfold Math.max. destruct (Qle_bool a l) eqn:E.
  - now rewrite (proj2 (Qle_bool_iff l l) (Qle_refl l)).
  - now rewrite E.
Qed.

(** X4.  [alertAllEnemies] gives every agent of the array, dead or alive,
    the position as last known position, raises its alert level to the
    given level when it was lower and never lowers it, and sets its state
    to the threshold function of the resulting level; nothing else
    changes and the array keeps its length.  Alerting twice is the same as
    alerting once. *)
Theorem alertAllEnemies_effect
    (ss : StealthSystem.t) (enemies : list EnemyAI.t) (pos : Vector3)
    (level : Q) :
  let alerted := alertAllEnemies ss enemies pos level in
  List.length alerted = List.length enemies
  /\ Forall2
       (fun a b =>
          b = EnemyAI.set_alertState
                (getStateFromLevel ss (Math.max (EnemyAI.alertLevel a) level))
                (EnemyAI.set_alertLevel
                   (Math.max (EnemyAI.alertLevel a) level)
                   (EnemyAI.set_lastKnownPlayerPos (Some pos) a))
          /\ EnemyAI.alertLevel a <= EnemyAI.alertLevel b
          /\ level <= EnemyAI.alertLevel b
          /\ EnemyAI.alertState b
             = getStateFromLevel ss (EnemyAI.alertLevel b)
          /\ EnemyAI.lastKnownPlayerPos b = Some pos
          /\ EnemyAI.isAlive b = EnemyAI.isAlive a
          /\ EnemyAI.health b = EnemyAI.health a
          /\ EnemyAI.position b = EnemyAI.position a)
       enemies alerted
  /\ alertAllEnemies ss alerted pos level = alerted.
Proof.
  intros alerted. subst alerted. unfold alertAllEnemies.
  split; [apply length_map|]. split.
  - induction enemies as [|a rest IH]; cbn [map]; constructor; [|exact IH].
    read_fields. repeat split; try reflexivity.
    + apply max_l.
    + apply max_r.
  - rewrite map_map. apply map_ext. intros a. read_fields.
    rewrite max_idem. destruct a. reflexivity.
Qed.

End AlertAll.

(** ** Line of sight *)

Section Sightline.
Context {M : MathLib}.

Import StealthSystem.

Lemma forallb_false_In {A : Type} (f : A -> bool) (l : list A) :
  forallb f l = false <-> exists x, In x l /\ f x = false.
Proof.
  induction l as [|a rest IH]; cbn [forallb].
  - split; [discriminate | intros (x & [] & _)].
  - rewrite andb_false_iff, IH. split.
    + intros [H | (x & Hin & H)]; [exists a | exists x]; split;
        trivial; [now left | now right].
    + intros (x & [<- | Hin] & H); [now left | right; now exists x].
Qed.

Lemma hasLineOfSight_clear (ss : StealthSystem.t) (from to : Vector3) :
  let distance := THREE.distanceTo from to in
  let hits :=
    scene ss from (THREE.normalize (THREE.subVectors to from)) distance in
  hasLineOfSight ss from to = true
  <-> forall hit, In hit hits -> distance - 0.1 <= hit.
Proof.
  intros distance hits. unfold hasLineOfSight. fold distance. fold hits.
  rewrite forallb_forall. split; intros H hit Hin; specialize (H hit Hin).
  - apply negb_true_iff in H. now apply Qltb_ge in H.
  - apply negb_true_iff. now apply Qltb_ge.
Qed.

(** X5.  The nearest hit decides the line of sight.  Where the first hit
    the raycaster reports is the nearest one, as three.js orders them,
    the sightline is clear exactly when that hit lies no more than 0.1
    before the target, whatever the other hits are.  Over a distance of
    at most 0.1 no hit at a non-negative distance blocks.  And hits only
    ever block: a sightline that is clear in one scene is clear in every
    scene whose hits on the ray are among those of the first. *)
Theorem hasLineOfSight_nearest_hit
    (ss : StealthSystem.t) (from to : Vector3) :
  let distance := THREE.distanceTo from to in
  let direction := THREE.normalize (THREE.subVectors to from) in
  let hits := scene ss from direction distance in
  (forall nearest rest,
      hits = nearest :: rest ->
      (forall hit, In hit rest -> nearest <= hit) ->
      (hasLineOfSight ss from to = true <-> distance - 0.1 <= nearest))
  /\ ((forall hit, In hit hits -> 0 <= hit) -> distance <= 0.1 ->
      hasLineOfSight ss from to = true)
  /\ (forall ss',
        (forall hit, In hit (scene ss' from direction distance) ->
                     In hit hits) ->
        hasLineOfSight ss from to = true ->
        hasLineOfSight ss' from to = true).
Proof.
  intros distance direction hits.
  pose proof (hasLineOfSight_clear ss from to) as Hclear.
  cbv zeta in Hclear. fold distance direction hits in Hclear.
  split; [|split].
  - intros nearest rest Hhits Hnearest. rewrite Hclear, Hhits. split.
    + intros H. apply H. now left.
    + intros H hit [<- | Hin]; [exact H|].
      specialize (Hnearest hit Hin). lra.
  - intros Hpos Hshort. apply Hclear. intros hit Hin.
    specialize (Hpos hit Hin). lra.
  - intros ss' Hsub Hsees. apply (hasLineOfSight_clear ss' from to).
    intros hit Hin. apply (proj1 Hclear Hsees). now apply Hsub.
Qed.

End Sightline.

(** ** Bounds of the detection amount *)

Section DetectionBounds.
Context {M : MathLib}.

Import StealthSystem.

Lemma visibility_range (p : Player.t) :
  0.35 <= Player.getVisibilityMultiplier p <= 1.5.
Proof.
  unfold Player.getVisibilityMultiplier.
  destruct (Player.isCrouching p), (Player.isRunning p), (Player.isMoving p);
    split; vm_compute; discriminate.
Qed.

Lemma lighting_range (lb : LevelBuilder.t) (pos : Vector3) :
  0.5 <= LevelBuilder.getLightingModifier lb pos <= 1.5.
Proof.
  unfold LevelBuilder.getLightingModifier.
  destruct (LevelBuilder.isInLightZone lb pos);
    [|destruct (LevelBuilder.isInDarkZone lb pos)];
    split; vm_compute; discriminate.
Qed.

Lemma product_bounds (a b x y : Q) :
  0 <= a <= x -> 0 <= b <= y -> 0 <= a * b <= x * y.
Proof.
  intros [Ha Hax] [Hb Hby]. split.
  - now apply Qmult_le_0_compat.
  - apply Qle_trans with (a * y).
    + rewrite !(Qmult_comm a). apply Qmult_le_compat_r; assumption.
    + apply Qmult_le_compat_r; [assumption | lra].
Qed.

(** X6.  For a positive range and half-angle, a non-negative detection
    speed and time step, and a non-negative distance and angle on the
    sightline, the detection amount of one call is never negative and
    never more than 4.5 times the detection speed times [deltaTime]
    (distance factor at most 2, angle factor at most 1, visibility and
    lighting at most 1.5 each). *)
Theorem checkDetection_bounds
    (ss : StealthSystem.t) (e : EnemyAI.t) (p : Player.t) (dt : Q) :
  0 < EnemyAI.detectionRange e -> 0 < EnemyAI.detectionAngle e ->
  0 <= detectionSpeed ss (EnemyAI.alertState e) -> 0 <= dt ->
  0 <= sightDistance e p -> 0 <= sightAngle e p ->
  0 <= checkDetection ss e p dt
  /\ checkDetection ss e p dt
     <= detectionSpeed ss (EnemyAI.alertState e) * 4.5 * dt.
Proof.
  intros Hr Hh Hs Hdt Hd Ha.
  assert (Hcap : 0 <= detectionSpeed ss (EnemyAI.alertState e) * 4.5 * dt).
  { repeat apply Qmult_le_0_compat; trivial. discriminate. }
  rewrite checkDetection_gates.
  destruct (negb (Player.isAlive p)); [split; [apply Qle_refl | exact Hcap]|].
  destruct (Qgtb (sightDistance e p) _) eqn:Hgd;
    [split; [apply Qle_refl | exact Hcap]|].
  destruct (Qgtb (sightAngle e p) _) eqn:Hga;
    [split; [apply Qle_refl | exact Hcap]|].
  destruct (negb (hasLineOfSight _ _ _));
    [split; [apply Qle_refl | exact Hcap]|].
  apply Qgtb_le in Hgd, Hga.
  set (d := sightDistance e p) in *. set (a := sightAngle e p) in *.
  set (r := EnemyAI.detectionRange e) in *.
  set (h := EnemyAI.detectionAngle e) in *.
  assert (Hdr : 0 <= d / r <= 1).
  { split; [apply Qle_shift_div_l; [exact Hr | lra]
           | apply Qle_shift_div_r; [exact Hr | lra]]. }
  assert (Hah : 0 <= a / h <= 1).
  { split; [apply Qle_shift_div_l; [exact Hh | lra]
           | apply Qle_shift_div_r; [exact Hh | lra]]. }
  assert (H1 : 0 <= 1 + (1 - d / r) <= 2) by (split; lra).
  assert (H2 : 0 <= 0.5 + (1 - a / h) * 0.5 <= 1) by (split; lra).
  pose proof (visibility_range p) as H3.
  pose proof (lighting_range (levelBuilder ss) (Player.position p)) as H4.
  assert (H0 : 0 <= detectionSpeed ss (EnemyAI.alertState e)
               <= detectionSpeed ss (EnemyAI.alertState e))
    by (split; [exact Hs | apply Qle_refl]).
  assert (H3' : 0 <= Player.getVisibilityMultiplier p <= 1.5)
    by (split; [lra | apply H3]).
  assert (H4' : 0 <= LevelBuilder.getLightingModifier
                       (levelBuilder ss) (Player.position p) <= 1.5)
    by (split; [lra | apply H4]).
  assert (H5 : 0 <= dt <= dt) by (split; [exact Hdt | apply Qle_refl]).
  pose proof (product_bounds _ _ _ _
                (product_bounds _ _ _ _
                   (product_bounds _ _ _ _
                      (product_bounds _ _ _ _
                         (product_bounds _ _ _ _ H0 H1) H2) H3') H4') H5)
    as [Hlo Hhi].
  split; [exact Hlo|].
  eapply Qle_trans; [exact Hhi|].
  apply Qle_lteq. right. ring.
Qed.

End DetectionBounds.

Lemma checkDetection_bounds_witness :
  0 <= StealthSystem.checkDetection Scenario.quiet Scenario.guard
                                    Scenario.inView 0.1
  /\ StealthSystem.checkDetection Scenario.quiet Scenario.guard
                                  Scenario.inView 0.1
     <= StealthSystem.detectionSpeed Scenario.quiet IDLE * 4.5 * 0.1.
Proof.
  apply (checkDetection_bounds Scenario.quiet Scenario.guard Scenario.inView
                               0.1);
    vm_compute; (reflexivity || discriminate).
Defined.

(** ** Hearing a gunshot *)

Section SoundIntake.
Context {M : MathLib}.

Import EnemyAI.

Lemma hear_source (t0 : Z) (a : EnemyAI.t) (s : Sound.t) (h : Sound.heard) :
  StealthSystem.hear t0 a s = Some h ->
  Sound.htype h = Sound.type s /\ Sound.hposition h = Sound.position s.
Proof.
  unfold StealthSystem.hear. destruct (_ >? 2000)%Z; [discriminate|].
  destruct (Qgtb _ _); [discriminate|].
  intros H. inversion H. now split.
Qed.

Lemma senseSound_gunshot (k : Tick) (e : EnemyAI.t) (h : Sound.heard) :
  StealthSystem.checkSoundDetection (stealthSystem k) (now k) e = Some h ->
  (Sound.htype h <> "gunshot"%string -> senseSound k e = e)
  /\ (Sound.htype h = "gunshot"%string ->
      senseSound k e
      = set_lastKnownPlayerPos
          (match lastKnownPlayerPos e with
           | Some seen => Some seen
           | None => Some (Sound.hposition h)
           end)
          (set_alertLevel (Math.max (alertLevel e) 0.5) e)).
Proof.
  intros Hh. unfold senseSound. rewrite Hh. split; intros Hty.
  - apply String.eqb_neq in Hty. now rewrite Hty.
  - apply String.eqb_eq in Hty. rewrite Hty. read_fields.
    destruct (lastKnownPlayerPos e) as [seen|] eqn:Hseen; [|reflexivity].
    destruct e; cbn in Hseen; subst; reflexivity.
Qed.

(** X7.  What the sound intake of [update] does, read off the registry of
    sounds.  An agent that hears no gunshot is left as it is.  When none
    of the sounds it hears has the radius 0, the first of the loudest
    sounds it hears decides alone: if that one is not a gunshot the agent
    is left as it is, however many quieter gunshots it hears; if it is a
    gunshot, the alert level becomes the larger of its value and 0.5, and
    the place of the shot becomes the last known position unless one is
    already set.  In every case the intake writes no other field, does
    not lower the level and does not raise it above the larger of its
    value and 0.5. *)
Theorem senseSound_effect (k : Tick) (e : EnemyAI.t) :
  let sources := StealthSystem.soundSources (stealthSystem k) in
  let hears := StealthSystem.hear (now k) e in
  ((forall s, In s sources -> hears s <> None ->
              Sound.type s <> "gunshot"%string) ->
   senseSound k e = e)
  /\ (forall before s after h,
        sources = before ++ s :: after ->
        hears s = Some h ->
        (forall s', In s' sources -> hears s' <> None ->
                    ~ Sound.radius s' == 0) ->
        (forall s' h', In s' before -> hears s' = Some h' ->
                       quieter (Sound.hloudness h') (Sound.hloudness h)) ->
        (forall s' h', In s' after -> hears s' = Some h' ->
                       notLouder (Sound.hloudness h') (Sound.hloudness h)) ->
        (Sound.type s <> "gunshot"%string -> senseSound k e = e)
        /\ (Sound.type s = "gunshot"%string ->
            senseSound k e
            = set_lastKnownPlayerPos
                (match lastKnownPlayerPos e with
                 | Some seen => Some seen
                 | None => Some (Sound.position s)
                 end)
                (set_alertLevel (Math.max (alertLevel e) 0.5) e)))
  /\ (alertLevel e <= alertLevel (senseSound k e)
      /\ alertLevel (senseSound k e) <= Math.max (alertLevel e) 0.5
      /\ exists l p,
           senseSound k e = set_lastKnownPlayerPos p (set_alertLevel l e)).
Proof.
  intros sources hears. split; [|split].
  - intros Hquiet.
    destruct (StealthSystem.checkSoundDetection (stealthSystem k) (now k) e)
      as [h|] eqn:Hh.
    + destruct (checkSoundDetection_some _ _ _ _ Hh)
        as (before & s & after & Hsrc & Hs & _).
      apply (proj1 (senseSound_gunshot k e h Hh)).
      destruct (hear_source _ _ _ _ Hs) as (-> & _).
      apply Hquiet; [|unfold hears; congruence].
      unfold sources. rewrite Hsrc. apply in_elt.
    + unfold senseSound. now rewrite Hh.
  - intros before s after h Hsrc Hs Hradius Hb Ha.
    assert (Hh : StealthSystem.checkSoundDetection
                   (stealthSystem k) (now k) e = Some h).
    { apply (checkSoundDetection_first _ _ _ before after s h); trivial.
      intros x hx Hin Hx Hnan. apply (Hradius x Hin);
        [unfold hears; congruence|].
      now apply (hear_score (now k) e x hx Hx). }
    destruct (hear_source _ _ _ _ Hs) as (Hty & Hpos).
    rewrite <- Hty, <- Hpos. exact (senseSound_gunshot k e h Hh).
  - split; [apply senseSound_level|]. split; [|apply senseSound_shape].
    unfold senseSound.
    destruct (StealthSystem.checkSoundDetection _ _ _) as [h|];
      [|apply max_l].
    destruct (String.eqb _ _); [|apply max_l].
    read_fields. destruct (lastKnownPlayerPos e); read_fields;
      apply Qle_refl.
Qed.

End SoundIntake.

(** ** Shots and the global alert *)

Section ShotsAndAlert.

Import StealthSystem.

Lemma highestAlert_same_alert
    (l l' : list EnemyAI.t) (st : AlertState) (lv : Q) :
  Forall2 (fun a b => EnemyAI.alertLevel b = EnemyAI.alertLevel a
                      /\ EnemyAI.alertState b = EnemyAI.alertState a) l l' ->
  highestAlert l' st lv = highestAlert l st lv.
Proof.
  intros H. revert st lv.
  induction H as [|a b l l' [Hl Hs] _ IH]; intros st lv; [reflexivity|].
  cbn [highestAlert]. rewrite Hl, Hs.
  destruct (Qgtb (EnemyAI.alertLevel a) lv); apply IH.
Qed.

Lemma Forall2_same_alert_refl (l : list EnemyAI.t) :
  Forall2 (fun a b => EnemyAI.alertLevel b = EnemyAI.alertLevel a
                      /\ EnemyAI.alertState b = EnemyAI.alertState a) l l.
Proof. induction l; constructor; auto. Qed.

(** X8.  A shot that kills leaves the global alert and the detection meter
    as they were: the agent dies with the level and state it had, and the
    reduction reads nothing else.  A shot that an agent survives puts its
    level at 1, so the global alert level is at least 1 and the detection
    meter is full. *)
Theorem shot_and_global_alert
    (before after : list EnemyAI.t) (a : EnemyAI.t) (amount : Q)
    (isHeadshot : bool) (ss : StealthSystem.t) :
  EnemyAI.isAlive a = true ->
  let dealt := if isHeadshot then amount * 2 else amount in
  let a' := fst (EnemyAI.takeDamage amount isHeadshot a) in
  (EnemyAI.health a - dealt <= 0 ->
   updateGlobalAlert (before ++ a' :: after) ss
   = updateGlobalAlert (before ++ a :: after) ss
   /\ getDetectionMeter (before ++ a' :: after)
      = getDetectionMeter (before ++ a :: after))
  /\ (0 < EnemyAI.health a - dealt ->
      1 <= globalAlertLevel
             (fst (updateGlobalAlert (before ++ a' :: after) ss))
      /\ getDetectionMeter (before ++ a' :: after) == 1).
Proof.
  intros Ha dealt a'. split.
  - intros Hdead.
    assert (Hsame : Forall2
              (fun x y => EnemyAI.alertLevel y = EnemyAI.alertLevel x
                          /\ EnemyAI.alertState y = EnemyAI.alertState x)
              (before ++ a :: after) (before ++ a' :: after)).
    { apply Forall2_app; [apply Forall2_same_alert_refl|].
      constructor; [|apply Forall2_same_alert_refl].
      subst a'. unfold EnemyAI.takeDamage. rewrite Ha. cbn [negb].
      fold dealt. read_fields. apply Qleb_le in Hdead. rewrite Hdead.
      cbn [fst]. unfold EnemyAI.die. read_fields. now split. }
    split.
    + unfold updateGlobalAlert.
      now rewrite (highestAlert_same_alert _ _ IDLE 0 Hsame).
    + unfold getDetectionMeter.
      rewrite <- !(highestAlert_level _ IDLE 0).
      now rewrite (highestAlert_same_alert _ _ IDLE 0 Hsame).
  - intros Hlive.
    assert (Hl : EnemyAI.alertLevel a' = 1).
    { subst a'. unfold EnemyAI.takeDamage. rewrite Ha. cbn [negb].
      fold dealt. read_fields. apply Qleb_gt in Hlive. now rewrite Hlive. }
    destruct (maxDetection_bounds (before ++ a' :: after) 0)
      as (_ & Hall & _).
    specialize (Hall a' (in_elt a' before after)). rewrite Hl in Hall.
    split.
    + unfold updateGlobalAlert.
      rewrite <- (highestAlert_level _ IDLE 0) in Hall.
      now destruct (highestAlert (before ++ a' :: after) IDLE 0).
    + unfold getDetectionMeter, Math.min.
      apply Qle_bool_iff in Hall. now rewrite Hall.
Qed.

End ShotsAndAlert.

(** ** Movement and obstacles *)

(** Reads fields through assignments in the hypotheses as well. *)
Ltac read_fields_all :=
  cbn [EnemyAI.set_position EnemyAI.set_rotation EnemyAI.set_currentPatrolIndex
    EnemyAI.set_patrolWaitTime EnemyAI.set_alertLevel EnemyAI.set_alertState
    EnemyAI.set_health EnemyAI.set_isAlive EnemyAI.set_shootCooldown
    EnemyAI.set_lastKnownPlayerPos EnemyAI.set_investigateTime
    EnemyAI.set_searchTime EnemyAI.set_coverTime EnemyAI.id EnemyAI.isTarget
    EnemyAI.position EnemyAI.rotation EnemyAI.patrolRoute
    EnemyAI.currentPatrolIndex EnemyAI.patrolWaitTime
    EnemyAI.patrolWaitDuration EnemyAI.detectionRange EnemyAI.detectionAngle
    EnemyAI.alertLevel EnemyAI.alertState EnemyAI.alertDecayRate
    EnemyAI.health EnemyAI.maxHealth EnemyAI.isAlive EnemyAI.shootCooldown
    EnemyAI.shootInterval EnemyAI.shootRange EnemyAI.damage EnemyAI.accuracy
    EnemyAI.lastKnownPlayerPos EnemyAI.investigateTime
    EnemyAI.investigateDuration EnemyAI.lostPlayerTime EnemyAI.searchTime
    EnemyAI.walkSpeed EnemyAI.runSpeed EnemyAI.turnSpeed EnemyAI.inCover
    EnemyAI.coverPosition EnemyAI.coverTime] in *.

Section Obstacles.
Context {M : MathLib}.

Import EnemyAI.

Lemma moveTowards_cleared (target : Vector3) (speed dt : Q)
    (cs : list Collider) (e : EnemyAI.t) :
  exists p r,
    moveTowards target speed dt cs e = set_position p (set_rotation r e)
    /\ (p = position e \/ checkCollision p cs = false).
Proof.
  unfold moveTowards.
  destruct (facePosition_shape target dt e) as [r ->]. cbv zeta.
  read_fields.
  match goal with
  | |- context [if negb (checkCollision ?q cs) then _ else _] =>
      destruct (negb (checkCollision q cs)) eqn:H1
  end.
  - eexists. exists r. split; [open_setters; reflexivity|]. right.
    now apply negb_true_iff in H1.
  - match goal with
    | |- context [if negb (checkCollision ?q cs) then _ else _] =>
        destruct (negb (checkCollision q cs)) eqn:H2
    end.
    + eexists. exists r. split; [open_setters; reflexivity|]. right.
      now apply negb_true_iff in H2.
    + exists (position e), r. split; [|now left].
      destruct e. reflexivity.
Qed.

(** Replaces the calls of [moveTowards] in the goal by the fields they
    set, keeping what is known of the new position. *)
Ltac expose_moves :=
  repeat match goal with
    | |- context [moveTowards ?t ?s ?d ?c ?e] =>
        let p := fresh "p" in
        let r := fresh "r" in
        let E := fresh "E" in
        let C := fresh "C" in
        destruct (moveTowards_cleared t s d c e) as (p & r & E & C);
        rewrite E; clear E
    end.

(** The same for [facePosition]. *)
Ltac expose_facing :=
  repeat match goal with
    | |- context [facePosition ?t ?d ?e] =>
        let r := fresh "r" in
        let E := fresh "E" in
        destruct (facePosition_shape t d e) as (r & E);
        rewrite E; clear E
    end.

(** Closes a goal about where an agent stands after a chain of
    assignments: the same place, or a place a collision test has
    cleared. *)
Ltac same_or_cleared :=
  read_fields_all;
  first
    [ left; reflexivity
    | match goal with
      | H : negb (checkCollision ?p ?c) = true
        |- _ \/ checkCollision ?p ?c = false =>
          right; now apply negb_true_iff in H
      | H : _ \/ _ |- _ => destruct H as [-> | H]; [now left | now right]
      end ].

Lemma in_bounds_of_cleared (pos : Vector3) (cs : list Collider) :
  checkCollision pos cs = false ->
  Qabs (THREE.x pos) <= 24 /\ Qabs (THREE.z pos) <= 29.
Proof.
  unfold checkCollision, Math.abs.
  destruct (existsb _ cs); [discriminate|].
  destruct (Qgtb (Qabs (THREE.x pos)) 24) eqn:Hx; [discriminate|].
  destruct (Qgtb (Qabs (THREE.z pos)) 29) eqn:Hz; [discriminate|].
  intros _. split; now apply Qgtb_le.
Qed.

Lemma shoot_position (p : Player.t) (r : Q) (e : EnemyAI.t) :
  position (fst (shoot p r e)) = position e.
Proof. unfold shoot. cbv zeta. now split_tests. Qed.

Lemma behave_cleared (k : Tick) (e e' : EnemyAI.t) (p : Player.t) :
  behave k e = Some (e', p) ->
  position e' = position e
  \/ checkCollision (position e') (colliders k) = false.
Proof.
  intros H.
  assert (He : Some e' = option_map fst (behave k e)) by now rewrite H.
  clear H. revert He. unfold behave.
  destruct (alertState e); cbn [option_map].
  - unfold patrol. cbv zeta.
    split_tests; expose_moves; cbn [option_map fst]; intros H; inversion H;
      same_or_cleared.
  - unfold investigate, patrol. cbv zeta.
    split_tests; expose_moves; cbn [option_map fst]; intros H; inversion H;
      same_or_cleared.
  - unfold search. cbv zeta.
    split_tests; expose_moves; cbn [option_map fst]; intros H; inversion H;
      same_or_cleared.
  - unfold combat. cbv zeta. expose_facing. expose_moves.
    split_tests; cbn [option_map fst];
      intros H; inversion H; rewrite ?shoot_position; same_or_cleared.
Qed.

Lemma update_cleared (k : Tick) (e e' : EnemyAI.t) (p' : Player.t) :
  update k e = Some (e', p') ->
  position e' = position e
  \/ checkCollision (position e') (colliders k) = false.
Proof.
  unfold update. destruct (isAlive e); cbn [negb].
  - destruct (behave k (perceive k e)) as [[e1 p1]|] eqn:Hb; [|discriminate].
    intros H. inversion H; subst. apply behave_cleared in Hb.
    destruct (coolDown_shape (deltaTime k) e1) as (c & ->).
    destruct (perceive_shape k e) as (l & s & q & Hp). rewrite Hp in Hb.
    exact Hb.
  - intros H. inversion H. now left.
Qed.

(** X9.  [update] never moves an agent into an obstacle: the position it
    ends the tick at is the one it had, or one for which [checkCollision]
    against the tick's colliders is false.  So an agent that stands clear
    of the colliders stays clear while they do not change, and an agent
    inside the level bounds (|x| <= 24, |z| <= 29) stays inside them
    through every run of ticks, whatever the colliders are. *)
Theorem update_never_collides :
  (forall k e e' p',
      update k e = Some (e', p') ->
      position e' = position e
      \/ checkCollision (position e') (colliders k) = false)
  /\ (forall k e e' p',
        update k e = Some (e', p') ->
        checkCollision (position e) (colliders k) = false ->
        checkCollision (position e') (colliders k) = false)
  /\ (forall ticks e e',
        run ticks e = Some e' ->
        Qabs (THREE.x (position e)) <= 24 ->
        Qabs (THREE.z (position e)) <= 29 ->
        Qabs (THREE.x (position e')) <= 24
        /\ Qabs (THREE.z (position e')) <= 29).
Proof.
  split; [exact update_cleared|]. split.
  - intros k e e' p' Hu Hfree.
    destruct (update_cleared k e e' p' Hu) as [-> | H]; assumption.
  - intros ticks. induction ticks as [|k later IH]; intros e e'; cbn [run].
    + intros H. inversion H; subst. now split.
    + destruct (update k e) as [[e1 p1]|] eqn:Hu; [|discriminate].
      intros Hrun Hx Hz. apply (IH e1 e' Hrun).
      * destruct (update_cleared k e e1 p1 Hu) as [-> | H]; [exact Hx|].
        apply (in_bounds_of_cleared _ _ H).
      * destruct (update_cleared k e e1 p1 Hu) as [-> | H]; [exact Hz|].
        apply (in_bounds_of_cleared _ _ H).
Qed.

(** ** Turning *)

Lemma wrapUp_below (fuel : nat) (diff : Q) :
  diff <= Math.PI -> wrapUp fuel diff <= Math.PI.
Proof.
  revert diff. induction fuel as [|n IH]; intros diff H; cbn [wrapUp];
    [exact H|].
  destruct (Qltb diff (- Math.PI)) eqn:Hlt; [|exact H].
  apply IH. apply Qltb_lt in Hlt. lra.
Qed.

(** X10.  [facePosition] changes the rotation only, and by at most
    [PI * turnSpeed * deltaTime]: the difference to the target rotation is
    first brought into [[-PI, PI]]. *)
Theorem facePosition_turn_bounded
    (target : Vector3) (dt : Q) (e : EnemyAI.t) :
  0 <= turnSpeed e -> 0 <= dt ->
  (exists r, facePosition target dt e = set_rotation r e)
  /\ Qabs (rotation (facePosition target dt e) - rotation e)
     <= Math.PI * turnSpeed e * dt.
Proof.
  intros Hts Hdt. split; [apply facePosition_shape|].
  unfold facePosition. cbv zeta. read_fields.
  set (d0 := atan2 _ _ - rotation e).
  set (d1 := wrapDown (turns d0) d0).
  set (d2 := wrapUp (turns d1) d1).
  assert (H1 : d1 <= Math.PI) by apply wrapDown_exit.
  assert (H2 : d2 <= Math.PI) by now apply wrapUp_below.
  assert (H3 : - Math.PI <= d2) by apply wrapUp_exit.
  assert (Hd : Qabs d2 <= Math.PI) by (apply Qabs_Qle_condition; now split).
  assert (Heq : rotation e + d2 * turnSpeed e * dt - rotation e
                == d2 * (turnSpeed e * dt)) by ring.
  rewrite Heq, Qabs_Qmult.
  assert (Hp : 0 <= turnSpeed e * dt) by now apply Qmult_le_0_compat.
  rewrite (Qabs_pos _ Hp), <- Qmult_assoc.
  now apply Qmult_le_compat_r.
Qed.

End Obstacles.

(** ** When [update] throws *)

Section Throws.
Context {M : MathLib}.

Import EnemyAI.

Lemma patrol_throws (dt : Q) (cs : list Collider) (t0 : Z) (e : EnemyAI.t) :
  patrol dt cs t0 e = None
  <-> patrolRoute e <> [] /\ patrolWaitTime e <= 0
      /\ (List.length (patrolRoute e) <= currentPatrolIndex e)%nat.
Proof.
  unfold patrol.
  destruct (Nat.eqb (List.length (patrolRoute e)) 0) eqn:Hlen.
  - apply Nat.eqb_eq, length_zero_iff_nil in Hlen.
    split; [discriminate | intros [H _]; contradiction].
  - apply Nat.eqb_neq in Hlen.
    assert (Hne : patrolRoute e <> [])
      by (intros H0; apply Hlen; now rewrite H0).
    destruct (Qgtb (patrolWaitTime e) 0) eqn:Hw.
    + apply Qgtb_gt in Hw. split; [discriminate | intros (_ & H & _); lra].
    + apply Qgtb_le in Hw.
      destruct (nth_error (patrolRoute e) (currentPatrolIndex e))
        as [target|] eqn:Hn.
      * assert (Hlt : (currentPatrolIndex e < List.length (patrolRoute e))%nat)
          by (apply nth_error_Some; congruence).
        destruct (Qltb _ 0.5);
          (split; [discriminate | intros (_ & _ & H); lia]).
      * apply nth_error_None in Hn. split; [now intros _ | reflexivity].
Qed.

(** X11.  [update] throws (the read of [patrolRoute] outside the route is
    [undefined] and [distanceTo] fails on it) exactly when the agent is
    alive, the tick dispatches to [patrol] (state [IDLE], or [SUSPICIOUS]
    without a last known position), the route is not empty, the agent is
    not waiting at a waypoint and the patrol cursor is outside the route.
    An agent whose cursor is inside the route never throws and keeps the
    cursor inside; this covers every agent the constructor made, through
    any run of ticks. *)
Theorem update_throws_iff (k : Tick) (e : EnemyAI.t) :
  let seen := perceive k e in
  (update k e = None
   <-> isAlive e = true
       /\ (alertState seen = IDLE
           \/ (alertState seen = SUSPICIOUS
               /\ lastKnownPlayerPos seen = None))
       /\ patrolRoute e <> [] /\ patrolWaitTime e <= 0
       /\ (List.length (patrolRoute e) <= currentPatrolIndex e)%nat)
  /\ (cursorInRoute e ->
      exists e' p', update k e = Some (e', p') /\ cursorInRoute e')
  /\ (forall ticks n p route target,
        exists e', run ticks (EnemyAI.new n p route target) = Some e'
                   /\ cursorInRoute e').
Proof.
  intros seen. split; [|split].
  - assert (Hroute : patrolRoute seen = patrolRoute e
                     /\ patrolWaitTime seen = patrolWaitTime e
                     /\ currentPatrolIndex seen = currentPatrolIndex e).
    { subst seen. destruct (perceive_shape k e) as (l & s & q & ->).
      now repeat split. }
    destruct Hroute as (Hr & Hw & Hc).
    pose proof (patrol_throws (deltaTime k) (colliders k) (now k) seen) as Hp.
    rewrite Hr, Hw, Hc in Hp.
    unfold update. fold seen. destruct (isAlive e); cbn [negb].
    + unfold behave.
      destruct (alertState seen) eqn:Hs.
      * destruct (patrol _ _ _ seen) eqn:Hpat; cbn [option_map].
        -- split; [discriminate|]. intros (_ & _ & H).
           apply Hp in H. discriminate.
        -- split; [intros _|reflexivity].
           split; [reflexivity|]. split; [now left|]. now apply Hp.
      * unfold investigate.
        destruct (lastKnownPlayerPos seen) as [pos|] eqn:Hlk.
        -- cbv zeta.
           match goal with
           | |- context [if ?b then Some ?a else Some ?c] =>
               destruct b
           end; cbn [option_map];
             (split; [discriminate|]);
             intros (_ & [H | [_ H]] & _); discriminate.
        -- destruct (patrol _ _ _ seen) eqn:Hpat; cbn [option_map].
           ++ split; [discriminate|]. intros (_ & _ & H).
              apply Hp in H. discriminate.
           ++ split; [intros _|reflexivity].
              split; [reflexivity|]. split; [right; now split|].
              now apply Hp.
      * destruct (search _ _ _ _).
        split; [discriminate|].
        intros (_ & [H | [H _]] & _); discriminate.
      * destruct (combat _ _ _ _ _) as [e1 p1].
        split; [discriminate|].
        intros (_ & [H | [H _]] & _); discriminate.
    + split; [discriminate | intros [H _]; discriminate].
  - apply update_returns.
  - intros ticks n p route target.
    apply run_returns, new_cursorInRoute.
Qed.

End Throws.

(** ** Who can hurt the player *)

Section Harm.
Context {M : MathLib}.

Import EnemyAI.

Lemma shoot_player (p : Player.t) (r : Q) (e : EnemyAI.t) :
  snd (shoot p r e) = p \/ snd (shoot p r e) = Player.takeDamage (damage e) p.
Proof.
  unfold shoot. cbv zeta. split_tests; cbn [snd]; read_fields; auto.
Qed.

Lemma combat_player (dt : Q) (p : Player.t) (cs : list Collider) (r : Q)
    (e : EnemyAI.t) :
  snd (combat dt p cs r e) = p
  \/ (Player.isAlive p = true /\ isTarget e = false /\ shootCooldown e <= 0
      /\ snd (combat dt p cs r e) = Player.takeDamage (damage e) p).
Proof.
  unfold combat. cbv zeta.
  destruct (Player.isAlive p) eqn:Hp; cbn [negb snd]; [|now left].
  expose_motion.
  repeat match goal with
    | |- context [if ?b then _ else _] =>
        lazymatch b with
        | (_ && _)%bool => fail
        | _ => destruct b
        end
    end; cbn [snd]; try (now left);
    read_fields;
    (destruct (Qleb (shootCooldown e) 0) eqn:Hc; cbn [andb snd];
       [|now left]);
    (destruct (isTarget e) eqn:Ht; cbn [negb snd]; [now left|]);
    apply Qleb_le in Hc;
    match goal with
    | |- context [shoot ?a ?b ?c] =>
        destruct (shoot_player a b c) as [Hs | Hs]; rewrite Hs;
          [now left | right; revert Hs; read_fields; intros Hs]
    end;
    now repeat split.
Qed.

Lemma update_player (k : Tick) (e e' : EnemyAI.t) (p' : Player.t) :
  update k e = Some (e', p') ->
  p' = player k
  \/ (isAlive e = true /\ alertState (perceive k e) = COMBAT
      /\ Player.isAlive (player k) = true /\ isTarget e = false
      /\ shootCooldown e <= 0
      /\ p' = Player.takeDamage (damage e) (player k)).
Proof.
  unfold update. destruct (isAlive e); cbn [negb].
  - destruct (behave k (perceive k e)) as [[e1 p1]|] eqn:Hb; [|discriminate].
    intros H. inversion H; subst. clear H. revert Hb. unfold behave.
    destruct (alertState (perceive k e)) eqn:Hs.
    + destruct (patrol _ _ _ _); cbn [option_map]; [|discriminate].
      intros H. inversion H. now left.
    + destruct (investigate _ _ _ _); cbn [option_map]; [|discriminate].
      intros H. inversion H. now left.
    + intros H. inversion H. now left.
    + intros H.
      assert (Hp : p' = snd (combat (deltaTime k) (player k) (colliders k)
                                    (rnd k) (perceive k e)))
        by (inversion H as [H0]; now rewrite H0).
      destruct (combat_player (deltaTime k) (player k) (colliders k)
                              (rnd k) (perceive k e))
        as [Hc | (H1 & H2 & H3 & H4)].
      * left. now rewrite Hp.
      * right. destruct (perceive_shape k e) as (l & s & q & Hshape).
        rewrite Hshape in H2, H3. revert H2 H3. read_fields.
        intros H2 H3. rewrite Hp. repeat split; trivial.
        rewrite H4. f_equal. rewrite Hshape. read_fields. reflexivity.
  - intros H. inversion H. now left.
Qed.

(** X12.  A call of [update] leaves the player as it was unless the agent
    is alive, is in [COMBAT] after the state has been recomputed, the
    player is alive, the agent is not the high-value target and its shoot
    cooldown has run out; in that case the only possible change is one
    [takeDamage] of the agent's damage.  So the target never hurts the
    player, and neither does an agent whose cooldown is still running. *)
Theorem update_harm (k : Tick) (e e' : EnemyAI.t) (p' : Player.t) :
  update k e = Some (e', p') ->
  (p' = player k
   \/ (isAlive e = true /\ alertState (perceive k e) = COMBAT
       /\ Player.isAlive (player k) = true /\ isTarget e = false
       /\ shootCooldown e <= 0
       /\ p' = Player.takeDamage (damage e) (player k)))
  /\ (isTarget e = true -> p' = player k)
  /\ (0 < shootCooldown e -> p' = player k).
Proof.
  intros Hu. pose proof (update_player k e e' p' Hu) as Hmain.
  split; [exact Hmain|]. split.
  - intros Ht. destruct Hmain as [H | (_ & _ & _ & H & _)];
      [exact H | congruence].
  - intros Hc. destruct Hmain as [H | (_ & _ & _ & _ & H & _)];
      [exact H | lra].
Qed.

End Harm.

(** ** The player's health *)

Section PlayerHealth.

Import Player.

Lemma player_takeDamage_health (amount : Q) (p : Player.t) :
  0 <= amount -> 0 <= health p ->
  health p - amount <= health (takeDamage amount p)
  /\ health (takeDamage amount p) <= health p
  /\ 0 <= health (takeDamage amount p)
  /\ position (takeDamage amount p) = position p.
Proof.
  intros Ha Hh. unfold takeDamage, die.
  destruct (isAlive p); cbn [negb].
  - destruct (Qleb (health p - amount) 0) eqn:E;
      [apply Qleb_le in E | apply Qleb_gt in E];
      cbn [health position]; repeat split; lra.
  - repeat split; lra.
Qed.

Lemma player_takeDamage_position (amount : Q) (p : Player.t) :
  position (takeDamage amount p) = position p.
Proof.
  unfold takeDamage, die. destruct (isAlive p); cbn [negb]; [|reflexivity].
  now destruct (Qleb (health p - amount) 0).
Qed.

(** X13.  [PlayerController.takeDamage] does nothing to a dead player.  On
    a living one it subtracts the amount from the health; when that
    reaches 0 or less the health is set to exactly 0 and the player dies.
    So the health never becomes negative, a living player always has
    positive health if it had before, and a non-negative amount never
    raises the health. *)
Theorem player_takeDamage_floor (amount : Q) (p : Player.t) :
  let p' := takeDamage amount p in
  (isAlive p = false -> p' = p)
  /\ (isAlive p = true -> 0 < health p - amount ->
      isAlive p' = true /\ health p' = health p - amount)
  /\ (isAlive p = true -> health p - amount <= 0 ->
      isAlive p' = false /\ health p' = 0)
  /\ (0 <= health p -> 0 <= health p')
  /\ ((isAlive p = true -> 0 < health p) ->
      isAlive p' = true -> 0 < health p')
  /\ (0 <= amount -> 0 <= health p -> health p' <= health p)
  /\ position p' = position p.
Proof.
  intros p'. subst p'. unfold takeDamage, die.
  destruct (isAlive p) eqn:Ha; cbn [negb].
  - destruct (Qleb (health p - amount) 0) eqn:Hh;
      [apply Qleb_le in Hh | apply Qleb_gt in Hh];
      cbn [isAlive health position];
      repeat split; intros; try discriminate; try reflexivity;
      try assumption; try lra; try (exfalso; lra).
  - repeat split; intros; try discriminate; try reflexivity;
      try assumption; try lra; try congruence; auto.
Qed.

End PlayerHealth.

(** ** Ticks without a stimulus *)

Section Calm.
Context {M : MathLib}.

Import EnemyAI.

Lemma checkSoundDetection_position
    (ss : StealthSystem.t) (t0 : Z) (e1 e2 : EnemyAI.t) :
  position e1 = position e2 ->
  StealthSystem.checkSoundDetection ss t0 e1
  = StealthSystem.checkSoundDetection ss t0 e2.
Proof.
  intros Hp. unfold StealthSystem.checkSoundDetection.
  replace (StealthSystem.heardSounds t0 e1 (StealthSystem.soundSources ss))
    with (StealthSystem.heardSounds t0 e2 (StealthSystem.soundSources ss));
    [reflexivity|].
  induction (StealthSystem.soundSources ss) as [|s rest IH];
    cbn [StealthSystem.heardSounds]; [reflexivity|].
  unfold StealthSystem.hear. rewrite Hp, IH. reflexivity.
Qed.

Lemma checkSoundDetection_after_decay (k : Tick) (e : EnemyAI.t) :
  StealthSystem.checkSoundDetection (stealthSystem k) (now k)
                                    (decayAlert (deltaTime k) e)
  = StealthSystem.checkSoundDetection (stealthSystem k) (now k) e.
Proof.
  destruct (decayAlert_shape (deltaTime k) e) as (l & ->).
  now apply checkSoundDetection_position.
Qed.

Lemma perceive_unstimulated (k : Tick) (e : EnemyAI.t) :
  StealthSystem.checkDetection (stealthSystem k) e (player k) (deltaTime k)
  <= 0 ->
  (forall h,
      StealthSystem.checkSoundDetection (stealthSystem k) (now k) e = Some h ->
      String.eqb (Sound.htype h) "gunshot" = false) ->
  perceive k e = refreshState k (decayAlert (deltaTime k) e).
Proof.
  intros Hsee Hhear. unfold perceive. f_equal.
  assert (Hs : senseSight k (decayAlert (deltaTime k) e)
               = decayAlert (deltaTime k) e).
  { unfold senseSight. rewrite checkDetection_after_decay.
    apply Qgtb_le in Hsee. now rewrite Hsee. }
  rewrite Hs. unfold senseSound. rewrite checkSoundDetection_after_decay.
  destruct (StealthSystem.checkSoundDetection _ _ e) as [h|]; [|reflexivity].
  now rewrite (Hhear h eq_refl).
Qed.

Lemma decayAlert_upper (dt : Q) (e : EnemyAI.t) :
  0 <= alertDecayRate e * dt ->
  alertLevel (decayAlert dt e) <= alertLevel e.
Proof.
  intros Hr. unfold decayAlert.
  destruct (Qgtb (alertLevel e) 0 && _) eqn:Hc; [|apply Qle_refl].
  apply andb_prop in Hc. destruct Hc as [Hpos _]. apply Qgtb_gt in Hpos.
  read_fields. destruct (Qltb _ 0); read_fields; lra.
Qed.

Lemma decayAlert_strict (dt : Q) (e : EnemyAI.t) :
  0 < alertDecayRate e * dt -> 0 < alertLevel e -> alertState e <> COMBAT ->
  alertLevel (decayAlert dt e) < alertLevel e.
Proof.
  intros Hr Hpos Hst. unfold decayAlert.
  pose proof Hpos as Hpos'. apply Qgtb_gt in Hpos'. rewrite Hpos'.
  destruct (AlertState_eqb (alertState e) COMBAT) eqn:Heq;
    [apply AlertState_eqb_eq in Heq; contradiction|].
  cbn [andb negb]. read_fields. destruct (Qltb _ 0); read_fields; lra.
Qed.

(** X14.  In a tick in which the agent does not see the player and the
    loudest sound it hears, if any, is not a gunshot, [update] does not
    raise the alert level; for a living agent that is not in [COMBAT] and
    has a positive level and decay, the level falls strictly. *)
Theorem update_calms (k : Tick) (e e' : EnemyAI.t) (p' : Player.t) :
  defaultThresholds (stealthSystem k) ->
  0 <= alertLevel e ->
  0 <= alertDecayRate e * deltaTime k ->
  StealthSystem.checkDetection (stealthSystem k) e (player k) (deltaTime k)
  <= 0 ->
  (forall h,
      StealthSystem.checkSoundDetection (stealthSystem k) (now k) e = Some h ->
      String.eqb (Sound.htype h) "gunshot" = false) ->
  update k e = Some (e', p') ->
  alertLevel e' <= alertLevel e
  /\ (isAlive e = true -> alertState e <> COMBAT -> 0 < alertLevel e ->
      0 < alertDecayRate e * deltaTime k -> alertLevel e' < alertLevel e).
Proof.
  intros Hdef H0 Hr Hsee Hhear Hu.
  destruct (isAlive e) eqn:Ha.
  - pose proof (perceive_unstimulated k e Hsee Hhear) as Hp.
    assert (Hl : alertLevel (perceive k e)
                 = alertLevel (decayAlert (deltaTime k) e))
      by (rewrite Hp; unfold refreshState; read_fields; reflexivity).
    pose proof (decayAlert_upper (deltaTime k) e Hr) as Hup.
    pose proof (decayAlert_nonneg (deltaTime k) e H0) as Hlow.
    assert (Hstep : alertLevel e' <= alertLevel (perceive k e)).
    { destruct (update_mind k e e' p' Ha Hu) as (_ & [Hsame | Hw]).
      - rewrite Hsame. apply Qle_refl.
      - destruct Hw as [seen H1 H2 H3 H4 H5 | H1 H2 H3 H4 | H1 H2 H3 H4].
        + rewrite H4, Hl. exact Hlow.
        + rewrite H3. lra.
        + rewrite perceive_state in H1.
          apply (getStateFromLevel_default _ _ Hdef) in H1.
          rewrite H3. lra. }
    rewrite Hl in Hstep. split; [lra|].
    intros _ Hst Hpos Hr'.
    pose proof (decayAlert_strict (deltaTime k) e Hr' Hpos Hst). lra.
  - revert Hu. unfold update. rewrite Ha. cbn [negb]. intros Hu.
    inversion Hu; subst. split; [apply Qle_refl | discriminate].
Qed.

End Calm.

(** ** Lives *)

Section LivesProperties.
Context {M : MathLib}.

Import EnemyAI.

Lemma update_dead (k : Tick) (e : EnemyAI.t) :
  isAlive e = false -> update k e = Some (e, player k).
Proof. intros H. unfold update. now rewrite H. Qed.

(** X15.  Death is final: whatever ticks and shots follow, a dead agent
    stays exactly as it was, and the run of events returns. *)
Theorem dead_forever (events : list Event) (e : EnemyAI.t) :
  isAlive e = false -> live events e = Some e.
Proof.
  intros Hd. induction events as [|[k | amount hs] later IH]; cbn [live].
  - reflexivity.
  - now rewrite (update_dead k e Hd).
  - now rewrite (takeDamage_dead amount hs e Hd).
Qed.

Lemma behave_fixed (k : Tick) (e e' : EnemyAI.t) (p : Player.t) :
  behave k e = Some (e', p) -> fixedFields e' = fixedFields e.
Proof.
  intros H.
  assert (He : Some e' = option_map fst (behave k e)) by now rewrite H.
  clear H. revert He. unfold behave.
  destruct (alertState e); cbn [option_map].
  - unfold patrol.
    split_tests; expose_motion; cbn [option_map fst]; intros H;
      inversion H; reflexivity.
  - unfold investigate, patrol.
    split_tests; expose_motion; cbn [option_map fst]; intros H;
      inversion H; reflexivity.
  - unfold search. cbv zeta.
    split_tests; expose_motion; cbn [option_map fst]; intros H;
      inversion H; reflexivity.
  - unfold combat, shoot. cbv zeta.
    split_tests; expose_motion; cbn [option_map fst]; intros H;
      inversion H; reflexivity.
Qed.

Lemma update_fixed (k : Tick) (e e' : EnemyAI.t) (p' : Player.t) :
  update k e = Some (e', p') -> fixedFields e' = fixedFields e.
Proof.
  unfold update. destruct (isAlive e) eqn:Ha; cbn [negb].
  - destruct (behave k (perceive k e)) as [[e1 p1]|] eqn:Hb; [|discriminate].
    intros H. inversion H; subst. apply behave_fixed in Hb.
    destruct (coolDown_shape (deltaTime k) e1) as (c & ->).
    destruct (perceive_shape k e) as (l & s & q & Hp). rewrite Hp in Hb.
    exact Hb.
  - intros H. now inversion H.
Qed.

(** X16.  [update] leaves alone every field that only the constructor and
    [takeDamage] assign: the identity and target flag, the patrol route,
    the detection range and angle, the decay rate, the health and the life
    flag, the weapon figures, the timing constants, the speeds and the
    cover fields.  The same holds for a whole run of ticks. *)
Theorem update_keeps_fixedFields :
  (forall k e e' p', update k e = Some (e', p') ->
                     fixedFields e' = fixedFields e)
  /\ (forall ticks e e', run ticks e = Some e' ->
                         fixedFields e' = fixedFields e).
Proof.
  split; [exact update_fixed|].
  induction ticks as [|k later IH]; intros e e'; cbn [run].
  - intros H. now inversion H.
  - destruct (update k e) as [[e1 p1]|] eqn:Hu; [|discriminate].
    intros H. rewrite (IH _ _ H). now apply (update_fixed k e e1 p1).
Qed.

End LivesProperties.

Section Frames.
Context {M : MathLib}.

Import EnemyAI.

Lemma fixedFields_life (e e' : EnemyAI.t) :
  fixedFields e' = fixedFields e ->
  health e' = health e /\ isAlive e' = isAlive e /\ damage e' = damage e
  /\ isTarget e' = isTarget e.
Proof. unfold fixedFields. intros H. inversion H. now repeat split. Qed.

Lemma takeDamage_life (amount : Q) (isHeadshot : bool) (e : EnemyAI.t) :
  let e' := fst (takeDamage amount isHeadshot e) in
  ((isAlive e = true -> 0 < health e) -> isAlive e' = true -> 0 < health e')
  /\ (isAlive e' = true -> isAlive e = true)
  /\ (0 <= amount -> health e' <= health e).
Proof.
  unfold takeDamage. destruct (isAlive e) eqn:Ha; cbn [negb fst].
  - read_fields.
    destruct (Qleb _ 0) eqn:Hh; [apply Qleb_le in Hh | apply Qleb_gt in Hh];
      cbn [fst]; unfold die; read_fields; repeat split; intros;
      try discriminate; try assumption; try reflexivity;
      destruct isHeadshot; lra.
  - repeat split; intros; try congruence; try apply Qle_refl; auto.
Qed.

(** X17.  Through any sequence of ticks and shots an agent is never
    brought back to life, a living agent keeps a positive health if it
    started with one, and shots of non-negative amounts never raise the
    health; ticks do not touch the health at all. *)
Theorem live_health (events : list Event) (e e' : EnemyAI.t) :
  live events e = Some e' ->
  (isAlive e' = true -> isAlive e = true)
  /\ ((isAlive e = true -> 0 < health e) ->
      isAlive e' = true -> 0 < health e')
  /\ ((forall amount hs, In (Shot amount hs) events -> 0 <= amount) ->
      health e' <= health e).
Proof.
  revert e. induction events as [|[k | amount hs] later IH]; intros e;
    cbn [live].
  - intros H. inversion H; subst. repeat split; auto. intros _. apply Qle_refl.
  - destruct (update k e) as [[e1 p1]|] eqn:Hu; [|discriminate].
    intros H. destruct (IH _ H) as (I1 & I2 & I3).
    apply update_fixed, fixedFields_life in Hu.
    destruct Hu as (Hh & Ha & _). rewrite Hh, Ha in *.
    repeat split; auto.
    intros Hpos. apply I3. intros a h Hin. apply (Hpos a h). now right.
  - intros H. destruct (IH _ H) as (I1 & I2 & I3).
    destruct (takeDamage_life amount hs e) as (T1 & T2 & T3).
    repeat split.
    + auto.
    + auto.
    + intros Hpos. eapply Qle_trans.
      * apply I3. intros a h Hin. apply (Hpos a h). now right.
      * apply T3. apply (Hpos amount hs). now left.
Qed.

Lemma firepower_nonneg (enemies : list EnemyAI.t) :
  (forall e, In e enemies -> 0 <= damage e) -> 0 <= firepower enemies.
Proof.
  induction enemies as [|a rest IH]; intros H; cbn [firepower fold_right].
  - apply Qle_refl.
  - fold (firepower rest).
    assert (0 <= firepower rest) by (apply IH; intros; apply H; now right).
    assert (0 <= damage a) by (apply H; now left).
    destruct (isAlive a && negb (isTarget a)); lra.
Qed.

(** X18.  One pass of the agent loop of [updateGame] returns as many
    agents as it was given, leaves the dead ones and every fixed field
    alone, does not move the player, and takes from the player's health
    at most the damage of the living agents that are not the target. *)
Theorem updateEnemies_frame
    (k : Tick) (draws : list Q) (enemies enemies' : list EnemyAI.t)
    (p' : Player.t) :
  updateEnemies k draws enemies = Some (enemies', p') ->
  Forall2 (fun e e' => fixedFields e' = fixedFields e
                       /\ (isAlive e = false -> e' = e)) enemies enemies'
  /\ Player.position p' = Player.position (player k)
  /\ ((forall e, In e enemies -> 0 <= damage e) ->
      0 <= Player.health (player k) ->
      Player.health (player k) - firepower enemies <= Player.health p'
      /\ Player.health p' <= Player.health (player k)).
Proof.
  revert k draws enemies' p'.
  induction enemies as [|a rest IH]; intros k draws enemies' p';
    cbn [updateEnemies].
  - intros H. inversion H; subst. split; [constructor|]. split; [reflexivity|].
    intros _ _. cbn [firepower fold_right]. split; lra.
  - set (mine := mkTick _ _ _ _ _ (hd (rnd k) draws)).
    assert (Hstep : forall a1 p1,
      (if isAlive a then update mine a else Some (a, player k))
      = Some (a1, p1) ->
      fixedFields a1 = fixedFields a /\ (isAlive a = false -> a1 = a)
      /\ (p1 = player k
          \/ (isAlive a && negb (isTarget a) = true
              /\ p1 = Player.takeDamage (damage a) (player k)))).
    { intros a1 p1. destruct (isAlive a) eqn:Ha.
      - intros Hu. split; [now apply (update_fixed mine a a1 p1)|].
        split; [discriminate|].
        destruct (update_player mine a a1 p1 Hu)
          as [Hp | (_ & _ & _ & Ht & _ & Hp)].
        + now left.
        + right. rewrite Ht. split; [reflexivity | exact Hp].
      - intros H. inversion H; subst. repeat split; auto. }
    destruct (if isAlive a then update mine a else Some (a, player k))
      as [[a1 p1]|]; [|discriminate].
    specialize (Hstep a1 p1 eq_refl). destruct Hstep as (Hf & Hd & Hp).
    set (next := mkTick _ p1 _ _ _ _).
    destruct (updateEnemies next (tl draws) rest) as [[rest' p2]|] eqn:Hr;
      [|discriminate].
    intros H. inversion H; subst. clear H.
    destruct (IH next (tl draws) rest' p' Hr) as (I1 & I2 & I3).
    split; [constructor; [split; assumption | exact I1]|].
    cbn [player next] in I2, I3.
    split.
    + rewrite I2. destruct Hp as [-> | (_ & ->)]; [reflexivity|].
      apply player_takeDamage_position.
    + intros Hdmg Hh. cbn [firepower fold_right]. fold (firepower rest).
      assert (Hrest : forall e, In e rest -> 0 <= damage e)
        by (intros; apply Hdmg; now right).
      assert (Ha0 : 0 <= damage a) by (apply Hdmg; now left).
      pose proof (firepower_nonneg rest Hrest) as Hfp.
      destruct Hp as [-> | (Hgun & ->)].
      * destruct (I3 Hrest Hh) as (J1 & J2).
        destruct (isAlive a && negb (isTarget a)); split; lra.
      * rewrite Hgun.
        destruct (player_takeDamage_health (damage a) (player k) Ha0 Hh)
          as (T1 & T2 & T3 & _).
        destruct (I3 Hrest T3) as (J1 & J2). split; lra.
Qed.

End Frames.

(** ** Timers *)

(** Turns the recorded outcomes of the comparisons into inequalities. *)
Ltac tests_to_facts :=
  repeat match goal with
    | H : Qgtb _ _ = true |- _ => apply Qgtb_gt in H
    | H : Qgtb _ _ = false |- _ => apply Qgtb_le in H
    | H : Qltb _ _ = true |- _ => apply Qltb_lt in H
    | H : Qltb _ _ = false |- _ => apply Qltb_ge in H
    | H : Qleb _ _ = true |- _ => apply Qleb_le in H
    | H : Qleb _ _ = false |- _ => apply Qleb_gt in H
    | H : Qgeb _ _ = true |- _ => apply Qgeb_ge in H
    | H : Qgeb _ _ = false |- _ => apply Qgeb_lt in H
    end.

(** Decides the tests of a behaviour from the inside out, writing each
    move as the assignments it makes before the test that reads it. *)
Ltac split_inner_tests :=
  repeat (expose_motion;
          match goal with
          | |- context [if ?b then _ else _] =>
              lazymatch b with
              | context [if _ then _ else _] => fail
              | context [match _ with Some _ => _ | None => _ end] => fail
              | _ => destruct b eqn:?
              end
          | |- context [match ?o with Some _ => _ | None => _ end] =>
              lazymatch o with
              | context [if _ then _ else _] => fail
              | _ => destruct o eqn:?
              end
          end).

Section Timers.
Context {M : MathLib}.

Import EnemyAI.

Ltac close_timers :=
  let H := fresh "H" in
  intros H; inversion H; subst; clear H;
  unfold timersInRange in *; read_fields_all; tests_to_facts;
  repeat match goal with H : _ /\ _ |- _ => destruct H end;
  repeat split; lra.

Lemma behave_timers (k : Tick) (e e' : EnemyAI.t) (p : Player.t) :
  0 <= deltaTime k -> 0 <= investigateDuration e -> timersInRange e ->
  behave k e = Some (e', p) -> timersInRange e'.
Proof.
  intros Hdt Hdur Ht H.
  assert (He : Some e' = option_map fst (behave k e)) by now rewrite H.
  clear H. revert He. unfold behave.
  destruct (alertState e); cbn [option_map].
  - unfold patrol. cbv zeta.
    split_inner_tests; cbn [option_map fst]; try discriminate; close_timers.
  - unfold investigate, patrol. cbv zeta.
    split_inner_tests; cbn [option_map fst]; try discriminate; close_timers.
  - unfold search. cbv zeta.
    split_inner_tests; cbn [option_map fst]; close_timers.
  - unfold combat, shoot. cbv zeta.
    split_inner_tests; cbn [option_map fst]; close_timers.
Qed.

Lemma coolDown_timers (dt : Q) (e : EnemyAI.t) :
  0 <= dt -> timersInRange e -> timersInRange (coolDown dt e).
Proof.
  intros Hdt Ht. unfold coolDown.
  destruct (Qgtb (shootCooldown e) 0); [|exact Ht].
  unfold timersInRange in *. read_fields. repeat split; try tauto.
  destruct Ht as (_ & _ & _ & H & _). lra.
Qed.

Lemma update_timers (k : Tick) (e e' : EnemyAI.t) (p' : Player.t) :
  0 <= deltaTime k -> 0 <= investigateDuration e -> timersInRange e ->
  update k e = Some (e', p') -> timersInRange e'.
Proof.
  intros Hdt Hdur Ht. unfold update. destruct (isAlive e); cbn [negb].
  - destruct (behave k (perceive k e)) as [[e1 p1]|] eqn:Hb; [|discriminate].
    intros H. inversion H; subst. apply coolDown_timers; [exact Hdt|].
    apply (behave_timers k (perceive k e) e1 p'); trivial.
    all: destruct (perceive_shape k e) as (l & s & q & ->); assumption.
  - intros H. inversion H; subst. exact Ht.
Qed.

(** X19.  The timers stay within the limits the behaviours test them
    against: if [searchTime <= 10], [investigateTime <=
    investigateDuration], [coverTime <= 4], [shootCooldown <=
    shootInterval] and [patrolWaitTime <= patrolWaitDuration] hold before a
    tick of non-negative length (and [investigateDuration] is not negative),
    they hold after it.  A new agent starts
    within them, so they hold through every run of such ticks. *)
Theorem timers_stay_in_range :
  (forall k e e' p',
      0 <= deltaTime k -> 0 <= investigateDuration e -> timersInRange e ->
      update k e = Some (e', p') -> timersInRange e')
  /\ (forall ticks n pos route target e',
        (forall k, In k ticks -> 0 <= deltaTime k) ->
        run ticks (EnemyAI.new n pos route target) = Some e' ->
        timersInRange e').
Proof.
  split; [exact update_timers|].
  intros ticks n pos route target e' Hdt.
  assert (Hnew : timersInRange (EnemyAI.new n pos route target))
    by (unfold timersInRange; cbn; repeat split; discriminate).
  assert (Hdur : 0 <= investigateDuration (EnemyAI.new n pos route target))
    by discriminate.
  revert Hnew Hdur. generalize (EnemyAI.new n pos route target).
  induction ticks as [|k later IH]; intros e Ht Hdur; cbn [run].
  - intros H. inversion H; subst. exact Ht.
  - destruct (update k e) as [[e1 p1]|] eqn:Hu; [|discriminate].
    apply IH.
    + intros k' Hin. apply Hdt. now right.
    + apply (update_timers k e e1 p1); trivial. apply Hdt. now left.
    + now rewrite (update_duration k e e1 p1 Hu).
Qed.

End Timers.

(** ** Hits *)

Section Hits.
Context {M : MathLib}.

Import EnemyAI.

Lemma combat_hit (dt : Q) (p : Player.t) (cs : list Collider) (r : Q)
    (e : EnemyAI.t) :
  snd (combat dt p cs r e) <> p ->
  THREE.distanceTo (position e) (Player.position p) <= shootRange e
  /\ shootCooldown (fst (combat dt p cs r e)) = shootInterval e
  /\ lastKnownPlayerPos (fst (combat dt p cs r e))
     = Some (Player.position p).
Proof.
  unfold combat, shoot. cbv zeta.
  split_inner_tests; cbn [fst snd]; intros Hne;
    try (exfalso; apply Hne; reflexivity);
    read_fields_all; tests_to_facts; repeat split; assumption.
Qed.

(** X20.  When a call of [update] has changed the player, the agent stood
    within its shoot range of the player, it is in [COMBAT] with the
    player's position as the last known one, and its shoot cooldown has
    been started: it is [shootInterval - deltaTime] after the call (or
    [shootInterval] itself if that is not positive). *)
Theorem update_hit (k : Tick) (e e' : EnemyAI.t) (p' : Player.t) :
  update k e = Some (e', p') -> p' <> player k ->
  THREE.distanceTo (position e) (Player.position (player k)) <= shootRange e
  /\ alertState e' = COMBAT
  /\ lastKnownPlayerPos e' = Some (Player.position (player k))
  /\ (0 < shootInterval e ->
      shootCooldown e' = shootInterval e - deltaTime k)
  /\ (shootInterval e <= 0 -> shootCooldown e' = shootInterval e).
Proof.
  unfold update. destruct (isAlive e); cbn [negb];
    [|intros H Hne; inversion H; subst; now elim Hne].
  destruct (behave k (perceive k e)) as [[e1 p1]|] eqn:Hb; [|discriminate].
  intros H Hne. inversion H; subst. clear H. revert Hb. unfold behave.
  destruct (alertState (perceive k e)) eqn:Hs.
  - destruct (patrol _ _ _ _); cbn [option_map]; [|discriminate].
    intros H. inversion H; subst. now elim Hne.
  - destruct (investigate _ _ _ _); cbn [option_map]; [|discriminate].
    intros H. inversion H; subst. now elim Hne.
  - intros H. inversion H; subst. now elim Hne.
  - intros H.
    assert (H1 : e1 = fst (combat (deltaTime k) (player k) (colliders k)
                                  (rnd k) (perceive k e)))
      by (inversion H as [H0]; now rewrite H0).
    assert (H2 : p' = snd (combat (deltaTime k) (player k) (colliders k)
                                  (rnd k) (perceive k e)))
      by (inversion H as [H0]; now rewrite H0).
    rewrite H2 in Hne. apply combat_hit in Hne.
    destruct Hne as (Hr & Hc & Hl). rewrite <- H1 in Hc, Hl.
    pose proof (combat_mind (deltaTime k) (player k) (colliders k) (rnd k)
                            (perceive k e)) as (Hst & _).
    cbv zeta in Hst. rewrite <- H1, Hs in Hst.
    destruct (perceive_shape k e) as (l & s & q & Hshape).
    rewrite Hshape in Hr, Hc. revert Hr Hc. read_fields. intros Hr Hc.
    split; [exact Hr|].
    unfold coolDown. rewrite Hc.
    destruct (Qgtb (shootInterval e) 0) eqn:Hi;
      [apply Qgtb_gt in Hi | apply Qgtb_le in Hi]; read_fields.
    + repeat split; trivial. intros Hle. exfalso. lra.
    + repeat split; trivial. intros Hlt. exfalso. lra.
Qed.

End Hits.

(** ** What the detection amount is proportional to *)

Section Scaling.
Context {M : MathLib}.

Import StealthSystem.

(** X21.  The detection amount is proportional to [deltaTime], and the
    player's gait enters it only through the visibility multiplier: a
    running player is detected 1.5 times as fast as a walking one, and a
    player standing still 0.7 times as fast as a moving one, everything
    else equal. *)
Theorem checkDetection_scaling
    (ss : StealthSystem.t) (e : EnemyAI.t) (p : Player.t) (dt c : Q) :
  checkDetection ss e p (c * dt) == c * checkDetection ss e p dt
  /\ (forall moving,
        checkDetection ss e (withGait true moving p) dt
        == 1.5 * checkDetection ss e (withGait false moving p) dt)
  /\ (forall running,
        checkDetection ss e (withGait running false p) dt
        == 0.7 * checkDetection ss e (withGait running true p) dt).
Proof.
  unfold checkDetection, withGait, Player.getVisibilityMultiplier.
  cbv zeta. cbn [Player.position Player.isAlive Player.isCrouching
                 Player.isRunning Player.isMoving negb].
  split; [|split; intros b].
  - split_tests; ring.
  - split_tests; ring.
  - split_tests; ring.
Qed.

End Scaling.

(** ** Cover *)

Section CoverProperties.
Context {M : MathLib}.

Lemma hidesBehind_spec (position viewer : Vector3) (c : Cover.t) :
  hidesBehind position viewer c = true
  <-> THREE.distanceTo viewer (Cover.position c)
      < THREE.distanceTo position viewer
      /\ 0.8 < THREE.dot
                 (THREE.normalize (THREE.subVectors position viewer))
                 (THREE.normalize
                    (THREE.subVectors (Cover.position c) viewer))
      /\ THREE.y position < Cover.height c + THREE.y (Cover.position c).
Proof.
  unfold hidesBehind. cbv zeta.
  destruct (Qgtb (THREE.distanceTo viewer (Cover.position c))
                 (THREE.distanceTo position viewer)) eqn:E1;
    [apply Qgtb_gt in E1 | apply Qgtb_le in E1].
  - split; [discriminate|]. intros (H & _). exfalso. lra.
  - destruct (Qgtb _ 0.8) eqn:E2;
      [apply Qgtb_gt in E2 | apply Qgtb_le in E2]; cbn [andb].
    + destruct (Qltb (THREE.distanceTo viewer (Cover.position c)) _) eqn:E3;
        [apply Qltb_lt in E3 | apply Qltb_ge in E3].
      * destruct (Qltb (THREE.y position) _) eqn:E4;
          [apply Qltb_lt in E4 | apply Qltb_ge in E4].
        -- split; [intros _; now repeat split | reflexivity].
        -- split; [discriminate|]. intros (_ & _ & H). exfalso. lra.
      * split; [discriminate|]. intros (H & _). exfalso. lra.
    + split; [discriminate|]. intros (_ & H & _). exfalso. lra.
Qed.

(** X22.  [isInCover] answers true exactly when some cover object is
    strictly nearer to the viewer than the position is, lies within the
    cone of cosine 0.8 around the line of sight, and reaches above the
    height of the position.  A cover object at the same distance as the
    position never hides it, the order of the cover objects does not
    matter, and more cover objects never uncover a position. *)
Theorem isInCover_spec (position viewer : Vector3) (covers : list Cover.t) :
  (isInCover position viewer covers = true
   <-> exists c,
         In c covers
         /\ THREE.distanceTo viewer (Cover.position c)
            < THREE.distanceTo position viewer
         /\ 0.8 < THREE.dot
                    (THREE.normalize (THREE.subVectors position viewer))
                    (THREE.normalize
                       (THREE.subVectors (Cover.position c) viewer))
         /\ THREE.y position < Cover.height c + THREE.y (Cover.position c))
  /\ (forall more,
        (forall c, In c covers -> In c more) ->
        isInCover position viewer covers = true ->
        isInCover position viewer more = true)
  /\ ((forall c, In c covers ->
                 THREE.distanceTo position viewer
                 <= THREE.distanceTo viewer (Cover.position c)) ->
      isInCover position viewer covers = false).
Proof.
  assert (Hspec : forall l,
    isInCover position viewer l = true
    <-> exists c, In c l /\ hidesBehind position viewer c = true)
    by (intros l; apply existsb_exists).
  split; [|split].
  - rewrite Hspec. split; intros (c & Hin & H); exists c; (split; [exact Hin|]);
      now apply hidesBehind_spec.
  - intros more Hsub. rewrite !Hspec. intros (c & Hin & H). exists c.
    split; [now apply Hsub | exact H].
  - intros Hfar.
    destruct (isInCover position viewer covers) eqn:E; [|reflexivity].
    apply Hspec in E. destruct E as (c & Hin & H).
    apply hidesBehind_spec in H. destruct H as (H & _).
    specialize (Hfar c Hin). exfalso. lra.
Qed.

End CoverProperties.

(** ** Ammunition *)

Section Ammunition.

Import WeaponSystem.

Lemma assign_spec (index : nat) (old new : Weapon.t) (l : list Weapon.t) :
  nth_error l index = Some old ->
  List.length (assign index new l) = List.length l
  /\ (Forall ammoInOrder l -> ammoInOrder new ->
      Forall ammoInOrder (assign index new l))
  /\ (roundsOf (assign index new l)
      = roundsOf l
        - (Weapon.currentAmmo old + Weapon.reserveAmmo old)
        + (Weapon.currentAmmo new + Weapon.reserveAmmo new))%Z.
Proof.
  revert index. induction l as [|first rest IH]; intros [|index] H;
    try discriminate.
  - inversion H; subst. cbn [assign List.length roundsOf fold_right].
    split; [reflexivity|]. split.
    + intros Hall Hnew. inversion Hall; subst. now constructor.
    + fold (roundsOf rest). lia.
  - cbn [nth_error] in H. destruct (IH index H) as (I1 & I2 & I3).
    cbn [assign List.length roundsOf fold_right].
    split; [now rewrite I1|]. split.
    + intros Hall Hnew. inversion Hall; subst. constructor; auto.
    + fold (roundsOf rest). fold (roundsOf (assign index new rest)). lia.
Qed.

Lemma current_in_order (ws : WeaponSystem.t) :
  armsInOrder ws ->
  exists weapon, getCurrentWeapon ws = Some weapon /\ ammoInOrder weapon.
Proof.
  intros (Hall & Hidx). unfold getCurrentWeapon.
  destruct (nth_error (weapons ws) (currentWeaponIndex ws)) as [weapon|] eqn:E.
  - exists weapon. split; [reflexivity|].
    apply nth_error_In in E. revert E. now apply Forall_forall.
  - apply nth_error_None in E. lia.
Qed.

Lemma kept_refl (ws : WeaponSystem.t) : armsInOrder ws -> kept ws ws.
Proof. intros H. now split. Qed.

Lemma kept_same_weapons (ws ws' : WeaponSystem.t) :
  armsInOrder ws -> weapons ws' = weapons ws ->
  shotsFired ws' = shotsFired ws ->
  (currentWeaponIndex ws' < List.length (weapons ws))%nat ->
  kept ws ws'.
Proof.
  intros (Hall & Hidx) Hw Hs Hi. unfold kept, armsInOrder, rounds.
  rewrite Hw, Hs. repeat split; trivial.
Qed.

Lemma switchWeapon_kept (index : nat) (ws : WeaponSystem.t) :
  armsInOrder ws -> kept ws (switchWeapon index ws).
Proof.
  intros H. unfold switchWeapon.
  destruct (index <? List.length (weapons ws))%nat eqn:E; cbn [andb];
    [|now apply kept_refl].
  destruct (negb _); [|now apply kept_refl].
  apply Nat.ltb_lt in E. now apply kept_same_weapons.
Qed.

Lemma reload_kept (ws : WeaponSystem.t) :
  armsInOrder ws -> exists ws', reload ws = Some ws' /\ kept ws ws'.
Proof.
  intros H. unfold reload.
  destruct (isReloading ws); [exists ws; split; [reflexivity|]|].
  - now apply kept_refl.
  - destruct (current_in_order ws H) as (weapon & -> & _).
    destruct (_ =? _)%Z; [exists ws; split; [reflexivity|]|].
    + now apply kept_refl.
    + destruct (_ <=? _)%Z; eexists; (split; [reflexivity|]).
      * now apply kept_refl.
      * apply kept_same_weapons; trivial. apply H.
Qed.

Lemma update_kept (dt : Q) (ws : WeaponSystem.t) :
  armsInOrder ws -> exists ws', update dt ws = Some ws' /\ kept ws ws'.
Proof.
  intros H. unfold update.
  set (ws1 := if Qgtb (fireCooldown ws) 0 then _ else ws).
  assert (H1 : weapons ws1 = weapons ws
                /\ currentWeaponIndex ws1 = currentWeaponIndex ws
                /\ shotsFired ws1 = shotsFired ws
                /\ isReloading ws1 = isReloading ws)
    by (subst ws1; destruct (Qgtb _ 0); now repeat split).
  destruct H1 as (Hw & Hi & Hs & Hr).
  assert (Hord : armsInOrder ws1)
    by (unfold armsInOrder; rewrite Hw, Hi; exact H).
  assert (Hk : kept ws ws1)
    by (apply kept_same_weapons; trivial; rewrite Hi; apply H).
  clearbody ws1. cbv zeta.
  destruct (isReloading ws1); [|now exists ws1].
  destruct (current_in_order ws1 Hord) as (weapon & Hcur & Hammo).
  rewrite Hcur. unfold getCurrentWeapon in Hcur.
  destruct (Qgeb _ 1); eexists; (split; [reflexivity|]).
  - match goal with
    | |- kept _ (mk (weapons (set_currentWeapon ?w _)) _ _ _ _ _) =>
        destruct (assign_spec (currentWeaponIndex ws1) weapon w (weapons ws1)
                              Hcur) as (A1 & A2 & A3)
    end.
    destruct Hammo as (Hc & Hres). destruct Hord as (Hall & Hidx).
    destruct Hk as (_ & Hk).
    unfold kept, armsInOrder, rounds, set_currentWeapon in *.
    cbn [weapons currentWeaponIndex shotsFired] in *.
    rewrite A1, A3. cbn [Weapon.currentAmmo Weapon.reserveAmmo
                         Weapon.set_currentAmmo Weapon.set_reserveAmmo
                         Weapon.magSize].
    repeat split; trivial; [|lia].
    apply A2; trivial. unfold ammoInOrder.
    cbn [Weapon.currentAmmo Weapon.reserveAmmo Weapon.set_currentAmmo
         Weapon.set_reserveAmmo Weapon.magSize]. lia.
  - destruct Hk as (_ & Hk). destruct Hord as (Hall & Hidx).
    unfold kept, armsInOrder, rounds in *.
    cbn [weapons currentWeaponIndex shotsFired]. now repeat split.
Qed.

Lemma shoot_kept (player : Player.t) (created now : Z)
    (ray : option Intersection) (w : World) :
  armsInOrder (arms w) ->
  exists w' hit,
    shoot player created now ray w = Some (w', hit)
    /\ kept (arms w) (arms w').
Proof.
  intros H. unfold shoot. cbv zeta.
  destruct (negb (Player.isAlive player));
    [exists w, None; split; [reflexivity | now apply kept_refl]|].
  destruct (Qgtb _ 0);
    [exists w, None; split; [reflexivity | now apply kept_refl]|].
  destruct (isReloading (arms w)) eqn:Hrel;
    [exists w, None; split; [reflexivity | now apply kept_refl]|].
  destruct (current_in_order (arms w) H) as (weapon & Hcur & Hammo).
  rewrite Hcur.
  destruct (Weapon.currentAmmo weapon <=? 0)%Z eqn:Hempty.
  - destruct (reload_kept (arms w) H) as (ws' & -> & Hk).
    now exists (mkWorld ws' (stealth w) (enemies w)), None.
  - apply Z.leb_gt in Hempty.
    destruct (performRaycast ray _ (enemies w)) as [enemies' hit].
    eexists; exists hit. split; [reflexivity|].
    cbn [arms]. unfold getCurrentWeapon in Hcur.
    match goal with
    | |- kept _ (mk (weapons (set_currentWeapon ?x _)) _ _ _ _ _) =>
        destruct (assign_spec (currentWeaponIndex (arms w)) weapon x
                              (weapons (arms w)) Hcur) as (A1 & A2 & A3)
    end.
    destruct Hammo as (Hc & Hres). destruct H as (Hall & Hidx).
    unfold kept, armsInOrder, rounds, set_currentWeapon in *.
    cbn [weapons currentWeaponIndex shotsFired] in *.
    rewrite A1, A3. cbn [Weapon.currentAmmo Weapon.reserveAmmo
                         Weapon.set_currentAmmo].
    repeat split; trivial; [|lia].
    apply A2; trivial. unfold ammoInOrder.
    cbn [Weapon.currentAmmo Weapon.reserveAmmo Weapon.set_currentAmmo
         Weapon.magSize]. lia.
Qed.

Lemma handle_kept (h : Handling) (w : World) :
  armsInOrder (arms w) ->
  exists w', handle h w = Some w' /\ kept (arms w) (arms w').
Proof.
  intros H. destruct h as [player created now ray | | index | dt];
    cbn [handle].
  - destruct (shoot_kept player created now ray w H) as (w' & hit & -> & Hk).
    now exists w'.
  - destruct (reload_kept (arms w) H) as (ws' & -> & Hk).
    eexists. split; [reflexivity | exact Hk].
  - eexists. split; [reflexivity|]. now apply switchWeapon_kept.
  - destruct (update_kept dt (arms w) H) as (ws' & -> & Hk).
    eexists. split; [reflexivity | exact Hk].
Qed.

(** X23.  Shooting, reloading, switching weapons and the frame update
    never throw on weapons that are in order, keep them in order (every
    magazine between 0 and [magSize], no negative reserve, a current
    weapon that exists), and conserve the rounds: the rounds carried plus
    the shots fired stay what they were. *)
Theorem rounds_conserved (hs : list Handling) (w : World) :
  armsInOrder (arms w) ->
  exists w',
    handleAll hs w = Some w'
    /\ armsInOrder (arms w')
    /\ (rounds (arms w') + shotsFired (arms w')
        = rounds (arms w) + shotsFired (arms w))%Z.
Proof.
  revert w. induction hs as [|h later IH]; intros w H; cbn [handleAll].
  - exists w. split; [reflexivity|]. split; [exact H | reflexivity].
  - destruct (handle_kept h w H) as (w1 & -> & H1 & E1).
    destruct (IH w1 H1) as (w' & Hrun & H' & E').
    exists w'. split; [exact Hrun|]. split; [exact H' | lia].
Qed.

End Ammunition.

(** ** Shots *)

Section Shots.
Context {M : MathLib}.

Import WeaponSystem.

(** X24.  [shoot] fires exactly when the player is alive, the fire
    cooldown has run out, no reload is under way and the magazine of the
    current weapon is not empty.  A shot fired takes one round from the
    magazine, starts the cooldown at the weapon's fire rate and registers
    one sound of type gunshot at the player's position, of loudness 0.3
    for a suppressed weapon and 1 otherwise.  A call that does not fire
    leaves the sounds and the agents alone and reports no hit. *)
Theorem shoot_effect
    (player : Player.t) (created now : Z) (ray : option Intersection)
    (w w' : World) (hit : option HitReport) :
  shoot player created now ray w = Some (w', hit) ->
  let fires :=
    Player.isAlive player = true /\ fireCooldown (arms w) <= 0
    /\ isReloading (arms w) = false
    /\ exists weapon, getCurrentWeapon (arms w) = Some weapon
                      /\ (0 < Weapon.currentAmmo weapon)%Z in
  (shotsFired (arms w') = (shotsFired (arms w) + 1)%Z <-> fires)
  /\ (shotsFired (arms w') = shotsFired (arms w) <-> ~ fires)
  /\ (~ fires ->
      stealth w' = stealth w /\ enemies w' = enemies w /\ hit = None
      /\ weapons (arms w') = weapons (arms w))
  /\ (forall weapon,
        fires -> getCurrentWeapon (arms w) = Some weapon ->
        stealth w'
        = StealthSystem.registerSound
            (Player.position player)
            (if Weapon.suppressed weapon then 0.3 else 1.0)
            "gunshot" created now (stealth w)
        /\ fireCooldown (arms w') = Weapon.fireRate weapon
        /\ getCurrentWeapon (arms w')
           = Some (Weapon.set_currentAmmo (Weapon.currentAmmo weapon - 1)
                                          weapon)
        /\ (enemies w', hit)
           = performRaycast
               ray
               (Weapon.set_currentAmmo (Weapon.currentAmmo weapon - 1) weapon)
               (enemies w)).
Proof.
  intros H fires. revert H. unfold shoot. cbv zeta.
  destruct (Player.isAlive player) eqn:Ha; cbn [negb].
  2: { intros H. inversion H; subst.
       assert (Hn : ~ fires) by (intros (F & _); discriminate).
       split; [split; [lia | contradiction]|].
       split; [split; [intros _; exact Hn | reflexivity]|].
       split; [now repeat split | contradiction]. }
  destruct (Qgtb (fireCooldown (arms w)) 0) eqn:Hc;
    [apply Qgtb_gt in Hc | apply Qgtb_le in Hc].
  { intros H. inversion H; subst.
    assert (Hn : ~ fires) by (intros (_ & F & _); lra).
    split; [split; [lia | contradiction]|].
    split; [split; [intros _; exact Hn | reflexivity]|].
    split; [now repeat split | contradiction]. }
  destruct (isReloading (arms w)) eqn:Hr.
  { intros H. inversion H; subst.
    assert (Hn : ~ fires) by (intros (_ & _ & F & _); discriminate).
    split; [split; [lia | contradiction]|].
    split; [split; [intros _; exact Hn | reflexivity]|].
    split; [now repeat split | contradiction]. }
  destruct (getCurrentWeapon (arms w)) as [weapon|] eqn:Hcur; [|discriminate].
  destruct (Weapon.currentAmmo weapon <=? 0)%Z eqn:He;
    [apply Z.leb_le in He | apply Z.leb_gt in He].
  - destruct (reload (arms w)) as [ws'|] eqn:Hre; [|discriminate].
    intros H. inversion H; subst. cbn [arms stealth enemies].
    assert (Hn : ~ fires).
    { intros (_ & _ & _ & x & Hx & F). inversion Hx; subst. lia. }
    assert (Hs : shotsFired ws' = shotsFired (arms w)
                 /\ weapons ws' = weapons (arms w)).
    { revert Hre. unfold reload. rewrite Hr, Hcur.
      destruct (_ =? _)%Z; [intros X; inversion X; now subst|].
      destruct (_ <=? _)%Z; intros X; inversion X; now subst. }
    destruct Hs as (Hs & Hw).
    split; [split; [lia | contradiction]|].
    split; [split; [intros _; exact Hn | intros _; exact Hs]|].
    split; [now repeat split | contradiction].
  - destruct (performRaycast ray _ (enemies w)) as [enemies' hit'] eqn:Hray.
    intros H. inversion H; subst. cbn [arms stealth enemies shotsFired
                                            fireCooldown].
    assert (Hf : fires).
    { split; [reflexivity|]. split; [exact Hc|]. split; [reflexivity|].
      exists weapon. now split. }
    split; [split; [intros _; exact Hf | reflexivity]|].
    split; [split; [unfold set_currentWeapon; cbn [shotsFired]; lia
                   | contradiction]|].
    split; [contradiction|].
    intros x _ Hx. inversion Hx; subst x.
    split; [reflexivity|]. split; [reflexivity|].
    split; [|symmetry; exact Hray].
    unfold getCurrentWeapon, set_currentWeapon in *.
    cbn [weapons currentWeaponIndex].
    revert Hcur. generalize (currentWeaponIndex (arms w)).
    induction (weapons (arms w)) as [|first rest IH]; intros [|n] Hn;
      try discriminate; cbn [assign nth_error] in *; auto.
Qed.

Lemma heardSounds_unheard
    (t0 : Z) (e : EnemyAI.t) (keep : Sound.t -> bool) (l : list Sound.t) :
  (forall s, In s l -> keep s = false -> StealthSystem.hear t0 e s = None) ->
  StealthSystem.heardSounds t0 e (filter keep l)
  = StealthSystem.heardSounds t0 e l.
Proof.
  induction l as [|s rest IH]; intros H; [reflexivity|].
  cbn [filter StealthSystem.heardSounds].
  assert (IH' : StealthSystem.heardSounds t0 e (filter keep rest)
                = StealthSystem.heardSounds t0 e rest)
    by (apply IH; intros x Hin; apply H; now right).
  destruct (keep s) eqn:Hk.
  - cbn [StealthSystem.heardSounds]. now rewrite IH'.
  - rewrite (H s (or_introl eq_refl) Hk). exact IH'.
Qed.

(** X25.  A sound registered at a distance from an agent that exceeds its
    radius (20 times the loudness: 6 units for a suppressed shot, 20 for
    an unsuppressed one) does not change what the agent hears at any
    later time: [checkSoundDetection] answers as if the sound had never
    been registered. *)
Theorem out_of_earshot
    (position : Vector3) (loudness : Q) (type : string) (created now t0 : Z)
    (ss : StealthSystem.t) (e : EnemyAI.t) :
  loudness * 20 < THREE.distanceTo (EnemyAI.position e) position ->
  (now <= t0)%Z ->
  StealthSystem.checkSoundDetection
    (StealthSystem.registerSound position loudness type created now ss) t0 e
  = StealthSystem.checkSoundDetection ss t0 e.
Proof.
  intros Hfar Hlater.
  unfold StealthSystem.checkSoundDetection, StealthSystem.registerSound.
  cbn [StealthSystem.soundSources StealthSystem.set_soundSources].
  rewrite heardSounds_unheard.
  - rewrite heardSounds_app. cbn [StealthSystem.heardSounds].
    unfold StealthSystem.hear.
    cbn [Sound.time Sound.position Sound.radius].
    apply Qgtb_gt in Hfar. rewrite Hfar.
    destruct (_ >? 2000)%Z; now rewrite app_nil_r.
  - intros s _ Hold. apply Z.ltb_ge in Hold. unfold StealthSystem.hear.
    assert (Hage : (t0 - Sound.time s >? 2000)%Z = true)
      by (apply Z.gtb_lt; lia).
    now rewrite Hage.
Qed.

(** X26.  [handleEnemyHit] hits the first agent of the array that carries
    the id and leaves all others alone; without such an agent nothing
    changes and nothing is reported.  The reported damage is the weapon's
    damage, times the headshot multiplier for a headshot; but [takeDamage]
    doubles a headshot once more, so a living agent loses
    [damage * headshotMultiplier * 2] health on a headshot. *)
Theorem handleEnemyHit_spec
    (enemyId : nat) (isHeadshot : bool) (weapon : Weapon.t)
    (agents : list EnemyAI.t) :
  let reported :=
    if isHeadshot
    then Weapon.damage weapon * Weapon.headshotMultiplier weapon
    else Weapon.damage weapon in
  match handleEnemyHit enemyId isHeadshot weapon agents with
  | (agents', None) =>
      agents' = agents
      /\ forall a, In a agents -> EnemyAI.id a <> enemyId
  | (agents', Some r) =>
      exists before a after,
        agents = before ++ a :: after
        /\ (forall b, In b before -> EnemyAI.id b <> enemyId)
        /\ EnemyAI.id a = enemyId
        /\ agents' = before ++ enemy r :: after
        /\ (enemy r, killed r) = EnemyAI.takeDamage reported isHeadshot a
        /\ WeaponSystem.isHeadshot r = isHeadshot
        /\ damage r = reported
        /\ (EnemyAI.isAlive a = true ->
            EnemyAI.health (enemy r)
            = EnemyAI.health a
              - (if isHeadshot
                 then Weapon.damage weapon * Weapon.headshotMultiplier weapon
                      * 2
                 else Weapon.damage weapon))
  end.
Proof.
  intros reported. unfold handleEnemyHit. fold reported.
  set (amount := reported).
  assert (Hfirst :
    match hitFirst enemyId amount isHeadshot agents with
    | (agents', None) =>
        agents' = agents /\ forall a, In a agents -> EnemyAI.id a <> enemyId
    | (agents', Some (a', k)) =>
        exists before a after,
          agents = before ++ a :: after
          /\ (forall b, In b before -> EnemyAI.id b <> enemyId)
          /\ EnemyAI.id a = enemyId
          /\ agents' = before ++ a' :: after
          /\ (a', k) = EnemyAI.takeDamage amount isHeadshot a
    end).
  { induction agents as [|a rest IH]; cbn [hitFirst].
    - split; [reflexivity|]. intros a [].
    - destruct (Nat.eqb (EnemyAI.id a) enemyId) eqn:E.
      + apply Nat.eqb_eq in E.
        destruct (EnemyAI.takeDamage amount isHeadshot a) as [a' k] eqn:Ht.
        exists [], a, rest. repeat split; trivial; [intros b []|].
        now rewrite Ht.
      + apply Nat.eqb_neq in E.
        destruct (hitFirst enemyId amount isHeadshot rest)
          as [rest' [[a' k]|]].
        * destruct IH as (before & x & after & H1 & H2 & H3 & H4 & H5).
          exists (a :: before), x, after. subst rest rest'.
          repeat split; trivial. intros b [<- | Hb]; auto.
        * destruct IH as (-> & H). split; [reflexivity|].
          intros b [<- | Hb]; auto. }
  destruct (hitFirst enemyId amount isHeadshot agents) as [agents' [[a' k]|]];
    [|exact Hfirst].
  destruct Hfirst as (before & a & after & H1 & H2 & H3 & H4 & H5).
  exists before, a, after. cbn [enemy killed WeaponSystem.isHeadshot damage].
  repeat split; trivial.
  intros Ha. revert H5. unfold EnemyAI.takeDamage. rewrite Ha. cbn [negb].
  cbv zeta.
  destruct (Qleb _ 0); intros H5; inversion H5; subst; unfold EnemyAI.die;
    read_fields; subst amount reported; destruct isHeadshot; reflexivity.
Qed.

End Shots.

(** ** Game flow *)

Section Flow.

Import GameStateManager.

Lemma GameState_eqb_eq (a b : GameState) : GameState_eqb a b = true <-> a = b.
Proof. destruct a, b; cbn; split; congruence. Qed.

Lemma incrementStat_state (stat : string) (amount : Z) (m : t) :
  currentState (incrementStat stat amount m) = currentState m
  /\ previousState (incrementStat stat amount m) = previousState m.
Proof.
  unfold incrementStat. cbv zeta.
  repeat match goal with
    | |- context [if String.eqb ?a ?b then _ else _] =>
        destruct (String.eqb a b)
    end; now split.
Qed.

Lemma onStateEnter_state (s : GameState) (data : Data) (now : Z) (m : t) :
  currentState (onStateEnter s data now m) = currentState m
  /\ previousState (onStateEnter s data now m) = previousState m.
Proof. destruct s; now split. Qed.

Lemma setState_cases (s : GameState) (data : Data) (now : Z) (m : t) :
  (In s (validTransitions (currentState m))
   /\ setState s data now m
      = (onStateEnter s data now (mk s (Some (currentState m)) (stateData m)),
         true))
  \/ (~ In s (validTransitions (currentState m))
      /\ setState s data now m = (m, false)).
Proof.
  unfold setState. cbv zeta.
  destruct (existsb (GameState_eqb s) (validTransitions (currentState m)))
    eqn:E; cbn [negb].
  - left. split; [|reflexivity].
    apply existsb_exists in E. destruct E as (x & Hin & Hx).
    apply GameState_eqb_eq in Hx. now subst.
  - right. split; [|reflexivity]. intros Hin.
    assert (existsb (GameState_eqb s) (validTransitions (currentState m))
            = true).
    { apply existsb_exists. exists s. split; [exact Hin|].
      now apply GameState_eqb_eq. }
    congruence.
Qed.

Lemma request_cases (r : Request) (m : t) :
  (In (wanted r) (validTransitions (currentState m))
   /\ currentState (request r m) = wanted r
   /\ previousState (request r m) = Some (currentState m)
   /\ (wanted r = TARGET_ELIMINATED ->
       targetEliminated (stateData (request r m)) = Bool true)
   /\ (wanted r <> TARGET_ELIMINATED ->
       targetEliminated (stateData (request r m))
       = targetEliminated (stateData m)))
  \/ request r m = m.
Proof.
  unfold request.
  destruct (setState_cases (wanted r) (given r) (moment r) m)
    as [(Hin & ->) | (Hout & ->)]; cbn [fst]; [left | now right].
  split; [exact Hin|].
  destruct (wanted r); cbn; repeat split; congruence.
Qed.

Lemma requests_invariant (rs : list Request) (m : t) :
  ((forall p, previousState m = Some p ->
              In (currentState m) (validTransitions p))
   /\ (afterKill (currentState m) = true ->
       targetEliminated (stateData m) = Bool true)
   /\ (previousState m = None -> currentState m = LOADING)) ->
  (forall p, previousState (requests rs m) = Some p ->
             In (currentState (requests rs m)) (validTransitions p))
  /\ (afterKill (currentState (requests rs m)) = true ->
      targetEliminated (stateData (requests rs m)) = Bool true)
  /\ (previousState (requests rs m) = None ->
      currentState (requests rs m) = LOADING).
Proof.
  unfold requests. revert m.
  induction rs as [|r later IH]; intros m Hm; cbn [fold_left]; [exact Hm|].
  apply IH.
  destruct (request_cases r m) as [(Hin & Hc & Hp & Hk & Hn) | ->];
    [|exact Hm].
  destruct Hm as (H1 & H2 & H3). rewrite Hc, Hp.
  split; [intros p Hq; inversion Hq; subst; exact Hin|].
  split; [|discriminate].
  destruct (wanted r) eqn:Hw; cbn; try discriminate.
  - intros _. now apply Hk.
  - intros _. rewrite Hn by discriminate. apply H2. revert Hin.
    destruct (currentState m); cbn; intuition congruence.
  - intros _. rewrite Hn by discriminate. apply H2. revert Hin.
    destruct (currentState m); cbn; intuition congruence.
Qed.

(** X27.  [setState] changes the state exactly when the table of valid
    transitions allows the step from the current state, which is never a
    step to the same state; a refused request leaves the manager
    untouched.  Through any series of requests made of a new manager, the
    state that precedes the current one is a valid predecessor of it, a
    state after the kill ([TARGET_ELIMINATED], [ESCAPE],
    [MISSION_COMPLETE]) is only held with the [targetEliminated] flag
    set, and [MISSION_COMPLETE] is only entered from [ESCAPE]. *)
Theorem setState_walk :
  (forall s data now m,
      (snd (setState s data now m) = true
       <-> In s (validTransitions (currentState m)))
      /\ (snd (setState s data now m) = false ->
          fst (setState s data now m) = m)
      /\ (snd (setState s data now m) = true ->
          currentState (fst (setState s data now m)) = s
          /\ previousState (fst (setState s data now m))
             = Some (currentState m)
          /\ s <> currentState m))
  /\ (forall rs,
        let m := requests rs new in
        (forall p, previousState m = Some p ->
                   In (currentState m) (validTransitions p))
        /\ (afterKill (currentState m) = true ->
            targetEliminated (stateData m) = Bool true)
        /\ (currentState m = MISSION_COMPLETE ->
            previousState m = Some ESCAPE)).
Proof.
  split.
  - intros s data now m.
    destruct (setState_cases s data now m) as [(Hin & ->) | (Hout & ->)];
      cbn [fst snd].
    + split; [tauto|]. split; [discriminate|]. intros _.
      destruct (onStateEnter_state s data now
                  (mk s (Some (currentState m)) (stateData m))) as (-> & ->).
      cbn [currentState previousState]. repeat split.
      intros ->. revert Hin.
      destruct (currentState m); cbn; intuition congruence.
    + split; [split; [discriminate | contradiction]|].
      split; [reflexivity | discriminate].
  - intros rs. cbv zeta.
    destruct (requests_invariant rs new) as (H1 & H2 & H3).
    { split; [discriminate|]. split; [discriminate | reflexivity]. }
    split; [exact H1|]. split; [exact H2|]. intros Hc.
    destruct (previousState (requests rs new)) as [p|] eqn:Hp.
    + specialize (H1 p eq_refl). rewrite Hc in H1.
      destruct p; cbn in H1; intuition congruence.
    + rewrite (H3 eq_refl) in Hc. discriminate.
Qed.

(** X28.  [getRating] awards Silent Assassin exactly when no detection
    was counted, the kill is marked silent and at most one agent was
    killed, whether or not the target was eliminated; and the rating
    never improves when more detections or more kills are counted. *)
Theorem getRating_monotone (m1 m2 : t) :
  (getRating m1 = "Silent Assassin"%string
   <-> timesDetected (stateData m1) = 0%Z
       /\ truthy (silentKill (stateData m1)) = true
       /\ (enemiesKilled (stateData m1) <= 1)%Z)
  /\ ((0 <= timesDetected (stateData m1) <= timesDetected (stateData m2))%Z ->
      (enemiesKilled (stateData m1) <= enemiesKilled (stateData m2))%Z ->
      silentKill (stateData m2) = silentKill (stateData m1) ->
      targetEliminated (stateData m2) = targetEliminated (stateData m1) ->
      (rank (getRating m2) <= rank (getRating m1))%nat).
Proof.
  unfold getRating, getStats. cbv zeta.
  cbn [statTimesDetected statSilentKill statEnemiesKilled
       statTargetEliminated].
  split.
  - destruct (timesDetected (stateData m1) =? 0)%Z eqn:E1;
      [apply Z.eqb_eq in E1 | apply Z.eqb_neq in E1];
      (destruct (truthy (silentKill (stateData m1))) eqn:E2);
      (destruct (enemiesKilled (stateData m1) <=? 1)%Z eqn:E3;
        [apply Z.leb_le in E3 | apply Z.leb_gt in E3]);
      cbn [andb];
      try (split; [intros _; now repeat split | reflexivity]);
      (split; [|intros (H1 & H2 & H3); try congruence; try lia]);
      repeat match goal with
        | |- context [if ?b then _ else _] => destruct b
        end; intros X; discriminate X.
  - intros Hd Hk Hs Ht. rewrite Hs, Ht.
    destruct (timesDetected (stateData m1) =? 0)%Z eqn:A1;
      [apply Z.eqb_eq in A1 | apply Z.eqb_neq in A1];
      (destruct (timesDetected (stateData m2) =? 0)%Z eqn:A2;
        [apply Z.eqb_eq in A2 | apply Z.eqb_neq in A2]);
      (destruct (enemiesKilled (stateData m1) <=? 1)%Z eqn:B1;
        [apply Z.leb_le in B1 | apply Z.leb_gt in B1]);
      (destruct (enemiesKilled (stateData m2) <=? 1)%Z eqn:B2;
        [apply Z.leb_le in B2 | apply Z.leb_gt in B2]);
      (destruct (timesDetected (stateData m1) <=? 2)%Z eqn:C1;
        [apply Z.leb_le in C1 | apply Z.leb_gt in C1]);
      (destruct (timesDetected (stateData m2) <=? 2)%Z eqn:C2;
        [apply Z.leb_le in C2 | apply Z.leb_gt in C2]);
      try lia;
      destruct (truthy (silentKill (stateData m1)));
      destruct (truthy (targetEliminated (stateData m1)));
      cbn; lia.
Qed.

End Flow.

(** ** Counting detections *)

Section Detections.

Lemma trackDetection_step (alert : AlertState) (g : Game.t) :
  let g' := Game.trackDetection alert g in
  (alert = COMBAT -> Game.wasInCombat g = false ->
   detections g' = (detections g + 1)%Z /\ Game.wasInCombat g' = true)
  /\ (alert = COMBAT -> Game.wasInCombat g = true ->
      detections g' = detections g /\ Game.wasInCombat g' = true)
  /\ (alert = IDLE ->
      detections g' = detections g /\ Game.wasInCombat g' = false)
  /\ (alert <> COMBAT -> alert <> IDLE ->
      detections g' = detections g
      /\ Game.wasInCombat g' = Game.wasInCombat g).
Proof.
  unfold Game.trackDetection, detections.
  destruct (Game.wasInCombat g) eqn:Hw; destruct alert; cbv zeta;
    cbn [negb Game.stateManager Game.wasInCombat]; repeat split; intros;
    try congruence; try reflexivity; try exact Hw.
Qed.

Lemma track_bounds (alerts : list AlertState) (g : Game.t) :
  (detections g <= detections (track alerts g))%Z
  /\ (detections (track alerts g)
      <= detections g + Z.of_nat (occurrences COMBAT alerts))%Z
  /\ (detections (track alerts g)
      <= detections g + (if Game.wasInCombat g then 0 else 1)
         + Z.of_nat (occurrences IDLE alerts))%Z
  /\ ((forall a, In a alerts -> a <> IDLE) ->
      Game.wasInCombat g = true \/ In COMBAT alerts ->
      Game.wasInCombat (track alerts g) = true).
Proof.
  unfold track. revert g.
  induction alerts as [|a rest IH]; intros g; cbn [fold_left].
  - unfold occurrences. cbn [filter List.length].
    repeat split; try lia.
    + destruct (Game.wasInCombat g); lia.
    + intros _ [H | []]. exact H.
  - destruct (IH (Game.trackDetection a g)) as (I1 & I2 & I3 & I4).
    pose proof (trackDetection_step a g) as (S1 & S2 & S3 & S4).
    cbv zeta in S1, S2, S3, S4.
    unfold occurrences in *. cbn [filter].
    destruct a; cbn [AlertState_eqb List.length].
    + destruct (S3 eq_refl) as (Hd & Hw). rewrite Hd, Hw in *.
      repeat split; try lia.
      * destruct (Game.wasInCombat g); lia.
      * intros Hno. exfalso. apply (Hno IDLE); [now left | reflexivity].
    + destruct S4 as (Hd & Hw); try discriminate. rewrite Hd, Hw in *.
      repeat split; try lia.
      intros Hno [H | [H | H]]; try discriminate;
        (apply I4; [intros x Hx; apply Hno; now right | auto]).
    + destruct S4 as (Hd & Hw); try discriminate. rewrite Hd, Hw in *.
      repeat split; try lia.
      intros Hno [H | [H | H]]; try discriminate;
        (apply I4; [intros x Hx; apply Hno; now right | auto]).
    + destruct (Game.wasInCombat g) eqn:Hg.
      * destruct (S2 eq_refl eq_refl) as (Hd & Hw). rewrite Hd, Hw in *.
        repeat split; try lia.
        intros Hno _. apply I4; [intros x Hx; apply Hno; now right | auto].
      * destruct (S1 eq_refl eq_refl) as (Hd & Hw). rewrite Hd, Hw in *.
        repeat split; try lia.
        intros Hno _. apply I4; [intros x Hx; apply Hno; now right | auto].
Qed.

(** X29.  The detection counter never falls; it rises by at most one per
    frame whose global alert is [COMBAT], and every detection after the
    first needs a frame with global alert [IDLE] before it.  So a stretch
    of frames none of which is [IDLE] adds at most one detection, and none
    at all if the combat mark was up when it began: falling back to
    [SUSPICIOUS] or [ALERTED] and returning to [COMBAT] is not counted
    again. *)
Theorem detections_counted (alerts : list AlertState) (g : Game.t) :
  (detections g <= detections (track alerts g))%Z
  /\ (detections (track alerts g)
      <= detections g + Z.of_nat (occurrences COMBAT alerts))%Z
  /\ (detections (track alerts g)
      <= detections g + 1 + Z.of_nat (occurrences IDLE alerts))%Z
  /\ ((forall a, In a alerts -> a <> IDLE) ->
      (detections (track alerts g) <= detections g + 1)%Z
      /\ (Game.wasInCombat g = true ->
          detections (track alerts g) = detections g)
      /\ (In COMBAT alerts -> Game.wasInCombat (track alerts g) = true)).
Proof.
  destruct (track_bounds alerts g) as (H1 & H2 & H3 & H4).
  split; [exact H1|]. split; [exact H2|]. split.
  - destruct (Game.wasInCombat g); lia.
  - intros Hno.
    assert (Hz : occurrences IDLE alerts = 0%nat).
    { unfold occurrences. clear - Hno.
      induction alerts as [|a rest IH]; [reflexivity|]. cbn [filter].
      destruct a; cbn [AlertState_eqb].
      - exfalso. apply (Hno IDLE); [now left | reflexivity].
      - apply IH. intros x Hx. apply Hno. now right.
      - apply IH. intros x Hx. apply Hno. now right.
      - apply IH. intros x Hx. apply Hno. now right. }
    rewrite Hz in H3. split; [destruct (Game.wasInCombat g); lia|].
    split.
    + intros Hw. rewrite Hw in H3. lia.
    + intros Hin. apply H4; auto.
Qed.

End Detections.

(** ** The mission *)

Section Mission.
Context {M : MathLib}.

Lemma deadStay_refl (l : list EnemyAI.t) : deadStay l l.
Proof. induction l; constructor; auto. Qed.

Lemma deadStay_nth (l l' : list EnemyAI.t) (place : nat) (a : EnemyAI.t) :
  deadStay l l' -> nth_error l place = Some a ->
  EnemyAI.isAlive a = false -> nth_error l' place = Some a.
Proof.
  intros H. revert place. induction H as [|e e' l l' He _ IH];
    intros [|place] Hn Hd; try discriminate.
  - cbn in *. inversion Hn; subst. now rewrite (He Hd).
  - cbn in *. now apply IH.
Qed.

Lemma updateEnemies_deadStay (k : Tick) (draws : list Q)
    (l l' : list EnemyAI.t) (p : Player.t) :
  updateEnemies k draws l = Some (l', p) -> deadStay l l'.
Proof.
  revert k draws l' p. induction l as [|a rest IH]; intros k draws l' p;
    cbn [updateEnemies].
  - intros H. inversion H. constructor.
  - cbv zeta. destruct (EnemyAI.isAlive a) eqn:Ha.
    + destruct (update _ a) as [[a1 p1]|]; [|discriminate].
      destruct (updateEnemies _ (tl draws) rest) as [[rest' p2]|] eqn:Hr;
        [|discriminate].
      intros H. inversion H; subst. constructor; [congruence|].
      now apply (IH _ _ _ _ Hr).
    + destruct (updateEnemies _ (tl draws) rest) as [[rest' p2]|] eqn:Hr;
        [|discriminate].
      intros H. inversion H; subst. constructor; [reflexivity|].
      now apply (IH _ _ _ _ Hr).
Qed.

Lemma hitFirst_deadStay (enemyId : nat) (amount : Q) (isHeadshot : bool)
    (l : list EnemyAI.t) :
  deadStay l (fst (WeaponSystem.hitFirst enemyId amount isHeadshot l)).
Proof.
  induction l as [|a rest IH]; cbn [WeaponSystem.hitFirst];
    [constructor|].
  destruct (Nat.eqb (EnemyAI.id a) enemyId).
  - destruct (EnemyAI.takeDamage amount isHeadshot a) as [a' k] eqn:Ht.
    cbn [fst]. constructor; [|apply deadStay_refl].
    intros Hd. rewrite (takeDamage_dead amount isHeadshot a Hd) in Ht.
    now inversion Ht.
  - destruct (WeaponSystem.hitFirst enemyId amount isHeadshot rest)
      as [rest' found]. cbn [fst] in *. constructor; [reflexivity | exact IH].
Qed.

Lemma shoot_deadStay (player : Player.t) (created now : Z)
    (ray : option Intersection) (w w' : WeaponSystem.World)
    (hit : option WeaponSystem.HitReport) :
  WeaponSystem.shoot player created now ray w = Some (w', hit) ->
  deadStay (WeaponSystem.enemies w) (WeaponSystem.enemies w').
Proof.
  unfold WeaponSystem.shoot. cbv zeta.
  destruct (negb _); [intros H; inversion H; apply deadStay_refl|].
  destruct (Qgtb _ 0); [intros H; inversion H; apply deadStay_refl|].
  destruct (WeaponSystem.isReloading _);
    [intros H; inversion H; apply deadStay_refl|].
  destruct (WeaponSystem.getCurrentWeapon _) as [weapon|]; [|discriminate].
  destruct (_ <=? 0)%Z.
  - destruct (WeaponSystem.reload _); [|discriminate].
    intros H; inversion H; apply deadStay_refl.
  - destruct (WeaponSystem.performRaycast ray _ _) as [enemies' hit'] eqn:Hr.
    intros H. inversion H; subst. cbn [WeaponSystem.enemies].
    revert Hr. unfold WeaponSystem.performRaycast.
    destruct ray as [[enemyId isHead|]|];
      try (intros X; inversion X; apply deadStay_refl).
    unfold WeaponSystem.handleEnemyHit. cbv zeta.
    match goal with
    | |- context [WeaponSystem.hitFirst ?i ?a ?h ?l] =>
        pose proof (hitFirst_deadStay i a h l) as Hd;
          destruct (WeaponSystem.hitFirst i a h l) as [l' [[x y]|]]
    end; intros X; inversion X; subst; exact Hd.
Qed.

Lemma targetDead_stays (g g' : Game.t) :
  Game.target g' = Game.target g ->
  deadStay (Game.enemies g) (Game.enemies g') ->
  targetDead g -> targetDead g'.
Proof.
  intros Ht Hd (a & Ha & Hdead). exists a. split; [|exact Hdead].
  revert Ha. unfold Game.targetAgent. rewrite Ht.
  destruct (Game.target g) as [place|]; [|discriminate].
  intros Ha. now apply (deadStay_nth _ _ _ _ Hd).
Qed.

Lemma countKills_state (l : list EnemyAI.t) (marks : list bool)
    (m : GameStateManager.t) :
  GameStateManager.currentState (snd (Game.countKills l marks m))
  = GameStateManager.currentState m.
Proof.
  revert marks m. induction l as [|a rest IH]; intros marks m;
    cbn [Game.countKills]; [reflexivity|].
  destruct (negb _ && negb _ && negb _).
  - specialize (IH (tl marks)
                   (GameStateManager.incrementStat "enemiesKilled" 1 m)).
    destruct (Game.countKills rest (tl marks) _) as [marks' m'].
    cbn [snd] in *. rewrite IH. apply incrementStat_state.
  - specialize (IH (tl marks) m).
    destruct (Game.countKills rest (tl marks) m) as [marks' m'].
    cbn [snd] in *. exact IH.
Qed.

Lemma checkGameConditions_state (now : Z) (player : Player.t) (g : Game.t) :
  let g' := Game.checkGameConditions now player g in
  Game.enemies g' = Game.enemies g
  /\ Game.target g' = Game.target g
  /\ (afterKill (GameStateManager.currentState (Game.stateManager g')) = true ->
      afterKill (GameStateManager.currentState (Game.stateManager g)) = true
      \/ (GameStateManager.currentState (Game.stateManager g) = PLAYING
          /\ targetDead g)).
Proof.
  unfold Game.checkGameConditions. cbv zeta.
  destruct (negb (Player.isAlive player)).
  { cbn. repeat split. discriminate. }
  match goal with
  | |- context [Game.countKills ?l ?k ?m] =>
      pose proof (countKills_state l k m) as Hc;
        destruct (Game.countKills l k m) as [marks m']
  end.
  cbn [snd] in Hc. cbn [Game.enemies Game.target Game.stateManager].
  split; [reflexivity|]. split; [reflexivity|]. rewrite Hc. clear Hc.
  unfold targetDead.
  destruct (Game.targetAgent g) as [a|] eqn:Ha.
  - destruct (EnemyAI.isAlive a) eqn:Hlive; cbn [negb].
    + destruct (Game.stateManager g) as [cur prev data].
      destruct cur; destruct (Game.isInEscapeZone _ _); cbn; auto;
        discriminate.
    + destruct (Game.stateManager g) as [cur prev data].
      destruct cur; destruct (Game.isInEscapeZone _ _); cbn; auto;
        try discriminate; intros _; right; (split; [reflexivity|]);
        exists a; now split.
  - destruct (Game.stateManager g) as [cur prev data].
    destruct cur; destruct (Game.isInEscapeZone _ _); cbn; auto; discriminate.
Qed.

Lemma trackDetection_state (alert : AlertState) (g : Game.t) :
  Game.enemies (Game.trackDetection alert g) = Game.enemies g
  /\ Game.target (Game.trackDetection alert g) = Game.target g
  /\ GameStateManager.currentState
       (Game.stateManager (Game.trackDetection alert g))
     = GameStateManager.currentState (Game.stateManager g).
Proof.
  unfold Game.trackDetection.
  destruct alert; try destruct (negb _);
    cbn [Game.enemies Game.target Game.stateManager]; repeat split.
Qed.

Lemma updateGame_inOrder (dt : Q) (f : FrameInput) (g g' : Game.t)
    (p : Player.t) :
  missionInOrder g -> updateGame dt f g = Some (g', p) -> missionInOrder g'.
Proof.
  intros Hg. unfold updateGame.
  destruct (WeaponSystem.update dt (Game.weaponSystem g)) as [ws|];
    [|discriminate].
  cbv zeta.
  destruct (updateEnemies _ (draws f) (Game.enemies g))
    as [[enemies' player']|] eqn:Hu; [|discriminate].
  apply updateEnemies_deadStay in Hu.
  destruct (StealthSystem.updateGlobalAlert enemies' (Game.stealthSystem g))
    as [ss alert].
  intros H. inversion H; subst. clear H.
  set (g1 := Game.mk enemies' _ _ ss ws _ _ _).
  destruct (trackDetection_state alert g1) as (T1 & T2 & T3).
  set (g2 := Game.trackDetection alert g1) in *.
  destruct (checkGameConditions_state (clock f) p g2) as (C1 & C2 & C3).
  cbv zeta in C1, C2, C3.
  set (g3 := Game.checkGameConditions (clock f) p g2) in *.
  assert (Hstay : forall x, Game.target x = Game.target g2 ->
                            Game.enemies x = Game.enemies g2 ->
                            targetDead g2 -> targetDead x).
  { intros x Hx1 Hx2. apply targetDead_stays; [exact Hx1|].
    rewrite Hx2. apply deadStay_refl. }
  assert (H12 : targetDead g -> targetDead g2).
  { apply targetDead_stays; [now rewrite T2|]. now rewrite T1. }
  unfold missionInOrder. cbn [Game.stateManager Game.set_stateManager
    GameStateManager.currentState GameStateManager.set_stateData].
  intros Hafter.
  apply (Hstay _); [exact C2 | exact C1 |].
  destruct (C3 Hafter) as [Hbefore | (_ & Hdead)]; [|exact Hdead].
  apply H12, Hg. rewrite T3 in Hbefore. exact Hbefore.
Qed.

Lemma happen_inOrder (h : Happening) (g g' : Game.t) :
  missionInOrder g -> happen h g = Some g' -> missionInOrder g'.
Proof.
  intros Hg. destruct h as [now | f | player created now ray]; cbn [happen].
  - intros H. inversion H; subst. clear H. unfold startGame, missionInOrder.
    cbn [Game.stateManager Game.set_stateManager].
    destruct (setState_cases PLAYING GameStateManager.noData now
                             (Game.stateManager g)) as [(_ & ->) | (_ & ->)];
      cbn [fst].
    + cbn. discriminate.
    + intros Hafter. destruct (Hg Hafter) as (a & Ha & Hd). now exists a.
  - unfold frame. cbv zeta.
    destruct (GameStateManager.isPlaying _);
      [|intros H; inversion H; subst; exact Hg].
    destruct (updateGame _ f g) as [[g1 p1]|] eqn:Hu; [|discriminate].
    cbn [option_map fst]. intros H. inversion H; subst.
    now apply (updateGame_inOrder (Math.min (delta f) 0.1) f g g' p1).
  - unfold mousedown.
    destruct (GameStateManager.isPlaying _);
      [|intros H; inversion H; subst; exact Hg].
    destruct (WeaponSystem.shoot _ _ _ _ _) as [[w hit]|] eqn:Hs;
      [|discriminate].
    apply shoot_deadStay in Hs. cbn [WeaponSystem.enemies] in Hs.
    intros H. inversion H; subst. clear H. unfold missionInOrder.
    cbn [Game.stateManager]. intros Hafter.
    apply (targetDead_stays g); [reflexivity | exact Hs | now apply Hg].
Qed.

(** X30.  The mission never passes the kill while the target lives: if
    the game starts in a state before the kill, then through any
    succession of start requests, animation frames and pulls of the
    trigger that does not throw, the states [TARGET_ELIMINATED], [ESCAPE]
    and [MISSION_COMPLETE] are only held while the target of the game is
    one of the agents and is dead. *)
Theorem mission_needs_kill (hs : list Happening) (g g' : Game.t) :
  afterKill (GameStateManager.currentState (Game.stateManager g)) = false ->
  play hs g = Some g' ->
  afterKill (GameStateManager.currentState (Game.stateManager g')) = true ->
  exists a, Game.targetAgent g' = Some a /\ EnemyAI.isAlive a = false.
Proof.
  intros Hstart.
  assert (Hg : missionInOrder g)
    by (unfold missionInOrder; rewrite Hstart; discriminate).
  clear Hstart. revert g Hg.
  induction hs as [|h later IH]; intros g Hg; cbn [play].
  - intros H. inversion H; subst. exact Hg.
  - destruct (happen h g) as [g1|] eqn:Hh; [|discriminate].
    apply IH. now apply (happen_inOrder h g g1).
Qed.

End Mission.

(** ** Closed examples *)

Lemma shot_and_global_alert_witness :
  EnemyAI.isAlive Scenario.guard = true
  /\ 0 < EnemyAI.health Scenario.guard - 30
  /\ StealthSystem.getDetectionMeter [Scenario.target; Scenario.woundedGuard]
     == 1.
Proof.
  assert (Ha : EnemyAI.isAlive Scenario.guard = true) by reflexivity.
  assert (Hh : 0 < EnemyAI.health Scenario.guard - 30) by reflexivity.
  split; [exact Ha|]. split; [exact Hh|].
  exact (proj2 (proj2 (shot_and_global_alert
                         [Scenario.target] [] Scenario.guard 30 false
                         Scenario.quiet Ha) Hh)).
Defined.

Lemma facePosition_turn_bounded_witness :
  0 <= EnemyAI.turnSpeed Scenario.guard /\ 0 <= 0.1
  /\ Qabs (EnemyAI.rotation
             (EnemyAI.facePosition (vec3 1 0 0) 0.1 Scenario.guard)
           - EnemyAI.rotation Scenario.guard)
     <= Math.PI * EnemyAI.turnSpeed Scenario.guard * 0.1.
Proof.
  assert (Ht : 0 <= EnemyAI.turnSpeed Scenario.guard) by discriminate.
  assert (Hd : 0 <= 0.1) by discriminate.
  split; [exact Ht|]. split; [exact Hd|].
  exact (proj2 (facePosition_turn_bounded
                  (vec3 1 0 0) 0.1 Scenario.guard Ht Hd)).
Defined.

Lemma update_harm_witness :
  exists e' p',
    update Scenario.watchTick Scenario.target = Some (e', p')
    /\ p' = player Scenario.watchTick.
Proof.
  destruct (update Scenario.watchTick Scenario.target)
    as [[e' p']|] eqn:Hu; [|vm_compute in Hu; discriminate Hu].
  exists e', p'. split; [reflexivity|].
  exact (proj1 (proj2 (update_harm Scenario.watchTick Scenario.target e' p'
                                   Hu)) eq_refl).
Defined.

Lemma update_calms_witness :
  defaultThresholds (stealthSystem Scenario.lostTick)
  /\ 0 <= EnemyAI.alertLevel Scenario.woundedGuard
  /\ exists e' p',
       update Scenario.lostTick Scenario.woundedGuard = Some (e', p')
       /\ EnemyAI.alertLevel e' <= EnemyAI.alertLevel Scenario.woundedGuard.
Proof.
  assert (Hd : defaultThresholds (stealthSystem Scenario.lostTick))
    by (repeat split).
  assert (H0 : 0 <= EnemyAI.alertLevel Scenario.woundedGuard)
    by discriminate.
  assert (Hr : 0 <= EnemyAI.alertDecayRate Scenario.woundedGuard
                    * deltaTime Scenario.lostTick) by discriminate.
  assert (Hs : StealthSystem.checkDetection
                 (stealthSystem Scenario.lostTick) Scenario.woundedGuard
                 (player Scenario.lostTick) (deltaTime Scenario.lostTick)
               <= 0) by discriminate.
  assert (Hh : forall h,
             StealthSystem.checkSoundDetection
               (stealthSystem Scenario.lostTick) (now Scenario.lostTick)
               Scenario.woundedGuard = Some h ->
             String.eqb (Sound.htype h) "gunshot" = false)
    by (intros h H; discriminate H).
  split; [exact Hd|]. split; [exact H0|].
  destruct (update Scenario.lostTick Scenario.woundedGuard)
    as [[e' p']|] eqn:Hu; [|vm_compute in Hu; discriminate Hu].
  exists e', p'. split; [reflexivity|].
  exact (proj1 (update_calms Scenario.lostTick Scenario.woundedGuard e' p'
                             Hd H0 Hr Hs Hh Hu)).
Defined.

Lemma dead_forever_witness :
  EnemyAI.isAlive Scenario.killedGuard = false
  /\ live Cases.ordeal Scenario.killedGuard = Some Scenario.killedGuard.
Proof.
  assert (Hd : EnemyAI.isAlive Scenario.killedGuard = false) by reflexivity.
  split; [exact Hd|]. exact (dead_forever Cases.ordeal _ Hd).
Defined.

Lemma live_health_witness :
  exists e',
    live Cases.ordeal Scenario.guard = Some e'
    /\ EnemyAI.health e' <= EnemyAI.health Scenario.guard.
Proof.
  destruct (live Cases.ordeal Scenario.guard) as [e'|] eqn:Hl;
    [|vm_compute in Hl; discriminate Hl].
  exists e'. split; [reflexivity|].
  refine (proj2 (proj2 (live_health Cases.ordeal Scenario.guard e' Hl)) _).
  intros amount hs Hin. cbn in Hin.
  destruct Hin as [H | [H | [H | [H | [H | []]]]]]; inversion H;
    discriminate.
Defined.

Lemma updateEnemies_frame_witness :
  exists enemies' p',
    updateEnemies Scenario.watchTick [] Cases.squad = Some (enemies', p')
    /\ Player.position p' = Player.position (player Scenario.watchTick).
Proof.
  destruct (updateEnemies Scenario.watchTick [] Cases.squad)
    as [[enemies' p']|] eqn:Hu; [|vm_compute in Hu; discriminate Hu].
  exists enemies', p'. split; [reflexivity|].
  exact (proj1 (proj2 (updateEnemies_frame Scenario.watchTick [] Cases.squad
                                           enemies' p' Hu))).
Defined.

Lemma senseSound_effect_witness :
  (exists s, In s (StealthSystem.soundSources Cases.masked)
             /\ Sound.type s = "gunshot"%string
             /\ StealthSystem.hear 1000 Scenario.guard s <> None)
  /\ senseSound Cases.maskedTick Scenario.guard = Scenario.guard.
Proof.
  split.
  - exists (Sound.mk (vec3 15 0 0) 1 "gunshot" 0 20).
    split; [left; reflexivity|]. split; [reflexivity | discriminate].
  - destruct (StealthSystem.hear 1000 Scenario.guard
                (Sound.mk (vec3 1 0 0) 1 "footstep" 0 20))
      as [h|] eqn:Hh; [|vm_compute in Hh; discriminate Hh].
    refine (proj1 (proj1 (proj2 (senseSound_effect Cases.maskedTick
                                                   Scenario.guard))
                         [Sound.mk (vec3 15 0 0) 1 "gunshot" 0 20]
                         (Sound.mk (vec3 1 0 0) 1 "footstep" 0 20) [] h
                         eq_refl Hh _ _ _) _).
    + intros s' Hin _ Hzero. vm_compute in Hin.
      destruct Hin as [<- | [<- | []]]; vm_compute in Hzero;
        discriminate Hzero.
    + intros s' h' [<- | []] Hh'.
      vm_compute in Hh. injection Hh as <-.
      vm_compute in Hh'. injection Hh' as <-.
      vm_compute. reflexivity.
    + intros s' h' [].
    + discriminate.
Defined.

Lemma update_throws_iff_witness :
  update Scenario.lostTick Cases.strayCursor = None.
Proof.
  apply (proj1 (update_throws_iff Scenario.lostTick Cases.strayCursor)).
  split; [reflexivity|]. split; [left; reflexivity|].
  split; [discriminate|]. split; [discriminate|]. cbn. lia.
Defined.

Lemma timers_stay_in_range_witness :
  0 <= deltaTime Scenario.watchTick
  /\ timersInRange Scenario.woundedGuard
  /\ exists e' p',
       update Scenario.watchTick Scenario.woundedGuard = Some (e', p')
       /\ timersInRange e'.
Proof.
  assert (Hdt : 0 <= deltaTime Scenario.watchTick) by discriminate.
  assert (Hdur : 0 <= EnemyAI.investigateDuration Scenario.woundedGuard)
    by discriminate.
  assert (Ht : timersInRange Scenario.woundedGuard)
    by (repeat split; discriminate).
  split; [exact Hdt|]. split; [exact Ht|].
  destruct (update Scenario.watchTick Scenario.woundedGuard)
    as [[e' p']|] eqn:Hu; [|vm_compute in Hu; discriminate Hu].
  exists e', p'. split; [reflexivity|].
  exact (proj1 timers_stay_in_range Scenario.watchTick Scenario.woundedGuard
               e' p' Hdt Hdur Ht Hu).
Defined.

Lemma update_hit_witness :
  exists e' p',
    update Scenario.watchTick Scenario.woundedGuard = Some (e', p')
    /\ p' <> player Scenario.watchTick
    /\ EnemyAI.alertState e' = COMBAT
    /\ EnemyAI.shootCooldown e'
       = EnemyAI.shootInterval Scenario.woundedGuard
         - deltaTime Scenario.watchTick.
Proof.
  destruct (update Scenario.watchTick Scenario.woundedGuard)
    as [[e' p']|] eqn:Hu; [|vm_compute in Hu; discriminate Hu].
  assert (Hne : p' <> player Scenario.watchTick).
  { pose proof Hu as Hc. vm_compute in Hc. injection Hc as _ Hp.
    intros Heq. rewrite <- Hp in Heq. vm_compute in Heq. discriminate Heq. }
  exists e', p'. split; [reflexivity|]. split; [exact Hne|].
  destruct (update_hit Scenario.watchTick Scenario.woundedGuard e' p' Hu Hne)
    as (_ & Hs & _ & Hc & _).
  split; [exact Hs|]. apply Hc. reflexivity.
Defined.

Lemma rounds_conserved_witness :
  armsInOrder (WeaponSystem.arms Range.start)
  /\ exists w',
       handleAll Range.drill Range.start = Some w'
       /\ (rounds (WeaponSystem.arms w')
           + WeaponSystem.shotsFired (WeaponSystem.arms w') = 135)%Z.
Proof.
  assert (H : armsInOrder (WeaponSystem.arms Range.start)).
  { split; [|cbn; lia].
    repeat constructor; cbn; discriminate. }
  split; [exact H|].
  destruct (rounds_conserved Range.drill Range.start H)
    as (w' & Hrun & _ & Hsum).
  exists w'. split; [exact Hrun | exact Hsum].
Defined.

Lemma shoot_effect_witness :
  exists w' hit,
    WeaponSystem.shoot Scenario.inView 0 0 (Some (EnemyMesh 1 true))
                       Range.start = Some (w', hit)
    /\ WeaponSystem.shotsFired (WeaponSystem.arms w') = 1%Z.
Proof.
  destruct (WeaponSystem.shoot Scenario.inView 0 0 (Some (EnemyMesh 1 true))
                               Range.start)
    as [[w' hit]|] eqn:Hs; [|vm_compute in Hs; discriminate Hs].
  exists w', hit. split; [reflexivity|].
  apply (proj1 (shoot_effect Scenario.inView 0 0 (Some (EnemyMesh 1 true))
                             Range.start w' hit Hs)).
  split; [reflexivity|]. split; [discriminate|]. split; [reflexivity|].
  exists WeaponSystem.silencedPistol. split; reflexivity.
Defined.

Lemma out_of_earshot_witness :
  0.3 * 20 < THREE.distanceTo (EnemyAI.position Scenario.guard) (vec3 15 0 0)
  /\ StealthSystem.checkSoundDetection
       (StealthSystem.registerSound (vec3 15 0 0) 0.3 "gunshot" 0 0
                                    Scenario.quiet)
       1000 Scenario.guard
     = StealthSystem.checkSoundDetection Scenario.quiet 1000 Scenario.guard.
Proof.
  assert (H : 0.3 * 20
              < THREE.distanceTo (EnemyAI.position Scenario.guard)
                                 (vec3 15 0 0)) by reflexivity.
  split; [exact H|].
  apply (out_of_earshot (vec3 15 0 0) 0.3 "gunshot" 0 0 1000 Scenario.quiet
                        Scenario.guard H).
  discriminate.
Defined.

Lemma mission_needs_kill_witness :
  exists g',
    play Story.plot Story.opening = Some g'
    /\ GameStateManager.currentState (Game.stateManager g')
       = MISSION_COMPLETE
    /\ exists a, Game.targetAgent g' = Some a /\ EnemyAI.isAlive a = false.
Proof.
  assert (Hend :
    option_map (fun g => GameStateManager.currentState (Game.stateManager g))
               (play Story.plot Story.opening) = Some MISSION_COMPLETE)
    by (vm_compute; reflexivity).
  destruct (play Story.plot Story.opening) as [g'|] eqn:Hp;
    [|discriminate Hend].
  cbn [option_map] in Hend. injection Hend as Hend.
  exists g'. split; [reflexivity|]. split; [exact Hend|].
  apply (mission_needs_kill Story.plot Story.opening g');
    [reflexivity | exact Hp | now rewrite Hend].
Defined.
